(** * kcp multicluster provider example: the controller entry point

    A shallow embedding of [cmd/main.go] of the kcp multicluster provider
    workshop example.  [main] is start-up code: it parses flags, builds the
    TLS options of the webhook and metrics servers, loads the discovery
    connection config, constructs the cluster provider, the client of the
    provider cluster and the multicluster manager, registers one controller
    and two health checks, spawns the provider goroutine and starts the
    manager.

    Calls into libraries (controller-runtime, client-go, the kcp provider)
    are oracles collected in an environment record; the program around them
    is modelled as written: an error/exit monad over a heap of
    [rest.Config] objects for the sequential part, and a two-thread step
    relation for the part that runs after the [go] statement.  [main] as a
    whole, from [flag.Parse] on and with the goroutine that
    [signals.SetupSignalHandler] starts, is [program]. *)

From Stdlib Require Import String List ZArith Lia Bool Arith.
Import ListNotations.
Open Scope string_scope.
Open Scope list_scope.

Set Implicit Arguments.

(** ** Go values used by [main] *)

(** Go [error] values.  [fmt.Errorf] with the [%w] verb yields an error
    whose text is the formatted string and whose [Unwrap] is the operand. *)
Inductive error : Type :=
| errorString (s : string)
| wrapError (msg : string) (err : error).

Definition Error (e : error) : string :=
  match e with
  | errorString s => s
  | wrapError msg _ => msg
  end.

Definition Unwrap (e : error) : option error :=
  match e with
  | errorString _ => None
  | wrapError _ err => Some err
  end.

(** [fmt.Errorf(prefix + "%w", err)] *)
Definition fmt_Errorf (prefix : string) (err : error) : error :=
  wrapError (prefix ++ Error err)%string err.

(** The chain that [errors.Is] and [errors.As] walk. *)
Fixpoint chain (e : error) : list error :=
  match e with
  | errorString _ => [e]
  | wrapError _ err => e :: chain err
  end.

(** A line written through a [logr.Logger]. *)
Inductive Level := Info | Err.

Record LogLine := {
  logger : string;
  level : Level;
  cause : option error;
  msg : string;
  keysAndValues : list (string * string)
}.

(** [setupLog = ctrl.Log.WithName("setup")] *)
Definition setupLog_Info (m : string) (kvs : list (string * string)) : LogLine :=
  {| logger := "setup"; level := Info; cause := None; msg := m; keysAndValues := kvs |}.

Definition setupLog_Error (e : error) (m : string) (kvs : list (string * string)) : LogLine :=
  {| logger := "setup"; level := Err; cause := Some e; msg := m; keysAndValues := kvs |}.

(** *** TLS options *)

Record CertWatcher := { certPath : string; keyPath : string }.

(** The fields of [tls.Config] that matter here; [MinVersion] stands for
    the fields no option of this program writes. *)
Record tls_Config := {
  NextProtos : list string;
  GetCertificate : option CertWatcher;
  MinVersion : Z
}.

(** A TLS option, a Go function over a [tls.Config] pointer: it updates
    the config it is given and may log. *)
Definition TLSOpt := tls_Config -> list LogLine * tls_Config.

Definition disableHTTP2 : TLSOpt := fun c =>
  ([setupLog_Info "disabling http/2" []],
   {| NextProtos := ["http/1.1"];
      GetCertificate := GetCertificate c;
      MinVersion := MinVersion c |}).

(** The closure [config.GetCertificate = w.GetCertificate]. *)
Definition useCertWatcher (w : CertWatcher) : TLSOpt := fun config =>
  ([],
   {| NextProtos := NextProtos config;
      GetCertificate := Some w;
      MinVersion := MinVersion config |}).

(** A server runs each of its [TLSOpts], in order, on the config it serves
    with ([for _, op := range TLSOpts { op(cfg) }]). *)
Fixpoint apply_TLSOpts (opts : list TLSOpt) (cfg : tls_Config) : list LogLine * tls_Config :=
  match opts with
  | [] => ([], cfg)
  | op :: rest =>
      let '(l1, cfg1) := op cfg in
      let '(l2, cfg2) := apply_TLSOpts rest cfg1 in
      (l1 ++ l2, cfg2)
  end.

(** *** Command line *)

Record Flags := {
  metricsAddr : string;
  probeAddr : string;
  enableLeaderElection : bool;
  secureMetrics : bool;
  webhookCertPath : string;
  webhookCertName : string;
  webhookCertKey : string;
  metricsCertPath : string;
  metricsCertName : string;
  metricsCertKey : string;
  enableHTTP2 : bool;
  server : string;
  providerKubeConfig : string
}.

(** The values [flag.Parse] leaves when no flag is given. *)
Definition default_flags : Flags := {|
  metricsAddr := "0";
  probeAddr := ":8081";
  enableLeaderElection := false;
  secureMetrics := true;
  webhookCertPath := "";
  webhookCertName := "tls.crt";
  webhookCertKey := "tls.key";
  metricsCertPath := "";
  metricsCertName := "tls.crt";
  metricsCertKey := "tls.key";
  enableHTTP2 := false;
  server := "";
  providerKubeConfig := ""
|}.

(** *** Schemes *)

(** The type groups this program registers. *)
Inductive API :=
| clientgo_core
| application_v1alpha1
| cnpg_v1
| kcp_apis_v1alpha1.

Definition API_eqb (a b : API) : bool :=
  match a, b with
  | clientgo_core, clientgo_core
  | application_v1alpha1, application_v1alpha1
  | cnpg_v1, cnpg_v1
  | kcp_apis_v1alpha1, kcp_apis_v1alpha1 => true
  | _, _ => false
  end.

(** A [*runtime.Scheme] is a pointer; schemes live in a store indexed by
    address and hold the groups added so far. *)
Definition SchemeRef := nat.
Definition runtime_Scheme := list API.
Definition SchemeStore := SchemeRef -> runtime_Scheme.

(** The package-level [clientgoscheme.Scheme]. *)
Definition clientgoscheme_Scheme : SchemeRef := 0%nat.

Definition knows (s : runtime_Scheme) (a : API) : bool := existsb (API_eqb a) s.

(** *** Connection configs *)

(** [rest.Config], by its host and a selection of its other fields. *)
Record rest_Config := {
  Host : string;
  APIPath : string;
  Username : string;
  Password : string;
  BearerToken : string;
  BearerTokenFile : string;
  UserAgent : string;
  Insecure : bool;
  Burst : Z
}.

(** [main] holds configs by pointer: a heap of config objects, addressed
    by position, allocation at the end. *)
Definition ConfigRef := nat.
Definition Heap := list rest_Config.

Definition alloc (h : Heap) (c : rest_Config) : ConfigRef * Heap :=
  (length h, h ++ [c]).

Definition load (h : Heap) (r : ConfigRef) : option rest_Config := nth_error h r.

Fixpoint store (h : Heap) (r : ConfigRef) (c : rest_Config) : Heap :=
  match h, r with
  | [], _ => []
  | _ :: t, O => c :: t
  | x :: t, S r' => x :: store t r' c
  end.

(** The assignment [cfg.Host = server] on a config value. *)
Definition set_Host (c : rest_Config) (host : string) : rest_Config :=
  {| Host := host;
     APIPath := APIPath c;
     Username := Username c;
     Password := Password c;
     BearerToken := BearerToken c;
     BearerTokenFile := BearerTokenFile c;
     UserAgent := UserAgent c;
     Insecure := Insecure c;
     Burst := Burst c |}.

(** *** Library objects, by identity *)

Inductive Provider := provider (id : nat).
Inductive Manager := manager (id : nat).
Inductive client_Client := client (id : nat).
Inductive Kind := Application | APIBinding.
Definition Context := nat.

(** A [healthz.Checker] maps a request to an error or nil;
    [healthz.Ping] answers nil to every request. *)
Definition http_Request := string.
Definition Checker := http_Request -> option error.
Definition healthz_Ping : Checker := fun _ => None.

(** *** Reconcile requests and results *)

Record NamespacedName := { Namespace : string; Name : string }.
Record reconcile_Request := { req_NamespacedName : NamespacedName }.
Record mcreconcile_Request := { ClusterName : string; Request : reconcile_Request }.
Record Result := { Requeue : bool; RequeueAfter : Z }.

(** The zero value [reconcile.Result{}]. *)
Definition empty_Result : Result := {| Requeue := false; RequeueAfter := 0 |}.

(** What the reconcile function reads from a [cluster.Cluster]. *)
Record Cluster := { GetClient : client_Client; GetScheme : SchemeRef }.

(** [controller.ApplicationReconciler] *)
Record ApplicationReconciler := {
  Client : client_Client;
  Scheme : SchemeRef;
  ProviderClient : client_Client
}.

(** What one run of the reconcile function does, in order. *)
Inductive Action :=
| ALog (l : LogLine)
| AGetCluster (ctx : Context) (clusterName : string)
| AReconcile (r : ApplicationReconciler) (ctx : Context) (req : reconcile_Request).

Definition ReconcileFunc :=
  Context -> mcreconcile_Request -> list Action * (Result * option error).

(** *** Options handed to the manager *)

Inductive FilterProvider := WithAuthenticationAndAuthorization.

Record metricsserver_Options := {
  BindAddress : string;
  SecureServing : bool;
  metrics_TLSOpts : list TLSOpt;
  FilterProvider_ : option FilterProvider
}.

Record webhook_Options := { webhook_TLSOpts : list TLSOpt }.

(** [webhook.NewServer] keeps the options it is given. *)
Record webhook_Server := { Options : webhook_Options }.
Definition webhook_NewServer (o : webhook_Options) : webhook_Server := {| Options := o |}.

Record ctrl_Options := {
  opt_Scheme : SchemeRef;
  Metrics : metricsserver_Options;
  WebhookServer : webhook_Server;
  HealthProbeBindAddress : string;
  LeaderElection : bool;
  LeaderElectionID : string
}.

(** ** Observable steps of [main] *)

Inductive Event :=
| ELog (l : LogLine)
| ECertwatcherNew (certFile keyFile : string)
| EWebhookNewServer (o : webhook_Options)
| ESetupSignalHandler
| EGetConfigOrDie
| ECopyConfig (src dst : ConfigRef)
| ESetHost (cfg : ConfigRef) (host : string)
| EVirtualworkspaceNew (cfg : ConfigRef) (obj : Kind) (scheme : SchemeRef)
| EStat (path : string)
| EBuildConfigFromFlags (masterUrl kubeconfigPath : string)
| EClientNew (config : ConfigRef) (scheme : SchemeRef)
| EManagerNew (cfg : ConfigRef) (p : option Provider) (o : ctrl_Options)
| EControllerComplete (m : Manager) (name : string) (for_ : Kind) (r : ReconcileFunc)
| EAddHealthzCheck (m : Manager) (name : string) (check : Checker)
| EAddReadyzCheck (m : Manager) (name : string) (check : Checker)
| EGo
| EProviderRun (ctx : Context) (m : Manager)
| EManagerStart (m : Manager) (ctx : Context).

(** ** The environment: what the libraries answer *)

Record Env := {
  AddToScheme : API -> option error;
  filepath_Join : string -> string -> string;
  filepath_Clean : string -> string;
  certwatcher_New : string -> string -> option error;
  SetupSignalHandler : Context;
  (** [None]: [ctrl.GetConfig] fails, with [GetConfig_error], and
      [ctrl.GetConfigOrDie] does not return *)
  GetConfigOrDie : option rest_Config;
  GetConfig_error : error;
  (** on success a provider pointer, which may be nil *)
  virtualworkspace_New : rest_Config -> Kind -> SchemeRef -> option Provider + error;
  os_Stat : string -> option error;
  BuildConfigFromFlags : string -> string -> rest_Config + error;
  client_New : rest_Config -> SchemeRef -> client_Client + error;
  mcmanager_New : rest_Config -> option Provider -> ctrl_Options -> Manager + error;
  Complete : Manager -> string -> Kind -> option error;
  AddHealthzCheck : Manager -> string -> option error;
  AddReadyzCheck : Manager -> string -> option error;
  (** the values the two blocking calls return, when they return *)
  provider_Run : option error;
  mgr_Start : option error;
  GetCluster : Manager -> Context -> string -> Cluster + error;
  Reconcile : ApplicationReconciler -> Context -> reconcile_Request -> Result * option error
}.

(** ** [init]: populating the shared scheme *)

(** [X.AddToScheme(s)] adds the group [a] to the scheme at address [s]. *)
Definition register (a : API) (s : SchemeRef) (st : SchemeStore) : SchemeStore :=
  fun r => if Nat.eqb r s then st r ++ [a] else st r.

(** [utilruntime.Must(X.AddToScheme(s))]: a non-nil error panics. *)
Definition Must_AddToScheme (env : Env) (a : API) (s : SchemeRef)
    (k : SchemeStore -> SchemeStore + error) (st : SchemeStore) : SchemeStore + error :=
  match AddToScheme env a with
  | Some e => inr e
  | None => k (register a s st)
  end.

(** [init]; [inr e] is the panic with [e]. *)
Definition init (env : Env) : SchemeStore -> SchemeStore + error :=
  Must_AddToScheme env clientgo_core clientgoscheme_Scheme
    (Must_AddToScheme env application_v1alpha1 clientgoscheme_Scheme
      (Must_AddToScheme env cnpg_v1 clientgoscheme_Scheme
        (Must_AddToScheme env kcp_apis_v1alpha1 clientgoscheme_Scheme
          (fun st => inl st)))).

(** ** The monad of [main]'s sequential part *)

(** How a run can stop before [main] is through: [os.Exit(code)], in
    [main] itself or inside [ctrl.GetConfigOrDie], or a nil pointer
    dereferenced. *)
Inductive Stop := Exit (code : Z) | NilDeref.

Inductive Res (A : Type) := Ok (a : A) | Halt (s : Stop).
Arguments Ok {A} a.
Arguments Halt {A} s.

Definition M (A : Type) := Heap -> list Event * Heap * Res A.

Definition ret {A} (a : A) : M A := fun h => ([], h, Ok a).

Definition bind {A B} (m : M A) (k : A -> M B) : M B := fun h =>
  match m h with
  | (t, h1, Ok a) => let '(t', h2, r) := k a h1 in (t ++ t', h2, r)
  | (t, h1, Halt s) => (t, h1, Halt s)
  end.

Notation "x <- m ;; k" := (bind m (fun x => k))
  (at level 61, m at next level, right associativity).
Notation "m ;;; k" := (bind m (fun _ => k))
  (at level 61, right associativity).

Definition emit (e : Event) : M unit := fun h => ([e], h, Ok tt).
Definition os_Exit {A} (code : Z) : M A := fun h => ([], h, Halt (Exit code)).
Definition Info_ (m : string) (kvs : list (string * string)) : M unit :=
  emit (ELog (setupLog_Info m kvs)).
Definition Error_ (e : error) (m : string) (kvs : list (string * string)) : M unit :=
  emit (ELog (setupLog_Error e m kvs)).

Definition new_Config (c : rest_Config) : M ConfigRef := fun h =>
  let '(r, h') := alloc h c in ([], h', Ok r).

Definition deref (r : ConfigRef) : M rest_Config := fun h =>
  match load h r with
  | Some c => ([], h, Ok c)
  | None => ([], h, Halt NilDeref)
  end.

Definition assign (r : ConfigRef) (c : rest_Config) : M unit := fun h =>
  ([], store h r c, Ok tt).

(** [rest.CopyConfig]: a new config object with the fields of the old. *)
Definition rest_CopyConfig (src : ConfigRef) : M ConfigRef :=
  c <- deref src ;;
  dst <- new_Config c ;;
  emit (ECopyConfig src dst) ;;;
  ret dst.

(** [cfg.Host = host] *)
Definition assign_Host (cfg : ConfigRef) (host : string) : M unit :=
  c <- deref cfg ;;
  assign cfg (set_Host c host) ;;;
  emit (ESetHost cfg host).

(** [len(s) > 0] and [s != ""] *)
Definition nonempty (s : string) : bool := Nat.ltb 0 (String.length s).

(** ** The reconcile function registered with the controller *)

Definition reconcileFunc (env : Env) (mgr : Manager)
    (providerClusterDynamicClient : client_Client) : ReconcileFunc :=
  fun ctx req =>
    (* the logger carried by [ctx], with the cluster name added *)
    let log := {| logger := "";
                  level := Info;
                  cause := None;
                  msg := "Reconciling Application";
                  keysAndValues := [("cluster", ClusterName req)] |} in
    match GetCluster env mgr ctx (ClusterName req) with
    | inr err =>
        ([ALog log; AGetCluster ctx (ClusterName req)],
         (empty_Result, Some (fmt_Errorf "failed to get cluster: " err)))
    | inl cl =>
        let client := GetClient cl in
        let reconciler := {| Client := client;
                             Scheme := GetScheme cl;
                             ProviderClient := providerClusterDynamicClient |} in
        let r := {| req_NamespacedName := req_NamespacedName (Request req) |} in
        ([ALog log; AGetCluster ctx (ClusterName req); AReconcile reconciler ctx r],
         Reconcile env reconciler ctx r)
    end.

(** ** [main], up to and including the [go] statement *)

(** The discovery connection config:
    [cfg := ctrl.GetConfigOrDie(); cfg = rest.CopyConfig(cfg);
     if server != "" { cfg.Host = server }].
    [ctrl.GetConfigOrDie] is controller-runtime's
    [config, err := GetConfig(); if err != nil { log.Error(err, msg);
     os.Exit(1) }; return config]
    with the message "unable to get kubeconfig", [log] being the library's
    logger named "controller-runtime.client.config". *)
Definition discovery_config (f : Flags) (env : Env) : M ConfigRef :=
  emit EGetConfigOrDie ;;;
  cfg <- match GetConfigOrDie env with
         | Some c => new_Config c
         | None =>
             emit (ELog {| logger := "controller-runtime.client.config";
                           level := Err;
                           cause := Some (GetConfig_error env);
                           msg := "unable to get kubeconfig";
                           keysAndValues := [] |}) ;;;
             os_Exit 1
         end ;;
  cfg <- rest_CopyConfig cfg ;;
  (if nonempty (server f) then assign_Host cfg (server f) else ret tt) ;;;
  ret cfg.

(** What is live once the sequential part is through. *)
Record Running := {
  run_ctx : Context;
  run_provider : option Provider;
  run_mgr : Manager
}.

(** Lines 117-204: the TLS options, the webhook server and the options
    of the metrics server.  [tlsOpts] is nil or holds one element in an
    array of capacity one, so each [append] below allocates: the slices
    do not share storage and are modelled as values. *)
Definition tls_options (f : Flags) (env : Env) : M (webhook_Server * metricsserver_Options) :=
  let tlsOpts := if negb (enableHTTP2 f) then [] ++ [disableHTTP2] else [] in
  (* Initial webhook TLS options *)
  let webhookTLSOpts := tlsOpts in
  webhookTLSOpts <-
    (if nonempty (webhookCertPath f) then
       Info_ "Initializing webhook certificate watcher using provided certificates"
         [("webhook-cert-path", webhookCertPath f);
          ("webhook-cert-name", webhookCertName f);
          ("webhook-cert-key", webhookCertKey f)] ;;;
       let certFile := filepath_Join env (webhookCertPath f) (webhookCertName f) in
       let keyFile := filepath_Join env (webhookCertPath f) (webhookCertKey f) in
       emit (ECertwatcherNew certFile keyFile) ;;;
       match certwatcher_New env certFile keyFile with
       | Some err =>
           Error_ err "Failed to initialize webhook certificate watcher" [] ;;;
           os_Exit 1
       | None =>
           ret (webhookTLSOpts ++ [useCertWatcher {| certPath := certFile; keyPath := keyFile |}])
       end
     else ret webhookTLSOpts) ;;
  let webhookOptions := {| webhook_TLSOpts := webhookTLSOpts |} in
  emit (EWebhookNewServer webhookOptions) ;;;
  let webhookServer := webhook_NewServer webhookOptions in
  let FilterProvider := if secureMetrics f then Some WithAuthenticationAndAuthorization else None in
  metricsTLSOpts <-
    (if nonempty (metricsCertPath f) then
       Info_ "Initializing metrics certificate watcher using provided certificates"
         [("metrics-cert-path", metricsCertPath f);
          ("metrics-cert-name", metricsCertName f);
          ("metrics-cert-key", metricsCertKey f)] ;;;
       let certFile := filepath_Join env (metricsCertPath f) (metricsCertName f) in
       let keyFile := filepath_Join env (metricsCertPath f) (metricsCertKey f) in
       emit (ECertwatcherNew certFile keyFile) ;;;
       match certwatcher_New env certFile keyFile with
       | Some err =>
           Error_ err "to initialize metrics certificate watcher" [("error", Error err)] ;;;
           os_Exit 1
       | None =>
           ret (tlsOpts ++ [useCertWatcher {| certPath := certFile; keyPath := keyFile |}])
       end
     else ret tlsOpts) ;;
  ret (webhookServer,
       {| BindAddress := metricsAddr f;
          SecureServing := secureMetrics f;
          metrics_TLSOpts := metricsTLSOpts;
          FilterProvider_ := FilterProvider |}).

(** Lines 215-328: the provider, the client of the provider cluster, the
    manager, the controller, the health checks and the [go] statement. *)
Definition components (f : Flags) (env : Env) (webhookServer : webhook_Server)
    (metricsServerOptions : metricsserver_Options) (ctx : Context) (cfg : ConfigRef)
    : M Running :=
  emit (EVirtualworkspaceNew cfg APIBinding clientgoscheme_Scheme) ;;;
  c <- deref cfg ;;
  provider <- match virtualworkspace_New env c APIBinding clientgoscheme_Scheme with
              | inr err => Error_ err "unable to construct cluster provider" [] ;;; os_Exit 1
              | inl p => ret p
              end ;;
  let providerKubeConfig := filepath_Clean env (providerKubeConfig f) in
  emit (EStat providerKubeConfig) ;;;
  match os_Stat env providerKubeConfig with
  | Some err => Error_ err "unable to find provider kubeconfig" [] ;;; os_Exit 1
  | None => ret tt
  end ;;;
  emit (EBuildConfigFromFlags "" providerKubeConfig) ;;;
  config <- match BuildConfigFromFlags env "" providerKubeConfig with
            | inr err => Error_ err "unable to build provider kubeconfig" [] ;;; os_Exit 1
            | inl c => new_Config c
            end ;;
  emit (EClientNew config clientgoscheme_Scheme) ;;;
  c' <- deref config ;;
  providerClusterDynamicClient <-
    match client_New env c' clientgoscheme_Scheme with
    | inr err => Error_ err "unable to create dynamic client" [] ;;; os_Exit 1
    | inl cl => ret cl
    end ;;
  let options := {| opt_Scheme := clientgoscheme_Scheme;
                    Metrics := metricsServerOptions;
                    WebhookServer := webhookServer;
                    HealthProbeBindAddress := probeAddr f;
                    LeaderElection := enableLeaderElection f;
                    LeaderElectionID := "e3eac106.contrib.kcp.io" |} in
  emit (EManagerNew cfg provider options) ;;;
  c <- deref cfg ;;
  mgr <- match mcmanager_New env c provider options with
         | inr err => Error_ err "unable to set up overall controller manager" [] ;;; os_Exit 1
         | inl m => ret m
         end ;;
  emit (EControllerComplete mgr "kcp-applications-controller" Application
          (reconcileFunc env mgr providerClusterDynamicClient)) ;;;
  match Complete env mgr "kcp-applications-controller" Application with
  | Some err =>
      Error_ err "unable to create controller" [("controller", "Application")] ;;;
      os_Exit 1
  | None => ret tt
  end ;;;
  emit (EAddHealthzCheck mgr "healthz" healthz_Ping) ;;;
  match AddHealthzCheck env mgr "healthz" with
  | Some err => Error_ err "unable to set up health check" [] ;;; os_Exit 1
  | None => ret tt
  end ;;;
  emit (EAddReadyzCheck mgr "readyz" healthz_Ping) ;;;
  match AddReadyzCheck env mgr "readyz" with
  | Some err => Error_ err "unable to set up ready check" [] ;;; os_Exit 1
  | None => ret tt
  end ;;;
  match provider with
  | Some _ => Info_ "Starting provider" [] ;;; emit EGo
  | None => ret tt
  end ;;;
  ret {| run_ctx := ctx; run_provider := provider; run_mgr := mgr |}.

(** [main] from after [flag.Parse] to the [go] statement. *)
Definition main_setup (f : Flags) (env : Env) : M Running :=
  serving <- tls_options f env ;;
  (* MULTICLUSTER: This is where it differ from the default scaffold. *)
  emit ESetupSignalHandler ;;;
  let ctx := SetupSignalHandler env in
  cfg <- discovery_config f env ;;
  components f env (fst serving) (snd serving) ctx cfg.

(** The process starts with no config allocated. *)
Definition run_setup (f : Flags) (env : Env) : list Event * Heap * Res Running :=
  main_setup f env [].

(** ** [main] after the [go] statement: two threads *)

(** From here on the main goroutine and the provider goroutine run
    interleaved.  The process ends at the first [os.Exit], or when [main]
    returns: a Go program does not wait for its other goroutines. *)
Inductive Tid := MainT | ProviderT.

Definition Tid_eqb (a b : Tid) : bool :=
  match a, b with
  | MainT, MainT | ProviderT, ProviderT => true
  | _, _ => false
  end.

(** Where the main goroutine stands. *)
Inductive MainPC :=
| MLogStarting             (* before [setupLog.Info("starting manager", ...)] *)
| MCallStart               (* before [mgr.Start(ctx)] *)
| MInStart                 (* blocked in [mgr.Start] *)
| MStartFailed (e : error) (* [mgr.Start] returned [e], before the error log *)
| MBeforeExit              (* before [os.Exit(1)] *)
| MBeforeReturn            (* [mgr.Start] returned nil, before [main] returns *)
| MStopped.                (* the sequential part did not get here *)

(** Where the provider goroutine stands. *)
Inductive GoPC :=
| GAbsent                  (* never spawned *)
| GCallRun                 (* before [provider.Run(ctx, mgr)] *)
| GInRun                   (* blocked in [provider.Run] *)
| GRunFailed (e : error)   (* [provider.Run] returned [e], before the error log *)
| GBeforeExit              (* before [os.Exit(1)] *)
| GDone.                   (* [provider.Run] returned nil, the goroutine is over *)

(** [Ended MainT (Exit 0)] is [main] returning: the process ends with
    exit code 0 whatever the provider goroutine is doing. *)
Inductive Status := Alive | Ended (who : Tid) (s : Stop).

Record Proc := {
  main_pc : MainPC;
  go_pc : GoPC;
  trace : list (Tid * Event);
  status : Status
}.

Definition advance (p : Proc) (t : Tid) (evs : list Event) (m : MainPC) (g : GoPC)
    (st : Status) : Proc :=
  {| main_pc := m;
     go_pc := g;
     trace := trace p ++ map (pair t) evs;
     status := st |}.

Section RunPhase.
Variable f : Flags.
Variable env : Env.
Variable r : Running.

(** The next step of the main goroutine, [None] when it has none. *)
Definition main_step (p : Proc) : option Proc :=
  match main_pc p with
  | MLogStarting =>
      Some (advance p MainT [ELog (setupLog_Info "starting manager" [("server", server f)])]
              MCallStart (go_pc p) Alive)
  | MCallStart =>
      Some (advance p MainT [EManagerStart (run_mgr r) (run_ctx r)] MInStart (go_pc p) Alive)
  | MInStart =>
      match mgr_Start env with
      | Some err => Some (advance p MainT [] (MStartFailed err) (go_pc p) Alive)
      | None => Some (advance p MainT [] MBeforeReturn (go_pc p) Alive)
      end
  | MStartFailed err =>
      Some (advance p MainT [ELog (setupLog_Error err "problem running manager" [])]
              MBeforeExit (go_pc p) Alive)
  | MBeforeExit =>
      Some (advance p MainT [] MBeforeExit (go_pc p) (Ended MainT (Exit 1)))
  | MBeforeReturn =>
      Some (advance p MainT [] MBeforeReturn (go_pc p) (Ended MainT (Exit 0)))
  | MStopped => None
  end.

(** The next step of the provider goroutine. *)
Definition provider_step (p : Proc) : option Proc :=
  match go_pc p with
  | GCallRun =>
      Some (advance p ProviderT [EProviderRun (run_ctx r) (run_mgr r)] (main_pc p) GInRun Alive)
  | GInRun =>
      match provider_Run env with
      | Some err => Some (advance p ProviderT [] (main_pc p) (GRunFailed err) Alive)
      | None => Some (advance p ProviderT [] (main_pc p) GDone Alive)
      end
  | GRunFailed err =>
      Some (advance p ProviderT [ELog (setupLog_Error err "unable to run provider" [])]
              (main_pc p) GBeforeExit Alive)
  | GBeforeExit =>
      Some (advance p ProviderT [] (main_pc p) GBeforeExit (Ended ProviderT (Exit 1)))
  | GAbsent | GDone => None
  end.

(** One scheduling decision: thread [t] runs its next step, if the
    process is alive and the thread has one. *)
Definition step (t : Tid) (p : Proc) : Proc :=
  match status p with
  | Ended _ _ => p
  | Alive =>
      match (match t with MainT => main_step p | ProviderT => provider_step p end) with
      | Some p' => p'
      | None => p
      end
  end.

Definition run (sched : list Tid) (p : Proc) : Proc := fold_left (fun p t => step t p) sched p.
End RunPhase.

(** The state right after the [go] statement. *)
Definition spawned (r : Running) (t0 : list Event) : Proc :=
  {| main_pc := MLogStarting;
     go_pc := match run_provider r with Some _ => GCallRun | None => GAbsent end;
     trace := map (pair MainT) t0;
     status := Alive |}.

(** The process under a schedule of the two threads, the sequential part
    taken as done: the runs of [program] in which the command line parses,
    [main] gets through its sequential part undisturbed and no second
    shutdown signal arrives. *)
Definition process (f : Flags) (env : Env) (sched : list Tid) : Proc :=
  match run_setup f env with
  | (t, _, Halt s) =>
      {| main_pc := MStopped; go_pc := GAbsent; trace := map (pair MainT) t;
         status := Ended MainT s |}
  | (t, _, Ok r) => run f env r sched (spawned r t)
  end.

(** The events of one thread, in its program order. *)
Definition thread_events (t : Tid) (tr : list (Tid * Event)) : list Event :=
  map snd (filter (fun x => Tid_eqb (fst x) t) tr).

(** The last two elements of a list. *)
Fixpoint last2 {A} (l : list A) : option (A * A) :=
  match l with
  | [] | [_] => None
  | [a; b] => Some (a, b)
  | _ :: t => last2 t
  end.

(** ** [main] as a whole: command line and shutdown signals *)

(** [flag.Parse()] works on [flag.CommandLine], a flag set that exits on
    error: for an undefined flag or a value that does not parse it prints
    the error and the usage text to standard error and calls [os.Exit(2)];
    for [-h] or [-help] it prints the usage text and calls [os.Exit(0)].
    Nothing is logged before it. *)
Inductive CommandLine :=
| Parsed (f : Flags)
| BadFlag
| HelpRequested.

(** What happens next: a goroutine of [main.go] takes a step, or a
    shutdown signal (SIGINT, SIGTERM) arrives. *)
Inductive Tick := Step (t : Tid) | Signal.

(** Where [main] stands: in its sequential part, with the events it has
    still to make and the way that part ends, or past the [go] statement. *)
Inductive Phase :=
| Sequential (todo : list Event) (res : Res Running)
| Threads (r : Running).

(** [signals.SetupSignalHandler()] of controller-runtime registers for the
    shutdown signals and starts a goroutine,
    [go func() { <-c; cancel(); <-c; os.Exit(1) }()]:
    the first signal cancels the context the call returned, the second
    ends the process with exit code 1; nothing is logged.  [handler] is
    [None] until the call is made, then the number of signals received;
    [signalled] says that this goroutine has called [os.Exit(1)]. *)
Record World := {
  phase : Phase;
  proc : Proc;
  handler : option nat;
  signalled : bool
}.

Definition installs_handler (e : Event) : bool :=
  match e with
  | ESetupSignalHandler => true
  | _ => false
  end.

(** The two threads as the [go] statement leaves them. *)
Definition enter_threads (r : Running) (p : Proc) : Proc :=
  {| main_pc := MLogStarting;
     go_pc := match run_provider r with Some _ => GCallRun | None => GAbsent end;
     trace := trace p;
     status := Alive |}.

(** [main] is past its sequential part once the last event of that part
    is made and the part has not stopped. *)
Definition settle (todo : list Event) (res : Res Running) (p : Proc) : Phase * Proc :=
  match todo, res with
  | [], Ok r => (Threads r, enter_threads r p)
  | _, _ => (Sequential todo res, p)
  end.

(** One step of [main] in its sequential part: the next event, or, when
    none is left, the [os.Exit] the part stops with. *)
Definition sequential_step (todo : list Event) (res : Res Running) (w : World) : World :=
  match todo with
  | e :: rest =>
      let '(ph, p) := settle rest res (advance (proc w) MainT [e] MStopped GAbsent Alive) in
      {| phase := ph;
         proc := p;
         handler := if installs_handler e then Some 0%nat else handler w;
         signalled := signalled w |}
  | [] =>
      match res with
      | Halt s =>
          {| phase := phase w;
             proc := advance (proc w) MainT [] MStopped GAbsent (Ended MainT s);
             handler := handler w;
             signalled := signalled w |}
      | Ok r =>
          {| phase := Threads r;
             proc := enter_threads r (proc w);
             handler := handler w;
             signalled := signalled w |}
      end
  end.

(** One tick of a process that has not ended.  A signal that arrives
    before the handler is installed is not modelled (it ends the process
    by the signal's default action, outside the program). *)
Definition tick (f : Flags) (env : Env) (k : Tick) (w : World) : World :=
  match signalled w, status (proc w) with
  | false, Alive =>
      match k with
      | Signal =>
          match handler w with
          | None => w
          | Some O =>
              {| phase := phase w; proc := proc w; handler := Some 1%nat; signalled := false |}
          | Some (S _) =>
              {| phase := phase w; proc := proc w; handler := handler w; signalled := true |}
          end
      | Step t =>
          match phase w with
          | Sequential todo res =>
              match t with
              | MainT => sequential_step todo res w
              | ProviderT => w
              end
          | Threads r =>
              {| phase := phase w;
                 proc := step f env r t (proc w);
                 handler := handler w;
                 signalled := signalled w |}
          end
      end
  | _, _ => w
  end.

(** The process when [flag.Parse] has returned. *)
Definition boot (f : Flags) (env : Env) : World :=
  let '(tr, _, res) := run_setup f env in
  let '(ph, p) :=
    settle tr res {| main_pc := MStopped; go_pc := GAbsent; trace := []; status := Alive |} in
  {| phase := ph; proc := p; handler := None; signalled := false |}.

Definition run_world (f : Flags) (env : Env) (ticks : list Tick) : World :=
  fold_left (fun w k => tick f env k w) ticks (boot f env).

(** How the process has ended, if it has. *)
Inductive Ending :=
| NotEnded
| ByFlagParse (code : Z)            (* [os.Exit] inside [flag.Parse] *)
| BySignalHandler (code : Z)        (* [os.Exit(1)] in the signal handler's goroutine *)
| ByGoroutine (who : Tid) (s : Stop). (* by a goroutine of [main.go] *)

Definition ending (w : World) : Ending :=
  if signalled w then BySignalHandler 1
  else match status (proc w) with
       | Alive => NotEnded
       | Ended who s => ByGoroutine who s
       end.

(** The exit code of the process; a Go panic exits with code 2. *)
Definition exit_code (e : Ending) : option Z :=
  match e with
  | NotEnded => None
  | ByFlagParse c | BySignalHandler c => Some c
  | ByGoroutine _ (Exit c) => Some c
  | ByGoroutine _ NilDeref => Some 2%Z
  end.

(** [main] on a command line, under a sequence of ticks: how the process
    has ended and what the goroutines of [main.go] have done. *)
Definition program (cl : CommandLine) (env : Env) (ticks : list Tick)
    : Ending * list (Tid * Event) :=
  match cl with
  | BadFlag => (ByFlagParse 2, [])
  | HelpRequested => (ByFlagParse 0, [])
  | Parsed f => (ending (run_world f env ticks), trace (proc (run_world f env ticks)))
  end.

(** ** The dispatcher that runs the registered reconcile function *)

(** The work queue and the workers are not part of [main.go]: the
    controller built by [mcbuilder.ControllerManagedBy(mgr)...Complete]
    owns them.  This module follows the design document. *)
Module Dispatcher.

(** Modelled from the spec: a work item is keyed by cluster id, namespace
    and name (section 3, WorkItem; the queue's item type is library code,
    absent from the sources): the request the reconcile function receives. *)
Definition Key := mcreconcile_Request.

Definition Key_eq_dec (a b : Key) : {a = b} + {a <> b}.
Proof. repeat decide equality. Defined.

Definition mem (k : Key) (l : list Key) : bool :=
  if in_dec Key_eq_dec k l then true else false.

(** Remove the first occurrence. *)
Fixpoint remove1 (k : Key) (l : list Key) : list Key :=
  match l with
  | [] => []
  | x :: t => if Key_eq_dec k x then t else x :: remove1 k t
  end.

(** Modelled from the spec: why a key waits on a timer (the backoff and
    requeue-after scheduling of section 4.3, library code absent from the
    sources). *)
Inductive Delay :=
| Backoff (attempt : nat)    (* exponential backoff after the [attempt]-th failure in a row *)
| After (d : Z).             (* the [requeueAfter] the reconciler asked for *)

Definition Delay_eq_dec (a b : Delay) : {a = b} + {a <> b}.
Proof. decide equality; [apply Nat.eq_dec | apply Z.eq_dec]. Defined.

Fixpoint remove1_timer (x : Key * Delay) (l : list (Key * Delay)) : list (Key * Delay) :=
  match l with
  | [] => []
  | y :: t =>
      if Key_eq_dec (fst x) (fst y) then
        if Delay_eq_dec (snd x) (snd y) then t else y :: remove1_timer x t
      else y :: remove1_timer x t
  end.

(** Modelled from the spec: the dispatcher's state, "a work queue keyed
    by (clusterID, objectKey)" with the reconciles in flight (the queue
    is library code, absent from the sources). *)
Record State := {
  queue : list Key;              (* keys waiting for a worker *)
  inflight : list Key;           (* one entry per reconcile invocation now running *)
  rerun : list Key;              (* keys triggered while their reconcile was in flight *)
  timers : list (Key * Delay);   (* re-enqueues scheduled for later *)
  failures : Key -> nat          (* failures in a row, per key *)
}.

(** Modelled from the spec: the dispatcher before any notification (its
    constructor is library code, absent from the sources). *)
Definition empty : State :=
  {| queue := []; inflight := []; rerun := []; timers := []; failures := fun _ => 0%nat |}.

(** Modelled from the spec: the coalescing work queue of section 4.3
    (the controller's queue is library code, absent from the sources).
    "Enqueuing the same key while a reconcile for that key is already in
    flight coalesces into a single pending re-run scheduled after the
    in-flight one completes." *)
Definition enqueue (k : Key) (s : State) : State :=
  if mem k (inflight s) then
    if mem k (rerun s) then s
    else {| queue := queue s; inflight := inflight s; rerun := rerun s ++ [k];
            timers := timers s; failures := failures s |}
  else if mem k (queue s) then s
  else {| queue := queue s ++ [k]; inflight := inflight s; rerun := rerun s;
          timers := timers s; failures := failures s |}.

(** Modelled from the spec: "A worker pool of bounded size pulls items":
    a worker is free when fewer than [workers] reconciles are running;
    no order between distinct keys is promised, so any waiting key may
    be taken. *)
Definition pull (workers : nat) (k : Key) (s : State) : option State :=
  if mem k (queue s) && Nat.ltb (length (inflight s)) workers then
    Some {| queue := remove1 k (queue s); inflight := k :: inflight s; rerun := rerun s;
            timers := timers s; failures := failures s |}
  else None.

(** Modelled from the spec: what the dispatcher does when the
    reconcile of [k] returns [(res, err)].  "On ReconcileResult.error
    not nil: re-enqueue with exponential backoff"; "On
    ReconcileResult.requeueAfter set: schedule exactly one future
    re-enqueue at that delay, independent of error state"; a pending
    re-run goes back to the queue "after the in-flight one completes". *)
Definition finish (k : Key) (res : Result) (err : option error) (s : State) : option State :=
  if mem k (inflight s) then
    let back := match err with
                | Some _ => [(k, Backoff (failures s k))]
                | None => []
                end in
    let after := if Z.ltb 0 (RequeueAfter res) then [(k, After (RequeueAfter res))] else [] in
    let fails := fun k' =>
      if Key_eq_dec k' k then
        match err with Some _ => S (failures s k) | None => 0%nat end
      else failures s k' in
    Some {| queue := if mem k (rerun s) then queue s ++ [k] else queue s;
            inflight := remove1 k (inflight s);
            rerun := remove1 k (rerun s);
            timers := timers s ++ back ++ after;
            failures := fails |}
  else None.

(** Modelled from the spec: a scheduled re-enqueue comes due. *)
Definition fire (k : Key) (d : Delay) (s : State) : option State :=
  if existsb (fun x => if Key_eq_dec k (fst x) then
                         if Delay_eq_dec d (snd x) then true else false
                       else false) (timers s)
  then Some (enqueue k {| queue := queue s; inflight := inflight s; rerun := rerun s;
                          timers := remove1_timer (k, d) (timers s);
                          failures := failures s |})
  else None.

(** Modelled from the spec: the events the dispatcher reacts to (the
    controller's event loop is library code, absent from the sources). *)
Inductive Op :=
| Notify (k : Key)                                      (* a change notification *)
| Pull (k : Key)                                        (* a worker starts the reconcile of [k] *)
| Finish (k : Key) (res : Result) (err : option error)  (* that reconcile returns *)
| Fire (k : Key) (d : Delay).                           (* a timer comes due *)

(** Modelled from the spec: the reaction to one event, [None] when the
    event cannot happen in [s] (the controller's event loop is library code,
    absent from the sources). *)
Definition apply (workers : nat) (o : Op) (s : State) : option State :=
  match o with
  | Notify k => Some (enqueue k s)
  | Pull k => pull workers k s
  | Finish k res err => finish k res err s
  | Fire k d => fire k d s
  end.

(** Modelled from the spec: a history of events, from [s] (the
    controller's event loop is library code, absent from the sources). *)
Fixpoint exec (workers : nat) (ops : list Op) (s : State) : option State :=
  match ops with
  | [] => Some s
  | o :: rest =>
      match apply workers o s with
      | Some s' => exec workers rest s'
      | None => None
      end
  end.

(** [n] notifications for [k] in a row. *)
Definition notifications (n : nat) (k : Key) : list Op := repeat (Notify k) n.

End Dispatcher.

(** ** The provider's [Run] *)

(** [provider.Run] is code of the kcp provider library, not of [main.go];
    [main] only sees the value it returns.  This module follows the design
    document. *)
Module DiscoveryProvider.

(** Modelled from the spec: what can happen to a provider that is
    running (section 4.1, Provider; the provider is library code, absent
    from the sources). *)
Inductive Happening :=
| ConnectFails (e : error)  (* the discovery watch cannot be established *)
| Connected                 (* the discovery watch is established *)
| WatchFails (e : error)    (* a transient failure of the watch *)
| CtxCancelled.             (* the root context is cancelled *)

(** Modelled from the spec: where a call of [Run] stands (section 4.1;
    library code, absent from the sources). *)
Inductive RunState :=
| Connecting                       (* setting up, nothing established yet *)
| Watching
| BackingOff (attempt : nat)       (* reconnecting after a transient failure *)
| Returned (result : option error).

(** Modelled from the spec: "blocking call; runs until ctx is cancelled;
    returns an error only on unrecoverable setup failure (e.g., cannot
    establish the discovery watch at all)"; "on a transient watch failure
    it must reconnect with backoff rather than terminating; only a failure
    to even authenticate/connect at startup propagates upward as fatal"
    (section 4.1; library code, absent from the sources). *)
Definition react (h : Happening) (s : RunState) : RunState :=
  match s with
  | Returned r => Returned r
  | Connecting =>
      match h with
      | CtxCancelled => Returned None
      | ConnectFails e => Returned (Some e)
      | Connected => Watching
      | WatchFails _ => Connecting
      end
  | Watching =>
      match h with
      | CtxCancelled => Returned None
      | WatchFails _ => BackingOff 0
      | ConnectFails _ | Connected => Watching
      end
  | BackingOff n =>
      match h with
      | CtxCancelled => Returned None
      | Connected => Watching
      | ConnectFails _ | WatchFails _ => BackingOff (S n)
      end
  end.

(** Modelled from the spec: a call of [Run] under a history of
    happenings (section 4.1; library code, absent from the sources). *)
Definition Run (hs : list Happening) : RunState :=
  fold_left (fun s h => react h s) hs Connecting.

End DiscoveryProvider.

(** ** Fatal paths and the subsystems they name *)

Inductive Subsystem :=
| WebhookCertWatcher
| MetricsCertWatcher
| ClusterProvider
| ProviderKubeconfigFile
| ProviderKubeconfig
| DynamicClient
| ControllerManager
| ApplicationController
| HealthCheck
| ReadyCheck
| ProviderRun
| ManagerRun.

(** The message of the [setupLog.Error] call in front of each
    [os.Exit(1)] of [main]. *)
Definition fatal_message (s : Subsystem) : string :=
  match s with
  | WebhookCertWatcher => "Failed to initialize webhook certificate watcher"
  | MetricsCertWatcher => "to initialize metrics certificate watcher"
  | ClusterProvider => "unable to construct cluster provider"
  | ProviderKubeconfigFile => "unable to find provider kubeconfig"
  | ProviderKubeconfig => "unable to build provider kubeconfig"
  | DynamicClient => "unable to create dynamic client"
  | ControllerManager => "unable to set up overall controller manager"
  | ApplicationController => "unable to create controller"
  | HealthCheck => "unable to set up health check"
  | ReadyCheck => "unable to set up ready check"
  | ProviderRun => "unable to run provider"
  | ManagerRun => "problem running manager"
  end.

(** The library call each fatal path guards. *)
Definition attempts (e : Event) (s : Subsystem) : bool :=
  match e, s with
  | ECertwatcherNew _ _, (WebhookCertWatcher | MetricsCertWatcher)
  | EVirtualworkspaceNew _ _ _, ClusterProvider
  | EStat _, ProviderKubeconfigFile
  | EBuildConfigFromFlags _ _, ProviderKubeconfig
  | EClientNew _ _, DynamicClient
  | EManagerNew _ _ _, ControllerManager
  | EControllerComplete _ _ _ _, ApplicationController
  | EAddHealthzCheck _ _ _, HealthCheck
  | EAddReadyzCheck _ _ _, ReadyCheck
  | EProviderRun _ _, ProviderRun
  | EManagerStart _ _, ManagerRun => true
  | _, _ => false
  end.

(** ** Sample inputs *)

Definition sample_config : rest_Config :=
  {| Host := "https://kcp.example:6443";
     APIPath := "/clusters/root";
     Username := "admin";
     Password := "";
     BearerToken := "token";
     BearerTokenFile := "";
     UserAgent := "manager";
     Insecure := false;
     Burst := 10 |}.

Definition Subsystem_eqb (a b : Subsystem) : bool :=
  if String.eqb (fatal_message a) (fatal_message b) then true else false.

Definition fault_at (fault : option Subsystem) (s : Subsystem) : option error :=
  match fault with
  | Some s' => if Subsystem_eqb s s' then Some (errorString "boom") else None
  | None => None
  end.

Definition or_fault {A} (fault : option Subsystem) (s : Subsystem) (a : A) : A + error :=
  match fault_at fault s with
  | Some e => inr e
  | None => inl a
  end.

(** An environment in which every call succeeds, except the one of the
    subsystem [fault], if any; cluster [c1] is the only one known. *)
Definition sample_env (fault : option Subsystem) : Env :=
  {| AddToScheme := fun _ => None;
     filepath_Join := fun dir file => (dir ++ "/" ++ file)%string;
     filepath_Clean := fun path => if nonempty path then path else ".";
     certwatcher_New := fun cert _ =>
       if String.eqb cert "/webhook/tls.crt" then fault_at fault WebhookCertWatcher
       else fault_at fault MetricsCertWatcher;
     SetupSignalHandler := 1%nat;
     GetConfigOrDie := Some sample_config;
     GetConfig_error := errorString "invalid configuration: no configuration has been provided";
     virtualworkspace_New := fun _ _ _ => or_fault fault ClusterProvider (Some (provider 1));
     os_Stat := fun _ => fault_at fault ProviderKubeconfigFile;
     BuildConfigFromFlags := fun _ path =>
       or_fault fault ProviderKubeconfig (set_Host sample_config path);
     client_New := fun _ _ => or_fault fault DynamicClient (client 7);
     mcmanager_New := fun _ _ _ => or_fault fault ControllerManager (manager 1);
     Complete := fun _ _ _ => fault_at fault ApplicationController;
     AddHealthzCheck := fun _ _ => fault_at fault HealthCheck;
     AddReadyzCheck := fun _ _ => fault_at fault ReadyCheck;
     provider_Run := fault_at fault ProviderRun;
     mgr_Start := fault_at fault ManagerRun;
     GetCluster := fun _ _ name =>
       if String.eqb name "c1" then inl {| GetClient := client 3; GetScheme := clientgoscheme_Scheme |}
       else inr (errorString "cluster not found");
     Reconcile := fun _ _ _ => ({| Requeue := false; RequeueAfter := 30 |}, None) |}.

Definition sample_flags : Flags :=
  {| metricsAddr := ":8443";
     probeAddr := ":8081";
     enableLeaderElection := false;
     secureMetrics := true;
     webhookCertPath := "/webhook";
     webhookCertName := "tls.crt";
     webhookCertKey := "tls.key";
     metricsCertPath := "/metrics";
     metricsCertName := "tls.crt";
     metricsCertKey := "tls.key";
     enableHTTP2 := false;
     server := "https://override:443";
     providerKubeConfig := "/etc/provider.kubeconfig" |}.

Definition sample_request (cluster : string) : mcreconcile_Request :=
  {| ClusterName := cluster;
     Request := {| req_NamespacedName := {| Namespace := "ns"; Name := "obj" |} |} |}.

Definition is_reconcile_call (a : Action) : bool :=
  match a with
  | AReconcile _ _ _ => true
  | _ => false
  end.

(** The events of lines 117-204. *)
Definition is_tls_event (e : Event) : bool :=
  match e with
  | ELog _ | ECertwatcherNew _ _ | EWebhookNewServer _ => true
  | _ => false
  end.

(** The events of the discovery config, lines 207-213. *)
Definition is_discovery_event (e : Event) : bool :=
  match e with
  | ESetupSignalHandler | EGetConfigOrDie | ECopyConfig _ _ | ESetHost _ _ => true
  | _ => false
  end.

(** The discovery config as the provider and the manager get it. *)
Definition overridden (f : Flags) (c : rest_Config) : rest_Config :=
  if nonempty (server f) then set_Host c (server f) else c.

(** The line [ctrl.GetConfigOrDie] logs before it ends the process. *)
Definition kubeconfig_error_line (env : Env) : LogLine :=
  {| logger := "controller-runtime.client.config";
     level := Err;
     cause := Some (GetConfig_error env);
     msg := "unable to get kubeconfig";
     keysAndValues := [] |}.

(** How a run of the sequential part splits over the blocks. *)
Inductive SetupRun (f : Flags) (env : Env) (tr : list Event) (h : Heap) (res : Res Running)
  : Prop :=
| StoppedInTLS (s : Stop)
    (Htls : tls_options f env [] = (tr, [], Halt s))
    (Hheap : h = [])
    (Hres : res = Halt s)
| StoppedInGetConfig (t1 : list Event) (serving : webhook_Server * metricsserver_Options)
    (Htls : tls_options f env [] = (t1, [], Ok serving))
    (Hcfg : GetConfigOrDie env = None)
    (Htr : tr = t1 ++ [ESetupSignalHandler; EGetConfigOrDie; ELog (kubeconfig_error_line env)])
    (Hheap : h = [])
    (Hres : res = Halt (Exit 1))
| ReachedComponents (t1 t2 t3 : list Event) (serving : webhook_Server * metricsserver_Options)
    (c0 : rest_Config)
    (Htls : tls_options f env [] = (t1, [], Ok serving))
    (Hcfg : GetConfigOrDie env = Some c0)
    (Hdisc : discovery_config f env [] = (t2, [c0; overridden f c0], Ok 1%nat))
    (Hcomp : components f env (fst serving) (snd serving) (SetupSignalHandler env) 1%nat
               [c0; overridden f c0] = (t3, h, res))
    (Htr : tr = t1 ++ (ESetupSignalHandler :: t2) ++ t3).

(** The events before the provider is constructed. *)
Definition is_early_event (e : Event) : bool := is_tls_event e || is_discovery_event e.

(** ** What each thread has done, by where it stands *)

Definition starting_manager (f : Flags) : Event :=
  ELog (setupLog_Info "starting manager" [("server", server f)]).

(** The events of the main goroutine since the [go] statement. *)
Definition main_done (f : Flags) (env : Env) (r : Running) (pc : MainPC) : list Event :=
  match pc with
  | MLogStarting | MStopped => []
  | MCallStart => [starting_manager f]
  | MInStart | MStartFailed _ | MBeforeReturn =>
      [starting_manager f; EManagerStart (run_mgr r) (run_ctx r)]
  | MBeforeExit =>
      match mgr_Start env with
      | Some err =>
          [starting_manager f; EManagerStart (run_mgr r) (run_ctx r);
           ELog (setupLog_Error err "problem running manager" [])]
      | None => []
      end
  end.

Definition main_pc_ok (env : Env) (pc : MainPC) : Prop :=
  match pc with
  | MStartFailed e => mgr_Start env = Some e
  | MBeforeExit => mgr_Start env <> None
  | MBeforeReturn => mgr_Start env = None
  | MStopped => False
  | MLogStarting | MCallStart | MInStart => True
  end.

(** The events of the provider goroutine. *)
Definition go_done (env : Env) (r : Running) (pc : GoPC) : list Event :=
  match pc with
  | GAbsent | GCallRun => []
  | GInRun | GRunFailed _ | GDone => [EProviderRun (run_ctx r) (run_mgr r)]
  | GBeforeExit =>
      match provider_Run env with
      | Some err =>
          [EProviderRun (run_ctx r) (run_mgr r);
           ELog (setupLog_Error err "unable to run provider" [])]
      | None => []
      end
  end.

Definition go_pc_ok (env : Env) (pc : GoPC) : Prop :=
  match pc with
  | GRunFailed e => provider_Run env = Some e
  | GBeforeExit => provider_Run env <> None
  | GDone => provider_Run env = None
  | GAbsent | GCallRun | GInRun => True
  end.

Definition status_ok (p : Proc) : Prop :=
  match status p with
  | Alive => True
  | Ended MainT (Exit c) =>
      (c = 1%Z /\ main_pc p = MBeforeExit) \/ (c = 0%Z /\ main_pc p = MBeforeReturn)
  | Ended ProviderT (Exit c) => c = 1%Z /\ go_pc p = GBeforeExit
  | Ended _ _ => False
  end.

(** What holds of every state of the two threads, [t0] being the trace of
    the sequential part. *)
Record Inv (f : Flags) (env : Env) (r : Running) (t0 : list Event) (p : Proc) : Prop := {
  inv_main_pc : main_pc_ok env (main_pc p);
  inv_go_pc : go_pc_ok env (go_pc p);
  inv_main : thread_events MainT (trace p) = t0 ++ main_done f env r (main_pc p);
  inv_go : thread_events ProviderT (trace p) = go_done env r (go_pc p);
  inv_status : status_ok p
}.

(** [provider.Run] has returned a non-nil error. *)
Definition run_returned_error (p : Proc) : Prop :=
  match go_pc p with
  | GRunFailed _ | GBeforeExit => True
  | _ => False
  end.

(** ** Failing steps *)

(** A step of the construction of the client of the provider cluster was
    made in [tr] and failed with [err]; [h] is the heap the run ended on. *)
Inductive BridgeFailure (env : Env) (tr : list Event) (h : Heap) : Subsystem -> error -> Prop :=
| StatFails (path : string) (err : error) :
    In (EStat path) tr ->
    os_Stat env path = Some err ->
    BridgeFailure env tr h ProviderKubeconfigFile err
| BuildConfigFails (masterUrl path : string) (err : error) :
    In (EBuildConfigFromFlags masterUrl path) tr ->
    BuildConfigFromFlags env masterUrl path = inr err ->
    BridgeFailure env tr h ProviderKubeconfig err
| ClientNewFails (config : ConfigRef) (scheme : SchemeRef) (c : rest_Config) (err : error) :
    In (EClientNew config scheme) tr ->
    load h config = Some c ->
    client_New env c scheme = inr err ->
    BridgeFailure env tr h DynamicClient err.

(** The construction of the cluster provider was attempted in [tr] and
    failed with [err]. *)
Definition ProviderFailure (env : Env) (tr : list Event) (h : Heap) (err : error) : Prop :=
  exists cfg obj scheme c,
    In (EVirtualworkspaceNew cfg obj scheme) tr /\
    load h cfg = Some c /\
    virtualworkspace_New env c obj scheme = inr err.

(** A health check registration was attempted in [tr] and failed. *)
Inductive CheckFailure (env : Env) (tr : list Event) : Subsystem -> error -> Prop :=
| HealthzFails (m : Manager) (name : string) (check : Checker) (err : error) :
    In (EAddHealthzCheck m name check) tr ->
    AddHealthzCheck env m name = Some err ->
    CheckFailure env tr HealthCheck err
| ReadyzFails (m : Manager) (name : string) (check : Checker) (err : error) :
    In (EAddReadyzCheck m name check) tr ->
    AddReadyzCheck env m name = Some err ->
    CheckFailure env tr ReadyCheck err.

(** ** Well-formed dispatcher states *)

(** What the dispatcher keeps true of its state: no key runs twice, waits
    twice or is marked for a re-run twice; a waiting key is not running; a
    key marked for a re-run is running. *)
Record well_formed (workers : nat) (s : Dispatcher.State) : Prop := {
  wf_inflight : NoDup (Dispatcher.inflight s);
  wf_queue : NoDup (Dispatcher.queue s);
  wf_rerun : NoDup (Dispatcher.rerun s);
  wf_waiting : forall k, In k (Dispatcher.queue s) -> ~ In k (Dispatcher.inflight s);
  wf_marked : forall k, In k (Dispatcher.rerun s) -> In k (Dispatcher.inflight s);
  wf_bounded : length (Dispatcher.inflight s) <= workers
}.

(** A run that gets past the discovery config: the events of the TLS
    block, those of the discovery block, then those of the component
    block, run on the heap that holds the loaded config and its copy. *)
Definition reaches_components (f : Flags) (env : Env) (tr : list Event) (h : Heap)
    (res : Res Running) (t3 : list Event) : Prop :=
  exists t1 t2 serving c0,
    tls_options f env [] = (t1, [], Ok serving) /\
    GetConfigOrDie env = Some c0 /\
    components f env (fst serving) (snd serving) (SetupSignalHandler env) 1%nat
      [c0; overridden f c0] = (t3, h, res) /\
    tr = t1 ++ t2 ++ t3 /\
    forallb is_tls_event t1 = true /\
    forallb is_discovery_event t2 = true.


(** ** Further vocabulary for runs *)

(** A line logged at error level: through [setupLog.Error], or by the
    library inside [ctrl.GetConfigOrDie]. *)
Definition is_error_line (e : Event) : bool :=
  match e with
  | ELog l => match level l with Err => true | Info => false end
  | _ => false
  end.

Definition is_start_call (e : Event) : bool :=
  match e with
  | EManagerStart _ _ => true
  | _ => false
  end.

Definition is_run_call (e : Event) : bool :=
  match e with
  | EProviderRun _ _ => true
  | _ => false
  end.

(** The events that construct or register something. *)
Definition is_construction (e : Event) : bool :=
  match e with
  | ELog _ | EManagerStart _ _ | EProviderRun _ _ => false
  | _ => true
  end.

(** The order in which [init] registers the groups. *)
Definition init_order : list API :=
  [clientgo_core; application_v1alpha1; cnpg_v1; kcp_apis_v1alpha1].

(** The certificate watcher a server is told to use, by directory and
    file names: [certwatcher.New(filepath.Join(dir, cert),
    filepath.Join(dir, key))]. *)
Definition watcher_for (env : Env) (dir cert key : string) : CertWatcher :=
  {| certPath := filepath_Join env dir cert; keyPath := filepath_Join env dir key |}.

(** The construction of the manager or the registration of the
    controller was attempted in [tr] and failed with [err]. *)
Inductive ManagerFailure (env : Env) (tr : list Event) (h : Heap) : Subsystem -> error -> Prop :=
| ManagerNewFails (cfg : ConfigRef) (p : option Provider) (o : ctrl_Options)
    (c : rest_Config) (err : error) :
    In (EManagerNew cfg p o) tr ->
    load h cfg = Some c ->
    mcmanager_New env c p o = inr err ->
    ManagerFailure env tr h ControllerManager err
| CompleteFails (m : Manager) (name : string) (kind : Kind) (fn : ReconcileFunc) (err : error) :
    In (EControllerComplete m name kind fn) tr ->
    Complete env m name kind = Some err ->
    ManagerFailure env tr h ApplicationController err.

(** The manager an event is about, when it is about one: the receiver
    of the call, or the manager handed to [provider.Run]. *)
Definition manager_of (e : Event) : option Manager :=
  match e with
  | EControllerComplete m _ _ _ => Some m
  | EAddHealthzCheck m _ _ => Some m
  | EAddReadyzCheck m _ _ => Some m
  | EProviderRun _ m => Some m
  | EManagerStart m _ => Some m
  | _ => None
  end.

(** [m] is what the one [mcmanager.New] call of [tr] returned. *)
Definition created_by (env : Env) (tr : list Event) (h : Heap) (m : Manager) : Prop :=
  exists cfg p o c,
    In (EManagerNew cfg p o) tr /\
    load h cfg = Some c /\
    mcmanager_New env c p o = inl m /\
    length (filter (fun e => match e with EManagerNew _ _ _ => true | _ => false end) tr) = 1.

(** ** The error line in front of each fatal exit *)

(** [FatalLine f env call l]: the call [call], as [main] makes it with
    the flags [f], fails in [env], and [l] is the line logged for that
    failure: by [setupLog.Error] in [main.go], by controller-runtime's own
    logger inside [ctrl.GetConfigOrDie]. *)
Inductive FatalLine (f : Flags) (env : Env) : Event -> LogLine -> Prop :=
| WebhookWatcherLine (err : error) :
    certwatcher_New env (filepath_Join env (webhookCertPath f) (webhookCertName f))
      (filepath_Join env (webhookCertPath f) (webhookCertKey f)) = Some err ->
    FatalLine f env
      (ECertwatcherNew (filepath_Join env (webhookCertPath f) (webhookCertName f))
         (filepath_Join env (webhookCertPath f) (webhookCertKey f)))
      {| logger := "setup"; level := Err; cause := Some err;
         msg := "Failed to initialize webhook certificate watcher";
         keysAndValues := [] |}
| MetricsWatcherLine (err : error) :
    certwatcher_New env (filepath_Join env (metricsCertPath f) (metricsCertName f))
      (filepath_Join env (metricsCertPath f) (metricsCertKey f)) = Some err ->
    FatalLine f env
      (ECertwatcherNew (filepath_Join env (metricsCertPath f) (metricsCertName f))
         (filepath_Join env (metricsCertPath f) (metricsCertKey f)))
      {| logger := "setup"; level := Err; cause := Some err;
         msg := "to initialize metrics certificate watcher";
         keysAndValues := [("error", Error err)] |}
| KubeconfigLine :
    GetConfigOrDie env = None ->
    FatalLine f env EGetConfigOrDie
      {| logger := "controller-runtime.client.config"; level := Err;
         cause := Some (GetConfig_error env);
         msg := "unable to get kubeconfig";
         keysAndValues := [] |}
| ProviderLine (c0 : rest_Config) (err : error) :
    GetConfigOrDie env = Some c0 ->
    virtualworkspace_New env (overridden f c0) APIBinding clientgoscheme_Scheme = inr err ->
    FatalLine f env (EVirtualworkspaceNew 1%nat APIBinding clientgoscheme_Scheme)
      {| logger := "setup"; level := Err; cause := Some err;
         msg := "unable to construct cluster provider";
         keysAndValues := [] |}
| StatLine (err : error) :
    os_Stat env (filepath_Clean env (providerKubeConfig f)) = Some err ->
    FatalLine f env (EStat (filepath_Clean env (providerKubeConfig f)))
      {| logger := "setup"; level := Err; cause := Some err;
         msg := "unable to find provider kubeconfig";
         keysAndValues := [] |}
| BuildConfigLine (err : error) :
    BuildConfigFromFlags env "" (filepath_Clean env (providerKubeConfig f)) = inr err ->
    FatalLine f env (EBuildConfigFromFlags "" (filepath_Clean env (providerKubeConfig f)))
      {| logger := "setup"; level := Err; cause := Some err;
         msg := "unable to build provider kubeconfig";
         keysAndValues := [] |}
| ClientLine (c : rest_Config) (err : error) :
    BuildConfigFromFlags env "" (filepath_Clean env (providerKubeConfig f)) = inl c ->
    client_New env c clientgoscheme_Scheme = inr err ->
    FatalLine f env (EClientNew 2%nat clientgoscheme_Scheme)
      {| logger := "setup"; level := Err; cause := Some err;
         msg := "unable to create dynamic client";
         keysAndValues := [] |}
| ManagerLine (c0 : rest_Config) (p : option Provider) (o : ctrl_Options) (err : error) :
    GetConfigOrDie env = Some c0 ->
    mcmanager_New env (overridden f c0) p o = inr err ->
    FatalLine f env (EManagerNew 1%nat p o)
      {| logger := "setup"; level := Err; cause := Some err;
         msg := "unable to set up overall controller manager";
         keysAndValues := [] |}
| ControllerLine (m : Manager) (fn : ReconcileFunc) (err : error) :
    Complete env m "kcp-applications-controller" Application = Some err ->
    FatalLine f env (EControllerComplete m "kcp-applications-controller" Application fn)
      {| logger := "setup"; level := Err; cause := Some err;
         msg := "unable to create controller";
         keysAndValues := [("controller", "Application")] |}
| HealthzLine (m : Manager) (err : error) :
    AddHealthzCheck env m "healthz" = Some err ->
    FatalLine f env (EAddHealthzCheck m "healthz" healthz_Ping)
      {| logger := "setup"; level := Err; cause := Some err;
         msg := "unable to set up health check";
         keysAndValues := [] |}
| ReadyzLine (m : Manager) (err : error) :
    AddReadyzCheck env m "readyz" = Some err ->
    FatalLine f env (EAddReadyzCheck m "readyz" healthz_Ping)
      {| logger := "setup"; level := Err; cause := Some err;
         msg := "unable to set up ready check";
         keysAndValues := [] |}
| RunLine (ctx : Context) (m : Manager) (err : error) :
    provider_Run env = Some err ->
    FatalLine f env (EProviderRun ctx m)
      {| logger := "setup"; level := Err; cause := Some err;
         msg := "unable to run provider";
         keysAndValues := [] |}
| StartLine (m : Manager) (ctx : Context) (err : error) :
    mgr_Start env = Some err ->
    FatalLine f env (EManagerStart m ctx)
      {| logger := "setup"; level := Err; cause := Some err;
         msg := "problem running manager";
         keysAndValues := [] |}.

(** Two events are the same step of [main]: the same kind of call, and
    for certificate watchers the same files. *)
Definition same_step (a b : Event) : Prop :=
  match a, b with
  | ECertwatcherNew c k, ECertwatcherNew c' k' => c = c' /\ k = k'
  | EGetConfigOrDie, EGetConfigOrDie
  | EVirtualworkspaceNew _ _ _, EVirtualworkspaceNew _ _ _
  | EStat _, EStat _
  | EBuildConfigFromFlags _ _, EBuildConfigFromFlags _ _
  | EClientNew _ _, EClientNew _ _
  | EManagerNew _ _ _, EManagerNew _ _ _
  | EControllerComplete _ _ _ _, EControllerComplete _ _ _ _
  | EAddHealthzCheck _ _ _, EAddHealthzCheck _ _ _
  | EAddReadyzCheck _ _ _, EAddReadyzCheck _ _ _
  | EProviderRun _ _, EProviderRun _ _
  | EManagerStart _ _, EManagerStart _ _ => True
  | _, _ => False
  end.

(** ** What holds of every state of the program *)

(** The handler counts signals only once it is installed, and its
    goroutine exits only on a second signal. *)
Definition handler_ok (w : World) : Prop :=
  (handler w <> None -> In (MainT, ESetupSignalHandler) (trace (proc w))) /\
  (signalled w = true -> exists n, handler w = Some (S n)).

(** [tr] and [res] being the trace and the result of the sequential
    part: in that part [main] has made a prefix of [tr] and is alone; past
    it the two threads are as [Inv] says. *)
Definition phase_ok (f : Flags) (env : Env) (tr : list Event) (res : Res Running)
    (w : World) : Prop :=
  match phase w with
  | Sequential todo res' =>
      res' = res /\
      main_pc (proc w) = MStopped /\
      go_pc (proc w) = GAbsent /\
      (todo = [] -> exists s, res = Halt s) /\
      (exists done, tr = done ++ todo /\ trace (proc w) = map (pair MainT) done) /\
      (status (proc w) = Alive \/
       (todo = [] /\ exists s, res = Halt s /\ status (proc w) = Ended MainT s))
  | Threads r =>
      res = Ok r /\
      Inv f env r tr (proc w) /\
      (go_pc (proc w) = GAbsent <-> run_provider r = None)
  end.

Definition WInv (f : Flags) (env : Env) (tr : list Event) (res : Res Running)
    (w : World) : Prop :=
  handler_ok w /\ phase_ok f env tr res w.

(** ** More sample inputs *)



(** [env] without a kubeconfig to load. *)
Definition without_kubeconfig (env : Env) : Env :=
  {| AddToScheme := AddToScheme env;
     filepath_Join := filepath_Join env;
     filepath_Clean := filepath_Clean env;
     certwatcher_New := certwatcher_New env;
     SetupSignalHandler := SetupSignalHandler env;
     GetConfigOrDie := None;
     GetConfig_error := GetConfig_error env;
     virtualworkspace_New := virtualworkspace_New env;
     os_Stat := os_Stat env;
     BuildConfigFromFlags := BuildConfigFromFlags env;
     client_New := client_New env;
     mcmanager_New := mcmanager_New env;
     Complete := Complete env;
     AddHealthzCheck := AddHealthzCheck env;
     AddReadyzCheck := AddReadyzCheck env;
     provider_Run := provider_Run env;
     mgr_Start := mgr_Start env;
     GetCluster := GetCluster env;
     Reconcile := Reconcile env |}.

(* ================================================================== *)
(** * Properties *)

(** ** Proof support *)

(** Case analysis on the scrutinee of an innermost [match] of [H]. *)
Ltac break_in H :=
  match type of H with
  | context [match ?x with _ => _ end] =>
      lazymatch x with
      | context [match _ with _ => _ end] => fail
      | _ => destruct x eqn:?
      end
  end.

Ltac unfold_m H :=
  cbv [rest_CopyConfig assign_Host bind ret emit os_Exit
       Info_ Error_ new_Config deref assign alloc load] in H.

(** All the ways through a block of [main]: one goal per path, with the
    trace, heap and result of [H] made explicit. *)
Ltac paths H :=
  unfold_m H; simpl in H;
  repeat (break_in H; simpl in H);
  try discriminate H;
  inversion H; subst; clear H.

(** Membership in an explicit list, one goal per element that can match. *)
Ltac in_cases H :=
  simpl in H;
  repeat (destruct H as [H | H]; [try discriminate H |]);
  try contradiction.

Lemma last2_app {A} (pre : list A) (a b : A) : last2 (pre ++ [a; b]) = Some (a, b).
Proof.
  induction pre as [|x pre IH]; [reflexivity|].
  simpl. destruct (pre ++ [a; b]) as [|y [|z t]] eqn:E.
  - destruct pre; discriminate.
  - destruct pre as [|? [|? ?]]; discriminate.
  - exact IH.
Qed.

Lemma last2_inv {A} (l : list A) (a b : A) :
  last2 l = Some (a, b) -> exists pre, l = pre ++ [a; b].
Proof.
  induction l as [|x l IH]; [discriminate|].
  destruct l as [|y [|z t]].
  - discriminate.
  - simpl. intros H. inversion H; subst. exists []. reflexivity.
  - intros H. change (last2 (y :: z :: t) = Some (a, b)) in H.
    destruct (IH H) as [pre E]. exists (x :: pre). simpl. now rewrite E.
Qed.

(** ** The reconcile function *)

Lemma enqueue_pending (k : Dispatcher.Key) (s : Dispatcher.State) :
  In k (Dispatcher.queue (Dispatcher.enqueue k s)) \/
  In k (Dispatcher.rerun (Dispatcher.enqueue k s)).
Proof.
  unfold Dispatcher.enqueue, Dispatcher.mem.
  destruct (in_dec Dispatcher.Key_eq_dec k (Dispatcher.inflight s)).
  - destruct (in_dec Dispatcher.Key_eq_dec k (Dispatcher.rerun s)); simpl.
    + now right.
    + right. apply in_or_app. right. now left.
  - destruct (in_dec Dispatcher.Key_eq_dec k (Dispatcher.queue s)); simpl.
    + now left.
    + left. apply in_or_app. right. now left.
Qed.

Lemma fire_scheduled (k : Dispatcher.Key) (d : Dispatcher.Delay) (s : Dispatcher.State) :
  In (k, d) (Dispatcher.timers s) ->
  exists s', Dispatcher.fire k d s = Some s' /\
             (In k (Dispatcher.queue s') \/ In k (Dispatcher.rerun s')).
Proof.
  intros Hin. unfold Dispatcher.fire.
  match goal with |- context [existsb ?p ?l] => assert (E : existsb p l = true) end.
  { apply existsb_exists. exists (k, d). split; [exact Hin|]. simpl.
    destruct (Dispatcher.Key_eq_dec k k); [|congruence].
    destruct (Dispatcher.Delay_eq_dec d d); congruence. }
  rewrite E. eexists. split; [reflexivity|]. apply enqueue_pending.
Qed.

(** C1: when [GetCluster] fails for the request's cluster, the reconcile
    function returns the empty result with an error that wraps the
    [GetCluster] error, and never calls the [ApplicationReconciler]; given
    that result the dispatcher schedules a backoff retry for the key, and
    the key is pending again once that timer fires. *)
Theorem reconcile_unresolved_cluster_errors
    (env : Env) (mgr : Manager) (pc : client_Client) (ctx : Context)
    (req : mcreconcile_Request) (err : error) :
  GetCluster env mgr ctx (ClusterName req) = inr err ->
  exists e,
    snd (reconcileFunc env mgr pc ctx req) = (empty_Result, Some e) /\
    Unwrap e = Some err /\
    In err (chain e) /\
    Error e = ("failed to get cluster: " ++ Error err)%string /\
    (forall r c q, ~ In (AReconcile r c q) (fst (reconcileFunc env mgr pc ctx req))) /\
    forall workers s,
      In req (Dispatcher.inflight s) ->
      exists s1 s2,
        Dispatcher.apply workers (Dispatcher.Finish req empty_Result (Some e)) s = Some s1 /\
        In (req, Dispatcher.Backoff (Dispatcher.failures s req)) (Dispatcher.timers s1) /\
        Dispatcher.fire req (Dispatcher.Backoff (Dispatcher.failures s req)) s1 = Some s2 /\
        (In req (Dispatcher.queue s2) \/ In req (Dispatcher.rerun s2)).
Proof.
  intros Hget. exists (fmt_Errorf "failed to get cluster: " err).
  unfold reconcileFunc. rewrite Hget. simpl.
  repeat split.
  - right. destruct err; now left.
  - intros r c q [H | [H | []]]; discriminate H.
  - intros workers s Hin. unfold Dispatcher.finish, Dispatcher.mem.
    destruct (in_dec Dispatcher.Key_eq_dec req (Dispatcher.inflight s)); [|contradiction].
    eexists.
    match goal with
    | |- exists s2, Some ?s1 = Some _ /\ _ =>
        assert (Ht : In (req, Dispatcher.Backoff (Dispatcher.failures s req))
                        (Dispatcher.timers s1))
    end.
    { simpl. apply in_or_app. right. now left. }
    destruct (fire_scheduled _ _ _ Ht) as [s2 [Hf Hp]].
    exists s2. repeat split; assumption.
Qed.

Lemma reconcile_unresolved_cluster_errors_witness :
  exists e,
    snd (reconcileFunc (sample_env None) (manager 1) (client 7) 0%nat (sample_request "c2"))
      = (empty_Result, Some e) /\
    Unwrap e = Some (errorString "cluster not found").
Proof.
  destruct (@reconcile_unresolved_cluster_errors (sample_env None) (manager 1) (client 7) 0%nat
              (sample_request "c2") (errorString "cluster not found") eq_refl)
    as [e [H1 [H2 _]]].
  exists e. split; assumption.
Defined.


(** ** The blocks of [main] *)

Lemma bind_inv {A B} (m : M A) (k : A -> M B) (h : Heap) tr h' res :
  bind m k h = (tr, h', res) ->
  (exists s, m h = (tr, h', Halt s) /\ res = Halt s) \/
  (exists a t1 h1 t2, m h = (t1, h1, Ok a) /\ k a h1 = (t2, h', res) /\ tr = t1 ++ t2).
Proof.
  unfold bind. destruct (m h) as [[t1 h1] [a | s]].
  - destruct (k a h1) as [[t2 h2] r] eqn:Ek. intros H. inversion H; subst.
    right. exists a, t1, h1, t2. auto.
  - intros H. inversion H; subst. left. exists s. auto.
Qed.

Lemma load_alloc_old (h : Heap) (x : rest_Config) (r : ConfigRef) (c : rest_Config) :
  load h r = Some c -> load (h ++ [x]) r = Some c.
Proof.
  unfold load. intros H. rewrite nth_error_app1; [exact H|].
  apply nth_error_Some. congruence.
Qed.

Lemma load_alloc_new (h : Heap) (x : rest_Config) : load (h ++ [x]) (length h) = Some x.
Proof.
  unfold load. rewrite nth_error_app2, Nat.sub_diag by lia. reflexivity.
Qed.

Lemma store_new (h : Heap) (x y : rest_Config) : store (h ++ [x]) (length h) y = h ++ [y].
Proof. induction h as [|a h IH]; simpl; [reflexivity | now rewrite IH]. Qed.

(** The TLS block allocates no config and only logs, builds certificate
    watchers and the webhook server. *)
Lemma tls_options_frame (f : Flags) (env : Env) (h : Heap) tr h' res :
  tls_options f env h = (tr, h', res) ->
  h' = h /\ forallb is_tls_event tr = true.
Proof.
  intros H. unfold tls_options in H. paths H; split; reflexivity.
Qed.

(** The TLS block stops only through its two [os.Exit(1)], each right
    after the error line that follows the failed [certwatcher.New]. *)
Lemma tls_options_halts (f : Flags) (env : Env) (h : Heap) tr h' s :
  tls_options f env h = (tr, h', Halt s) ->
  s = Exit 1 /\
  exists call e sub kvs,
    last2 tr = Some (call, ELog (setupLog_Error e (fatal_message sub) kvs)) /\
    attempts call sub = true.
Proof.
  intros H. unfold tls_options in H. paths H.
  all: split; [reflexivity|].
  all: do 2 eexists.
  all: first [ exists WebhookCertWatcher; eexists; split; reflexivity
             | exists MetricsCertWatcher; eexists; split; reflexivity ].
Qed.

(** What the discovery block does on the empty heap. *)
Lemma discovery_config_fresh (f : Flags) (env : Env) :
  discovery_config f env [] =
  match GetConfigOrDie env with
  | None => ([EGetConfigOrDie; ELog (kubeconfig_error_line env)], [], Halt (Exit 1))
  | Some c0 =>
      ([EGetConfigOrDie; ECopyConfig 0 1]
         ++ (if nonempty (server f) then [ESetHost 1%nat (server f)] else []),
       [c0; overridden f c0], Ok 1%nat)
  end.
Proof.
  unfold discovery_config, overridden.
  destruct (GetConfigOrDie env); [|reflexivity].
  destruct (nonempty (server f)); reflexivity.
Qed.

Lemma setup_inv (f : Flags) (env : Env) tr h res :
  run_setup f env = (tr, h, res) -> SetupRun f env tr h res.
Proof.
  unfold run_setup, main_setup. intros H.
  apply bind_inv in H. destruct H as [[s [Htls Hres]] | [serving [t1 [h1 [t' [Htls [H Htr]]]]]]].
  - destruct (tls_options_frame _ _ _ Htls) as [Hh _]. subst h.
    eapply StoppedInTLS; eauto.
  - destruct (tls_options_frame _ _ _ Htls) as [Hh _]. subst h1.
    apply bind_inv in H. destruct H as [[s [He _]] | [u [te [he [t'' [He [H Ht']]]]]]].
    { discriminate He. }
    unfold emit in He. inversion He; subst te he u. clear He.
    apply bind_inv in H.
    pose proof (discovery_config_fresh f env) as Hd.
    destruct (GetConfigOrDie env) as [c0|] eqn:Hcfg.
    + destruct H as [[s [He _]] | [cfg [t2 [h2 [t3 [He [H Ht'']]]]]]].
      { rewrite Hd in He. discriminate He. }
      rewrite Hd in He. inversion He; subst t2 h2 cfg. clear He.
      eapply ReachedComponents; eauto. subst. reflexivity.
    + destruct H as [[s [He Hres]] | [cfg [t2 [h2 [t3 [He _]]]]]].
      2:{ rewrite Hd in He. discriminate He. }
      rewrite Hd in He. inversion He; subst.
      eapply StoppedInGetConfig; eauto.
Qed.

Lemma last2_app_r {A} (pre t : list A) (x : A * A) :
  last2 t = Some x -> last2 (pre ++ t) = Some x.
Proof.
  destruct x as [a b]. intros H. apply last2_inv in H. destruct H as [p ->].
  rewrite app_assoc. apply last2_app.
Qed.

Lemma early_events (t1 t2 : list Event) :
  forallb is_tls_event t1 = true ->
  forallb is_discovery_event t2 = true ->
  forallb is_early_event (t1 ++ t2) = true.
Proof.
  intros H1 H2. rewrite forallb_app. apply andb_true_intro.
  rewrite forallb_forall in H1, H2.
  split; apply forallb_forall; intros e He; unfold is_early_event.
  - now rewrite (H1 e He).
  - rewrite (H2 e He). apply orb_true_r.
Qed.

(** Every run of the sequential part either stops early, having done
    early events only, or reaches the component block. *)
Lemma setup_cases (f : Flags) (env : Env) tr h res :
  run_setup f env = (tr, h, res) ->
  (forallb is_early_event tr = true /\ h = [] /\
   exists s, res = Halt s /\
     (tls_options f env [] = (tr, [], Halt s) \/
      s = Exit 1 /\ GetConfigOrDie env = None /\
      last2 tr = Some (EGetConfigOrDie, ELog (kubeconfig_error_line env)))) \/
  (exists t3, reaches_components f env tr h res t3).
Proof.
  intros H. destruct (setup_inv _ _ H).
  - left. destruct (tls_options_frame _ _ _ Htls) as [_ Hev].
    repeat split; auto.
    + rewrite <- (app_nil_r tr). now apply early_events.
    + exists s. auto.
  - left. destruct (tls_options_frame _ _ _ Htls) as [_ Hev].
    subst. repeat split.
    + pose proof (@early_events t1 [] Hev eq_refl) as He.
      rewrite app_nil_r in He. rewrite forallb_app, He. reflexivity.
    + exists (Exit 1). split; [reflexivity|]. right. repeat split; auto.
      change [ESetupSignalHandler; EGetConfigOrDie; ELog (kubeconfig_error_line env)]
        with ([ESetupSignalHandler] ++ [EGetConfigOrDie; ELog (kubeconfig_error_line env)]).
      rewrite app_assoc. apply last2_app.
  - right. exists t3, t1, (ESetupSignalHandler :: t2), serving, c0.
    destruct (tls_options_frame _ _ _ Htls) as [_ Hev].
    repeat split; auto.
    rewrite discovery_config_fresh, Hcfg in Hdisc. inversion Hdisc.
    destruct (nonempty (server f)); reflexivity.
Qed.

(** An event that is not an early one was made by the component block. *)
Lemma late_event (f : Flags) (env : Env) tr h res (e : Event) :
  run_setup f env = (tr, h, res) ->
  In e tr ->
  is_early_event e = false ->
  exists t3, reaches_components f env tr h res t3 /\ In e t3.
Proof.
  intros H Hin He. destruct (setup_cases _ _ H) as [[Hev _] | [t3 Hr]].
  - rewrite forallb_forall in Hev. rewrite (Hev e Hin) in He. discriminate.
  - exists t3. split; [exact Hr|].
    destruct Hr as [t1 [t2 [serving [c0 [_ [_ [_ [Htr [Hev1 Hev2]]]]]]]]]. subst tr.
    rewrite app_assoc in Hin.
    apply in_app_or in Hin. destruct Hin as [Hin | Hin]; [|exact Hin].
    pose proof (early_events _ _ Hev1 Hev2) as Hev.
    rewrite forallb_forall in Hev. rewrite (Hev e Hin) in He. discriminate.
Qed.

(** The component block stops only through one of its [os.Exit(1)], each
    right after the error line that follows the failed call. *)
Lemma components_halts (f : Flags) (env : Env) ws mo ctx c0 c1 tr h s :
  components f env ws mo ctx 1%nat [c0; c1] = (tr, h, Halt s) ->
  s = Exit 1 /\
  exists call e sub kvs,
    last2 tr = Some (call, ELog (setupLog_Error e (fatal_message sub) kvs)) /\
    attempts call sub = true.
Proof.
  intros H. unfold components in H. paths H.
  all: split; [reflexivity|].
  all: do 2 eexists.
  all: first [ exists ClusterProvider; eexists; split; reflexivity
             | exists ProviderKubeconfigFile; eexists; split; reflexivity
             | exists ProviderKubeconfig; eexists; split; reflexivity
             | exists DynamicClient; eexists; split; reflexivity
             | exists ControllerManager; eexists; split; reflexivity
             | exists ApplicationController; eexists; split; reflexivity
             | exists HealthCheck; eexists; split; reflexivity
             | exists ReadyCheck; eexists; split; reflexivity ].
Qed.

(** C2: the function [main] registers with the controller is the
    reconcile function closed over the manager and over the one client
    built from the provider kubeconfig; when [GetCluster] resolves the
    request's cluster it calls [ApplicationReconciler.Reconcile] exactly
    once, with the cluster's client and scheme, that bridge client and the
    request's namespaced name, and returns what that call returns. *)
Theorem registered_reconciler_runs_once
    (f : Flags) (env : Env) (tr : list Event) (h : Heap) (res : Res Running)
    (mgr : Manager) (name : string) (kind : Kind) (fn : ReconcileFunc) :
  run_setup f env = (tr, h, res) ->
  In (EControllerComplete mgr name kind fn) tr ->
  exists pc config c,
    In (EClientNew config clientgoscheme_Scheme) tr /\
    load h config = Some c /\
    client_New env c clientgoscheme_Scheme = inl pc /\
    fn = reconcileFunc env mgr pc /\
    forall ctx req cl,
      GetCluster env mgr ctx (ClusterName req) = inl cl ->
      let reconciler := {| Client := GetClient cl;
                           Scheme := GetScheme cl;
                           ProviderClient := pc |} in
      let r := {| req_NamespacedName := req_NamespacedName (Request req) |} in
      snd (fn ctx req) = Reconcile env reconciler ctx r /\
      filter is_reconcile_call (fst (fn ctx req)) = [AReconcile reconciler ctx r].
Proof.
  intros Hrun Hin.
  assert (Hfn : forall mgr' pc ctx req cl,
             GetCluster env mgr' ctx (ClusterName req) = inl cl ->
             let reconciler := {| Client := GetClient cl;
                                  Scheme := GetScheme cl;
                                  ProviderClient := pc |} in
             let r := {| req_NamespacedName := req_NamespacedName (Request req) |} in
             snd (reconcileFunc env mgr' pc ctx req) = Reconcile env reconciler ctx r /\
             filter is_reconcile_call (fst (reconcileFunc env mgr' pc ctx req))
               = [AReconcile reconciler ctx r]).
  { intros mgr' pc ctx req cl Hget. unfold reconcileFunc. rewrite Hget. split; reflexivity. }
  destruct (late_event _ _ _ Hrun Hin eq_refl) as [t3 [Hr Hin3]].
  destruct Hr as [t1 [t2 [serving [c0 [_ [_ [Hcomp [Htr _]]]]]]]].
  unfold components in Hcomp. paths Hcomp; in_cases Hin3.
  all: inversion Hin3; subst.
  all: match goal with
       | H : client_New _ ?c _ = inl ?pc |- context [reconcileFunc _ _ ?pc] =>
           exists pc, 2%nat, c
       end.
  all: repeat split; try reflexivity; try assumption.
  all: try (do 2 (apply in_or_app; right); simpl; tauto).
  all: intros; now apply Hfn.
Qed.

Lemma registered_reconciler_runs_once_witness :
  exists pc,
    forall ctx req cl,
      GetCluster (sample_env None) (manager 1) ctx (ClusterName req) = inl cl ->
      snd (reconcileFunc (sample_env None) (manager 1) (client 7) ctx req)
        = Reconcile (sample_env None)
            {| Client := GetClient cl; Scheme := GetScheme cl; ProviderClient := pc |} ctx
            {| req_NamespacedName := req_NamespacedName (Request req) |}.
Proof.
  destruct (@registered_reconciler_runs_once sample_flags (sample_env None)
              _ _ _ (manager 1) "kcp-applications-controller" Application
              (reconcileFunc (sample_env None) (manager 1) (client 7))
              eq_refl)
    as (pc & config & c & _ & _ & _ & _ & H).
  - simpl. repeat (first [left; reflexivity | right]).
  - exists pc. intros ctx req cl Hget. exact (proj1 (H ctx req cl Hget)).
Defined.

(** ** TLS options of the two servers *)

(** The webhook server is built in the TLS block. *)
Lemma webhook_event_in_tls (f : Flags) (env : Env) tr h res (o : webhook_Options) :
  run_setup f env = (tr, h, res) ->
  In (EWebhookNewServer o) tr ->
  exists t1 r1, tls_options f env [] = (t1, [], r1) /\ In (EWebhookNewServer o) t1.
Proof.
  intros Hrun Hin. destruct (setup_inv _ _ Hrun).
  - eauto.
  - subst tr. apply in_app_or in Hin. destruct Hin as [Hin | Hin]; [eauto|].
    in_cases Hin.
  - subst tr. apply in_app_or in Hin. destruct Hin as [Hin | Hin]; [eauto|].
    apply in_app_or in Hin. destruct Hin as [Hin | Hin].
    + rewrite discovery_config_fresh, Hcfg in Hdisc. inversion Hdisc. subst t2.
      destruct (nonempty (server f)); in_cases Hin.
    + unfold components in Hcomp. paths Hcomp; in_cases Hin.
Qed.

(** The manager is given the servers of the TLS block, the copied
    discovery config and the shared scheme. *)
Lemma manager_event_options (f : Flags) (env : Env) tr h res cfg p (o : ctrl_Options) :
  run_setup f env = (tr, h, res) ->
  In (EManagerNew cfg p o) tr ->
  exists t1 serving,
    tls_options f env [] = (t1, [], Ok serving) /\
    (forall e, In e t1 -> In e tr) /\
    WebhookServer o = fst serving /\
    Metrics o = snd serving /\
    opt_Scheme o = clientgoscheme_Scheme /\
    cfg = 1%nat.
Proof.
  intros Hrun Hin.
  destruct (late_event _ _ _ Hrun Hin eq_refl) as [t3 [Hr Hin3]].
  destruct Hr as [t1 [t2 [serving [c0 [Htls [_ [Hcomp [Htr _]]]]]]]].
  exists t1, serving. split; [exact Htls|].
  split; [intros e He; subst tr; apply in_or_app; now left|].
  unfold components in Hcomp. paths Hcomp; in_cases Hin3.
  all: inversion Hin3; subst; repeat split.
Qed.

Lemma tls_options_http2 (f : Flags) (env : Env) (h : Heap) tr h' res :
  enableHTTP2 f = false ->
  tls_options f env h = (tr, h', res) ->
  (forall o base,
      In (EWebhookNewServer o) tr ->
      NextProtos (snd (apply_TLSOpts (webhook_TLSOpts o) base)) = ["http/1.1"]) /\
  (forall serving base,
      res = Ok serving ->
      NextProtos (snd (apply_TLSOpts (metrics_TLSOpts (snd serving)) base)) = ["http/1.1"] /\
      NextProtos (snd (apply_TLSOpts (webhook_TLSOpts (Options (fst serving))) base))
        = ["http/1.1"] /\
      In (EWebhookNewServer (Options (fst serving))) tr).
Proof.
  intros Hflag H. unfold tls_options in H. rewrite Hflag in H. paths H.
  all: split; intros.
  all: try match goal with H : In _ _ |- _ => in_cases H; inversion H; subst; reflexivity end.
  all: try discriminate.
  all: match goal with H : Ok _ = Ok _ |- _ => inversion H; subst end.
  all: repeat split; simpl; tauto.
Qed.

(** C8: with [--enable-http2] unset, the TLS options given to the webhook
    server and those given to the metrics server, run on any TLS config,
    leave [NextProtos] equal to [["http/1.1"]]. *)
Theorem http2_disabled_unless_enabled
    (f : Flags) (env : Env) (tr : list Event) (h : Heap) (res : Res Running) :
  enableHTTP2 f = false ->
  run_setup f env = (tr, h, res) ->
  (forall o base,
      In (EWebhookNewServer o) tr ->
      NextProtos (snd (apply_TLSOpts (webhook_TLSOpts o) base)) = ["http/1.1"]) /\
  (forall cfg p o base,
      In (EManagerNew cfg p o) tr ->
      NextProtos (snd (apply_TLSOpts (metrics_TLSOpts (Metrics o)) base)) = ["http/1.1"] /\
      NextProtos (snd (apply_TLSOpts (webhook_TLSOpts (Options (WebhookServer o))) base))
        = ["http/1.1"] /\
      In (EWebhookNewServer (Options (WebhookServer o))) tr).
Proof.
  intros Hflag Hrun. split.
  - intros o base Hin.
    destruct (webhook_event_in_tls _ _ _ Hrun Hin) as [t1 [r1 [Htls Hin1]]].
    exact (proj1 (tls_options_http2 _ _ _ Hflag Htls) o base Hin1).
  - intros cfg p o base Hin.
    destruct (manager_event_options _ _ _ _ _ Hrun Hin)
      as [t1 [serving [Htls [Hsub [Hw [Hm _]]]]]].
    destruct (proj2 (tls_options_http2 _ _ _ Hflag Htls) serving base eq_refl)
      as [H1 [H2 H3]].
    rewrite Hw, Hm. auto.
Qed.

Lemma http2_disabled_unless_enabled_witness :
  enableHTTP2 default_flags = false /\
  exists o,
    In (EWebhookNewServer o) (fst (fst (run_setup default_flags (sample_env None)))) /\
    forall base, NextProtos (snd (apply_TLSOpts (webhook_TLSOpts o) base)) = ["http/1.1"].
Proof.
  split; [reflexivity|].
  exists {| webhook_TLSOpts := [disableHTTP2] |}.
  split; [now left|]. intros base.
  refine (proj1 (@http2_disabled_unless_enabled default_flags (sample_env None) _ _ _
                   eq_refl eq_refl) _ base _).
  now left.
Defined.

(** ** The discovery connection config *)

Lemma nonempty_spec (s : string) : nonempty s = true <-> s <> "".
Proof.
  unfold nonempty. destruct s; simpl; split; intros H.
  - discriminate H.
  - now elim H.
  - discriminate.
  - reflexivity.
Qed.

(** The discovery block on any heap, when [GetConfigOrDie] returns. *)
Lemma discovery_config_run (f : Flags) (env : Env) (h : Heap) (c0 : rest_Config) :
  GetConfigOrDie env = Some c0 ->
  discovery_config f env h =
    ([EGetConfigOrDie; ECopyConfig (length h) (S (length h))]
       ++ (if nonempty (server f) then [ESetHost (S (length h)) (server f)] else []),
     h ++ [c0; overridden f c0], Ok (S (length h))).
Proof.
  intros Hcfg.
  assert (Hlen : length (h ++ [c0]) = S (length h))
    by (rewrite length_app, Nat.add_1_r; reflexivity).
  unfold discovery_config, rest_CopyConfig, assign_Host, bind, emit, ret, new_Config, deref,
    assign, alloc, overridden.
  rewrite Hcfg. simpl.
  assert (Hload : load ((h ++ [c0]) ++ [c0]) (S (length h)) = Some c0)
    by (rewrite <- Hlen; apply load_alloc_new).
  assert (Hstore : forall y, store ((h ++ [c0]) ++ [c0]) (S (length h)) y = (h ++ [c0]) ++ [y])
    by (intros y; rewrite <- Hlen; apply store_new).
  rewrite load_alloc_new. simpl. rewrite Hlen.
  destruct (nonempty (server f)).
  - rewrite Hload, Hstore. simpl. rewrite <- app_assoc. reflexivity.
  - simpl. rewrite <- app_assoc. reflexivity.
Qed.

(** C9: the loaded config is copied first; the copy's [Host] becomes the
    [--server] value exactly when that value is not empty; every other
    field of the copy equals the loaded one, and the loaded config, like
    every config allocated before, is as it was. *)
Theorem server_override_only_touches_copy_host
    (f : Flags) (env : Env) (h : Heap) (c0 : rest_Config) :
  GetConfigOrDie env = Some c0 ->
  exists tr h' orig copy c1,
    discovery_config f env h = (tr, h', Ok copy) /\
    orig <> copy /\
    (exists rest, tr = [EGetConfigOrDie; ECopyConfig orig copy] ++ rest /\
       forall r s, In (ESetHost r s) rest <-> (server f <> "" /\ r = copy /\ s = server f)) /\
    (forall r s, In (ESetHost r s) tr -> r <> orig) /\
    (forall r c, load h r = Some c -> load h' r = Some c) /\
    load h' orig = Some c0 /\
    load h' copy = Some c1 /\
    (server f <> "" -> Host c1 = server f) /\
    (server f = "" -> Host c1 = Host c0) /\
    APIPath c1 = APIPath c0 /\
    Username c1 = Username c0 /\
    Password c1 = Password c0 /\
    BearerToken c1 = BearerToken c0 /\
    BearerTokenFile c1 = BearerTokenFile c0 /\
    UserAgent c1 = UserAgent c0 /\
    Insecure c1 = Insecure c0 /\
    Burst c1 = Burst c0.
Proof.
  intros Hcfg.
  exists ([EGetConfigOrDie; ECopyConfig (length h) (S (length h))]
            ++ (if nonempty (server f) then [ESetHost (S (length h)) (server f)] else [])),
    (h ++ [c0; overridden f c0]), (length h), (S (length h)), (overridden f c0).
  split; [now apply discovery_config_run|].
  split; [lia|].
  split.
  { eexists. split; [reflexivity|]. intros r s.
    pose proof (nonempty_spec (server f)) as Hne.
    destruct (nonempty (server f)).
    - simpl. split.
      + intros [H | []]. inversion H; subst. repeat split. now apply Hne.
      + intros [_ [-> ->]]. now left.
    - simpl. split; [tauto|]. intros [H _]. apply Hne in H. discriminate H. }
  split.
  { intros r s Hin. simpl in Hin. destruct Hin as [H | [H | Hin]]; try discriminate H.
    destruct (nonempty (server f)); [|contradiction].
    destruct Hin as [H | []]. inversion H. lia. }
  split.
  { intros r c Hl. unfold load in *. rewrite nth_error_app1; [exact Hl|].
    apply nth_error_Some. congruence. }
  split.
  { unfold load. rewrite nth_error_app2, Nat.sub_diag by lia. reflexivity. }
  split.
  { unfold load. rewrite nth_error_app2 by lia.
    replace (S (length h) - length h)%nat with 1%nat by lia. reflexivity. }
  pose proof (nonempty_spec (server f)) as Hne. unfold overridden.
  destruct (nonempty (server f)); simpl; repeat split; try reflexivity.
  - intros H. destruct (proj1 Hne eq_refl H).
  - intros H. apply Hne in H. discriminate H.
Qed.

Lemma server_override_only_touches_copy_host_witness :
  exists tr h' orig copy c1,
    discovery_config sample_flags (sample_env None) [] = (tr, h', Ok copy) /\
    orig <> copy /\
    load h' orig = Some sample_config /\
    load h' copy = Some c1 /\
    Host c1 = "https://override:443" /\
    APIPath c1 = APIPath sample_config.
Proof.
  destruct (@server_override_only_touches_copy_host sample_flags (sample_env None) []
              sample_config eq_refl)
    as (tr & h' & orig & copy & c1 & H1 & H2 & _ & _ & _ & H3 & H4 & H5 & _ & H6 & _).
  exists tr, h', orig, copy, c1. repeat split; try assumption.
  apply H5. discriminate.
Defined.

(** ** The shared scheme *)




(** [init] returns, without a panic, when no registration fails. *)
Lemma init_returns (env : Env) (st : SchemeStore) :
  (forall a, AddToScheme env a = None) -> exists st', init env st = inl st'.
Proof.
  intros H. unfold init, Must_AddToScheme. rewrite !H. eexists. reflexivity.
Qed.






(** ** The two threads *)

Lemma thread_events_app (t : Tid) (a b : list (Tid * Event)) :
  thread_events t (a ++ b) = thread_events t a ++ thread_events t b.
Proof. unfold thread_events. now rewrite filter_app, map_app. Qed.

Lemma thread_events_own (t : Tid) (evs : list Event) :
  thread_events t (map (pair t) evs) = evs.
Proof.
  unfold thread_events. induction evs as [|e evs IH]; [reflexivity|].
  simpl. replace (Tid_eqb t t) with true by (destruct t; reflexivity).
  simpl. now rewrite IH.
Qed.

Lemma thread_events_other (t t' : Tid) (evs : list Event) :
  Tid_eqb t' t = false -> thread_events t (map (pair t') evs) = [].
Proof.
  intros H. unfold thread_events. induction evs as [|e evs IH]; [reflexivity|].
  simpl. now rewrite H.
Qed.

Lemma spawned_inv (f : Flags) (env : Env) (r : Running) (t0 : list Event) :
  Inv f env r t0 (spawned r t0).
Proof.
  split; simpl.
  - exact I.
  - destruct (run_provider r); exact I.
  - now rewrite thread_events_own, app_nil_r.
  - rewrite thread_events_other by reflexivity. now destruct (run_provider r).
  - exact I.
Qed.

Ltac inv_fields :=
  split; unfold advance;
  cbn [main_pc go_pc trace status main_pc_ok go_pc_ok status_ok map main_done go_done];
  rewrite ?app_nil_r, ?thread_events_app; auto.

Lemma step_inv (f : Flags) (env : Env) (r : Running) (t0 : list Event) (t : Tid) (p : Proc) :
  Inv f env r t0 p -> Inv f env r t0 (step f env r t p).
Proof.
  intros [Hm Hg Htm Htg Hs]. unfold step.
  destruct (status p) eqn:Est; [|split; auto].
  destruct t.
  - unfold main_step.
    destruct (main_pc p) eqn:Em; simpl in Hm, Htm; try contradiction.
    + inv_fields.
      * rewrite Htm. simpl. now rewrite app_nil_r.
      * simpl. now rewrite app_nil_r.
    + inv_fields.
      * rewrite Htm, <- app_assoc. reflexivity.
      * simpl. now rewrite app_nil_r.
    + destruct (mgr_Start env) as [err|] eqn:Estart; inv_fields.
    + inv_fields.
      * congruence.
      * rewrite Htm, Hm, <- app_assoc. reflexivity.
      * simpl. now rewrite app_nil_r.
    + inv_fields.
    + inv_fields.
  - unfold provider_step.
    destruct (go_pc p) eqn:Eg; simpl in Hg, Htg;
      [split; rewrite ?Eg; simpl; auto| | | | |split; rewrite ?Eg; simpl; auto].
    + inv_fields.
      * simpl. now rewrite app_nil_r.
      * rewrite Htg. reflexivity.
    + destruct (provider_Run env) as [err|] eqn:Erun; inv_fields.
    + inv_fields.
      * congruence.
      * simpl. now rewrite app_nil_r.
      * rewrite Htg, Hg. reflexivity.
    + inv_fields.
Qed.

Lemma run_inv (f : Flags) (env : Env) (r : Running) (t0 : list Event) (sched : list Tid)
    (p : Proc) :
  Inv f env r t0 p -> Inv f env r t0 (run f env r sched p).
Proof.
  revert p. induction sched as [|t sched IH]; intros p H; [exact H|].
  simpl. apply IH. now apply step_inv.
Qed.

(** The process, when the sequential part is through. *)
Lemma process_running (f : Flags) (env : Env) tr h r (sched : list Tid) :
  run_setup f env = (tr, h, Ok r) ->
  process f env sched = run f env r sched (spawned r tr) /\
  Inv f env r tr (process f env sched).
Proof.
  intros H. unfold process. rewrite H. split; [reflexivity|].
  apply run_inv, spawned_inv.
Qed.

(** The process, when the sequential part stops. *)
Lemma process_stopped (f : Flags) (env : Env) tr h s (sched : list Tid) :
  run_setup f env = (tr, h, Halt s) ->
  process f env sched =
    {| main_pc := MStopped; go_pc := GAbsent; trace := map (pair MainT) tr;
       status := Ended MainT s |}.
Proof. intros H. unfold process. now rewrite H. Qed.

(** ** Fatal paths *)

Lemma fatal_message_inj (a b : Subsystem) : fatal_message a = fatal_message b -> a = b.
Proof. destruct a, b; simpl; intros H; try reflexivity; discriminate H. Qed.

(** The sequential part stops through the [os.Exit(1)] inside
    [ctrl.GetConfigOrDie], right after the library's error line, or through
    an [os.Exit(1)] of [main] that comes right after its error line. *)
Lemma setup_halts (f : Flags) (env : Env) tr h s :
  run_setup f env = (tr, h, Halt s) ->
  s = Exit 1 /\
  ((GetConfigOrDie env = None /\
    last2 tr = Some (EGetConfigOrDie, ELog (kubeconfig_error_line env))) \/
   (exists call e sub kvs,
      last2 tr = Some (call, ELog (setupLog_Error e (fatal_message sub) kvs)) /\
      attempts call sub = true)).
Proof.
  intros H. destruct (setup_cases _ _ H) as [(_ & _ & s' & Hs & Hc) | [t3 Hr]].
  - inversion Hs; subst s'. destruct Hc as [Htls | (-> & Hd & Hl)]; [|split; auto].
    destruct (tls_options_halts _ _ _ Htls) as [-> Hl]. split; auto.
  - destruct Hr as (t1 & t2 & serving & c0 & _ & _ & Hcomp & Htr & _).
    destruct (components_halts _ _ _ _ _ _ _ Hcomp) as [Hs (call & e & sub & kvs & Hl & Ha)].
    split; [exact Hs|]. right. exists call, e, sub, kvs. split; [|exact Ha].
    subst tr. now do 2 apply last2_app_r.
Qed.

(** ** The line in front of each fatal exit *)

Lemma fatal_line_is_an_error (f : Flags) (env : Env) (call : Event) (l : LogLine) :
  FatalLine f env call l -> level l = Err /\ cause l <> None.
Proof. intros H. destruct H; split; try reflexivity; discriminate. Qed.

(** The message tells which step failed. *)
Lemma fatal_line_identifies (f : Flags) (env : Env) (call call' : Event) (l l' : LogLine) :
  FatalLine f env call l ->
  FatalLine f env call' l' ->
  msg l' = msg l ->
  same_step call' call.
Proof.
  intros H H'. destruct H, H'; simpl; intros Hm; try discriminate Hm; auto.
Qed.

(** The TLS block stops only through its two [os.Exit(1)], each right
    after the line of the watcher that failed. *)
Lemma tls_options_fatal (f : Flags) (env : Env) (h : Heap) tr h' s :
  tls_options f env h = (tr, h', Halt s) ->
  s = Exit 1 /\
  exists call l, last2 tr = Some (call, ELog l) /\ FatalLine f env call l.
Proof.
  intros H. unfold tls_options in H. paths H.
  all: split; [reflexivity|].
  all: do 2 eexists; split; [reflexivity|].
  all: first [ apply WebhookWatcherLine; assumption
             | apply MetricsWatcherLine; assumption ].
Qed.

(** The component block stops only through one of its [os.Exit(1)], each
    right after the line of the call that failed. *)
Lemma components_fatal (f : Flags) (env : Env) ws mo ctx c0 c1 tr h s :
  GetConfigOrDie env = Some c0 ->
  c1 = overridden f c0 ->
  components f env ws mo ctx 1%nat [c0; c1] = (tr, h, Halt s) ->
  s = Exit 1 /\
  exists call l, last2 tr = Some (call, ELog l) /\ FatalLine f env call l.
Proof.
  intros Hcfg Hc1 H. unfold components in H. paths H.
  all: split; [reflexivity|].
  all: do 2 eexists; split; [reflexivity|].
  all: first [ eapply ProviderLine; eassumption
             | eapply StatLine; eassumption
             | eapply BuildConfigLine; eassumption
             | eapply ClientLine; eassumption
             | eapply ManagerLine; eassumption
             | eapply ControllerLine; eassumption
             | eapply HealthzLine; eassumption
             | eapply ReadyzLine; eassumption ].
Qed.

(** The sequential part stops only through an [os.Exit(1)] that comes
    right after the line of the call that failed. *)
Lemma setup_fatal (f : Flags) (env : Env) tr h s :
  run_setup f env = (tr, h, Halt s) ->
  s = Exit 1 /\
  exists call l, last2 tr = Some (call, ELog l) /\ FatalLine f env call l.
Proof.
  intros H. destruct (setup_inv _ _ H).
  - inversion Hres; subst. exact (tls_options_fatal _ _ _ Htls).
  - inversion Hres; subst. split; [reflexivity|].
    exists EGetConfigOrDie, (kubeconfig_error_line env). split.
    + change [ESetupSignalHandler; EGetConfigOrDie; ELog (kubeconfig_error_line env)]
        with ([ESetupSignalHandler] ++ [EGetConfigOrDie; ELog (kubeconfig_error_line env)]).
      rewrite app_assoc. apply last2_app.
    + apply KubeconfigLine. exact Hcfg.
  - destruct (@components_fatal f env _ _ _ _ _ _ _ _ Hcfg eq_refl Hcomp)
      as [Hs (call & l & Hl & Hf)].
    split; [exact Hs|]. exists call, l. split; [|exact Hf].
    subst tr. now do 2 apply last2_app_r.
Qed.

(** Past the [go] statement a thread ends the process with a non-zero
    code only through its [os.Exit(1)], right after the line of its
    blocking call. *)
Lemma thread_fatal (f : Flags) (env : Env) (r : Running) (tr : list Event) (p : Proc)
    (who : Tid) (c : Z) :
  Inv f env r tr p ->
  status p = Ended who (Exit c) ->
  c <> 0%Z ->
  c = 1%Z /\
  exists call l,
    last2 (thread_events who (trace p)) = Some (call, ELog l) /\ FatalLine f env call l.
Proof.
  intros [Hm Hg Htm Htg Hs] Hst Hc. unfold status_ok in Hs. rewrite Hst in Hs.
  destruct who.
  - destruct Hs as [[-> Hpc] | [-> _]]; [|contradiction].
    split; [reflexivity|].
    rewrite Hpc in Hm, Htm. simpl in Hm, Htm.
    destruct (mgr_Start env) as [err|] eqn:Es; [|contradiction].
    do 2 eexists. split.
    + rewrite Htm.
      change (tr ++ [starting_manager f; EManagerStart (run_mgr r) (run_ctx r);
                     ELog (setupLog_Error err "problem running manager" [])])
        with (tr ++ [starting_manager f]
                ++ [EManagerStart (run_mgr r) (run_ctx r);
                    ELog (setupLog_Error err "problem running manager" [])]).
      rewrite app_assoc. apply last2_app.
    + apply StartLine. exact Es.
  - destruct Hs as [-> Hpc]. split; [reflexivity|].
    rewrite Hpc in Hg, Htg. simpl in Hg, Htg.
    destruct (provider_Run env) as [err|] eqn:Es; [|contradiction].
    do 2 eexists. split.
    + rewrite Htg. reflexivity.
    + apply RunLine. exact Es.
Qed.

(** When the sequential part stops, nothing runs after it. *)
Lemma stopped_process (f : Flags) (env : Env) tr h s (sched : list Tid) :
  run_setup f env = (tr, h, Halt s) ->
  status (process f env sched) = Ended MainT s /\
  map snd (trace (process f env sched)) = tr.
Proof.
  intros H. rewrite (@process_stopped f env tr h s sched H). simpl. split; [reflexivity|].
  rewrite map_map. simpl. apply map_id.
Qed.

(** Solves [last2 (t1 ++ t2 ++ t3) = Some _] for an explicit [t3]. *)
Ltac last2_of_components := do 2 apply last2_app_r; reflexivity.

(** C3: when the [os.Stat] of the provider kubeconfig, the parsing of
    that kubeconfig or the construction of the client fails, the next two
    things [main] does are the error line of that step and [os.Exit(1)]:
    no manager is created, no controller is registered, and under every
    schedule the process has ended with exit code 1 having done nothing
    more. *)
Theorem bridge_client_failure_is_fatal
    (f : Flags) (env : Env) (tr : list Event) (h : Heap) (res : Res Running)
    (sub : Subsystem) (err : error) :
  run_setup f env = (tr, h, res) ->
  BridgeFailure env tr h sub err ->
  res = Halt (Exit 1) /\
  (exists call,
     last2 tr = Some (call, ELog (setupLog_Error err (fatal_message sub) [])) /\
     attempts call sub = true) /\
  (forall cfg p o, ~ In (EManagerNew cfg p o) tr) /\
  (forall m name kind fn, ~ In (EControllerComplete m name kind fn) tr) /\
  ~ In EGo tr /\
  forall sched,
    status (process f env sched) = Ended MainT (Exit 1) /\
    map snd (trace (process f env sched)) = tr.
Proof.
  intros Hrun Hfail.
  assert (Hmain : res = Halt (Exit 1) /\
            (exists call,
               last2 tr = Some (call, ELog (setupLog_Error err (fatal_message sub) [])) /\
               attempts call sub = true) /\
            (forall e, In e tr -> is_early_event e = false ->
               match e with
               | EManagerNew _ _ _ | EControllerComplete _ _ _ _ | EGo => False
               | _ => True
               end)).
  { destruct Hfail as [path err Hin Ho | masterUrl path err Hin Ho | config scheme c err Hin Hl Ho].
    - destruct (late_event _ _ _ Hrun Hin eq_refl) as [t3 [Hr Hin3]].
      destruct Hr as (t1 & t2 & serving & c0 & _ & _ & Hcomp & Htr & Hev).
      unfold components in Hcomp. paths Hcomp; in_cases Hin3.
      all: inversion Hin3; subst path; try congruence.
      assert (e = err) by congruence. subst e.
      split; [reflexivity|]. split.
      + eexists. split; [last2_of_components | reflexivity].
      + intros e He Hearly.
        rewrite app_assoc in He. apply in_app_or in He. destruct He as [He | He].
        * pose proof (early_events _ _ (proj1 Hev) (proj2 Hev)) as Hall.
          rewrite forallb_forall in Hall. rewrite (Hall e He) in Hearly. discriminate.
        * in_cases He; subst e; exact I.
    - destruct (late_event _ _ _ Hrun Hin eq_refl) as [t3 [Hr Hin3]].
      destruct Hr as (t1 & t2 & serving & c0 & _ & _ & Hcomp & Htr & Hev).
      unfold components in Hcomp. paths Hcomp; in_cases Hin3.
      all: inversion Hin3; subst path masterUrl; try congruence.
      assert (e = err) by congruence. subst e.
      split; [reflexivity|]. split.
      + eexists. split; [last2_of_components | reflexivity].
      + intros e He Hearly.
        rewrite app_assoc in He. apply in_app_or in He. destruct He as [He | He].
        * pose proof (early_events _ _ (proj1 Hev) (proj2 Hev)) as Hall.
          rewrite forallb_forall in Hall. rewrite (Hall e He) in Hearly. discriminate.
        * in_cases He; subst e; exact I.
    - destruct (late_event _ _ _ Hrun Hin eq_refl) as [t3 [Hr Hin3]].
      destruct Hr as (t1 & t2 & serving & c0 & _ & _ & Hcomp & Htr & Hev).
      unfold components in Hcomp. paths Hcomp; in_cases Hin3.
      all: inversion Hin3; subst config scheme; simpl in Hl; inversion Hl; subst c;
        try congruence.
      assert (e = err) by congruence. subst e.
      split; [reflexivity|]. split.
      + eexists. split; [last2_of_components | reflexivity].
      + intros e He Hearly.
        rewrite app_assoc in He. apply in_app_or in He. destruct He as [He | He].
        * pose proof (early_events _ _ (proj1 Hev) (proj2 Hev)) as Hall.
          rewrite forallb_forall in Hall. rewrite (Hall e He) in Hearly. discriminate.
        * in_cases He; subst e; exact I. }
  destruct Hmain as (Hres & Hlast & Hnone).
  split; [exact Hres|]. split; [exact Hlast|].
  split; [intros cfg p o Hin; exact (Hnone _ Hin eq_refl)|].
  split; [intros m name kind fn Hin; exact (Hnone _ Hin eq_refl)|].
  split; [intros Hin; exact (Hnone _ Hin eq_refl)|].
  intros sched. subst res. exact (stopped_process f env sched Hrun).
Qed.

Lemma bridge_client_failure_is_fatal_witness :
  snd (run_setup sample_flags (sample_env (Some ProviderKubeconfigFile))) = Halt (Exit 1).
Proof.
  refine (proj1 (@bridge_client_failure_is_fatal sample_flags
                   (sample_env (Some ProviderKubeconfigFile)) _ _ _
                   ProviderKubeconfigFile (errorString "boom") eq_refl _)).
  apply StatFails with (path := "/etc/provider.kubeconfig").
  - simpl. repeat (first [left; reflexivity | right]).
  - reflexivity.
Defined.

(** ** The provider goroutine *)

Lemma run_app (f : Flags) (env : Env) (r : Running) (s1 s2 : list Tid) (p : Proc) :
  run f env r (s1 ++ s2) p = run f env r s2 (run f env r s1 p).
Proof. unfold run. apply fold_left_app. Qed.


(** The claim of C4 fails as stated: [provider.Run] has returned a non-nil
    error, [mgr.Start] then returns nil and [main] returns before the
    provider goroutine has logged and exited; the exit code is 0. *)
Lemma provider_error_yet_exit_code_zero :
  let env := sample_env (Some ProviderRun) in
  let p := process sample_flags env [ProviderT; ProviderT; MainT; MainT; MainT; MainT] in
  provider_Run env = Some (errorString "boom") /\
  go_pc p = GRunFailed (errorString "boom") /\
  status p = Ended MainT (Exit 0).
Proof. repeat split. Qed.

(** ** Health checks *)

(** A run of the sequential part that gets through has registered both
    checks, in this order, and has not started the manager. *)
Lemma setup_ok_checks (f : Flags) (env : Env) tr h r :
  run_setup f env = (tr, h, Ok r) ->
  (exists pre mid post,
     tr = pre ++ EAddHealthzCheck (run_mgr r) "healthz" healthz_Ping
              :: mid ++ EAddReadyzCheck (run_mgr r) "readyz" healthz_Ping :: post) /\
  AddHealthzCheck env (run_mgr r) "healthz" = None /\
  AddReadyzCheck env (run_mgr r) "readyz" = None /\
  (forall m ctx, ~ In (EManagerStart m ctx) tr).
Proof.
  intros Hrun.
  assert (Hno : forall m ctx, ~ In (EManagerStart m ctx) tr).
  { intros m ctx Hin.
    destruct (late_event _ _ _ Hrun Hin eq_refl) as [t3 [Hr Hin3]].
    destruct Hr as (t1 & t2 & serving & c0 & _ & _ & Hcomp & _).
    unfold components in Hcomp. paths Hcomp; in_cases Hin3. }
  destruct (setup_cases _ _ Hrun) as [(_ & _ & s & Hs & _) | [t3 Hr]]; [discriminate Hs|].
  destruct Hr as (t1 & t2 & serving & c0 & _ & _ & Hcomp & Htr & _).
  unfold components in Hcomp. paths Hcomp; simpl.
  all: repeat split; try assumption.
  all: match goal with
       | |- context [?a ++ ?b ++ ?e1 :: ?e2 :: ?e3 :: ?e4 :: ?e5 :: ?e6 :: _ :: _ :: ?tl] =>
           exists (a ++ b ++ [e1; e2; e3; e4; e5; e6]), [], tl;
           rewrite <- !app_assoc; reflexivity
       end.
Qed.

Lemma run_extends (f : Flags) (env : Env) (r : Running) (sched : list Tid) (p : Proc) :
  exists rest, trace (run f env r sched p) = trace p ++ rest.
Proof.
  revert p. induction sched as [|t sched IH]; intros p.
  - exists []. now rewrite app_nil_r.
  - simpl. destruct (IH (step f env r t p)) as [rest Hr]. rewrite Hr.
    assert (Hs : exists one, trace (step f env r t p) = trace p ++ one).
    { unfold step. destruct (status p); [|exists []; now rewrite app_nil_r].
      destruct t.
      - unfold main_step.
        destruct (main_pc p); try destruct (mgr_Start env); simpl.
        all: first [eexists; reflexivity | exists []; now rewrite app_nil_r].
      - unfold provider_step.
        destruct (go_pc p); try destruct (provider_Run env); simpl.
        all: first [eexists; reflexivity | exists []; now rewrite app_nil_r]. }
    destruct Hs as [one Ho]. rewrite Ho, <- app_assoc. eauto.
Qed.

Lemma in_thread_events (t : Tid) (e : Event) (tr : list (Tid * Event)) :
  In (t, e) tr -> In e (thread_events t tr).
Proof.
  intros H. unfold thread_events. apply in_map_iff. exists (t, e). split; [reflexivity|].
  apply filter_In. split; [exact H|]. destruct t; reflexivity.
Qed.

(** C6: both checks are backed by [healthz.Ping], which answers nil to
    every request; whenever [mgr.Start] has been called, the healthz check
    named "healthz" and then the readyz check named "readyz" were
    registered on that manager before, and both registrations succeeded;
    a registration that fails is followed by its error line and
    [os.Exit(1)], and the manager is never started. *)
Theorem health_checks_registered_before_start (f : Flags) (env : Env) :
  (forall req, healthz_Ping req = None) /\
  (forall sched m ctx,
     In (EManagerStart m ctx) (map snd (trace (process f env sched))) ->
     (exists pre mid post,
        map snd (trace (process f env sched))
          = pre ++ EAddHealthzCheck m "healthz" healthz_Ping
                :: mid ++ EAddReadyzCheck m "readyz" healthz_Ping :: post /\
        In (EManagerStart m ctx) post /\
        ~ In (EManagerStart m ctx) pre /\ ~ In (EManagerStart m ctx) mid) /\
     AddHealthzCheck env m "healthz" = None /\
     AddReadyzCheck env m "readyz" = None) /\
  (forall tr h res sub err,
     run_setup f env = (tr, h, res) ->
     CheckFailure env tr sub err ->
     res = Halt (Exit 1) /\
     (exists call,
        last2 tr = Some (call, ELog (setupLog_Error err (fatal_message sub) [])) /\
        attempts call sub = true) /\
     forall sched,
       status (process f env sched) = Ended MainT (Exit 1) /\
       forall m ctx, ~ In (EManagerStart m ctx) (map snd (trace (process f env sched)))).
Proof.
  split; [reflexivity|]. split.
  - intros sched m ctx Hin.
    destruct (run_setup f env) as [[tr h] [r | s]] eqn:Hrun.
    + destruct (process_running f env sched Hrun) as [Hp [Hm Hg Htm Htg Hs]].
      destruct (setup_ok_checks _ _ Hrun) as ((pre & mid & post & Htr) & Hh & Hr & Hno).
      destruct (run_extends f env r sched (spawned r tr)) as [rest Hrest].
      rewrite <- Hp in Hrest. simpl in Hrest.
      assert (Hall : map snd (trace (process f env sched)) = tr ++ map snd rest).
      { rewrite Hrest, map_app, map_map. simpl. now rewrite map_id. }
      assert (Hmc : m = run_mgr r /\ ctx = run_ctx r).
      { apply in_map_iff in Hin. destruct Hin as [[t e] [He Hin]]. simpl in He. subst e.
        apply in_thread_events in Hin. destruct t.
        - rewrite Htm in Hin. apply in_app_or in Hin. destruct Hin as [Hin | Hin].
          + destruct (Hno _ _ Hin).
          + destruct (main_pc (process f env sched)); simpl in Hin;
              try destruct (mgr_Start env); in_cases Hin; inversion Hin; auto.
        - rewrite Htg in Hin.
          destruct (go_pc (process f env sched)); simpl in Hin;
            try destruct (provider_Run env); in_cases Hin. }
      destruct Hmc as [-> ->]. split; [|split; assumption].
      exists pre, mid, (post ++ map snd rest).
      rewrite Hall in *.
      assert (Hnotr : ~ In (EManagerStart (run_mgr r) (run_ctx r)) tr) by apply Hno.
      split; [|split; [|split]].
      * rewrite Htr, <- !app_assoc. simpl. rewrite <- app_assoc. reflexivity.
      * apply in_app_or in Hin. destruct Hin as [Hin | Hin]; [destruct (Hnotr Hin)|].
        apply in_or_app. now right.
      * intros H. apply Hnotr. rewrite Htr. apply in_or_app. now left.
      * intros H. apply Hnotr. rewrite Htr. apply in_or_app. right. right.
        apply in_or_app. now left.
    + destruct (stopped_process f env sched Hrun) as [_ Htr]. rewrite Htr in Hin.
      assert (He : is_early_event (EManagerStart m ctx) = false) by reflexivity.
      destruct (late_event _ _ _ Hrun Hin He) as [t3 [Hr Hin3]].
      destruct Hr as (t1 & t2 & serving & c0 & _ & _ & Hcomp & _).
      unfold components in Hcomp. paths Hcomp; in_cases Hin3.
  - intros tr h res sub err Hrun Hfail.
    assert (Hmain : res = Halt (Exit 1) /\
              exists call,
                last2 tr = Some (call, ELog (setupLog_Error err (fatal_message sub) [])) /\
                attempts call sub = true).
    { destruct Hfail as [m name check err Hin Ho | m name check err Hin Ho].
      - destruct (late_event _ _ _ Hrun Hin eq_refl) as [t3 [Hr Hin3]].
        destruct Hr as (t1 & t2 & serving & c0 & _ & _ & Hcomp & Htr & Hev).
        unfold components in Hcomp. paths Hcomp; in_cases Hin3.
        all: inversion Hin3; subst m name check; try congruence.
        assert (e = err) by congruence. subst e.
        split; [reflexivity|]. eexists. split; [last2_of_components | reflexivity].
      - destruct (late_event _ _ _ Hrun Hin eq_refl) as [t3 [Hr Hin3]].
        destruct Hr as (t1 & t2 & serving & c0 & _ & _ & Hcomp & Htr & Hev).
        unfold components in Hcomp. paths Hcomp; in_cases Hin3.
        all: inversion Hin3; subst m name check; try congruence.
        assert (e = err) by congruence. subst e.
        split; [reflexivity|]. eexists. split; [last2_of_components | reflexivity]. }
    destruct Hmain as [Hres Hlast]. split; [exact Hres|]. split; [exact Hlast|].
    intros sched. subst res.
    destruct (stopped_process f env sched Hrun) as [Hst Htr]. split; [exact Hst|].
    intros m ctx Hin. rewrite Htr in Hin.
    assert (He : is_early_event (EManagerStart m ctx) = false) by reflexivity.
    destruct (late_event _ _ _ Hrun Hin He) as [t3 [Hr Hin3]].
    destruct Hr as (t1 & t2 & serving & c0 & _ & _ & Hcomp & _).
    unfold components in Hcomp. paths Hcomp; in_cases Hin3.
Qed.

Lemma health_checks_registered_before_start_witness :
  AddHealthzCheck (sample_env None) (manager 1) "healthz" = None /\
  AddReadyzCheck (sample_env None) (manager 1) "readyz" = None.
Proof.
  refine (proj2 (proj1 (proj2 (@health_checks_registered_before_start sample_flags
                                 (sample_env None)))
                   [MainT; MainT] (manager 1) 1%nat _)).
  simpl. repeat (first [left; reflexivity | right]).
Defined.

(** ** The dispatcher *)

Module DispatcherFacts.
Import Dispatcher.

Lemma mem_In (k : Key) (l : list Key) : mem k l = true <-> In k l.
Proof. unfold mem. destruct (in_dec Key_eq_dec k l); split; auto; discriminate. Qed.

Lemma mem_not_In (k : Key) (l : list Key) : mem k l = false <-> ~ In k l.
Proof. unfold mem. destruct (in_dec Key_eq_dec k l); split; auto; try discriminate.
       intros H. contradiction. Qed.

Lemma remove1_In (k x : Key) (l : list Key) : In x (remove1 k l) -> In x l.
Proof.
  induction l as [|y l IH]; simpl; [auto|].
  destruct (Key_eq_dec k y); [auto|]. simpl. intros [H | H]; auto.
Qed.

Lemma remove1_keeps (k x : Key) (l : list Key) : In x l -> x <> k -> In x (remove1 k l).
Proof.
  induction l as [|y l IH]; simpl; [auto|]. intros [H | H] Hne.
  - subst y. destruct (Key_eq_dec k x); [congruence | now left].
  - destruct (Key_eq_dec k y); [exact H | right; auto].
Qed.

Lemma remove1_NoDup (k : Key) (l : list Key) : NoDup l -> NoDup (remove1 k l).
Proof.
  induction 1 as [|y l Hy Hl IH]; simpl; [constructor|].
  destruct (Key_eq_dec k y); [exact Hl|]. constructor; [|exact IH].
  intros H. apply Hy. eapply remove1_In; eauto.
Qed.

Lemma remove1_gone (k : Key) (l : list Key) : NoDup l -> ~ In k (remove1 k l).
Proof.
  induction 1 as [|y l Hy Hl IH]; simpl; [auto|].
  destruct (Key_eq_dec k y); [now subst y|]. simpl. intros [H | H]; [congruence | auto].
Qed.

Lemma remove1_length (k : Key) (l : list Key) : length (remove1 k l) <= length l.
Proof.
  induction l as [|y l IH]; simpl; [lia|]. destruct (Key_eq_dec k y); simpl; lia.
Qed.

Lemma NoDup_snoc (k : Key) (l : list Key) : NoDup l -> ~ In k l -> NoDup (l ++ [k]).
Proof.
  intros Hl Hk. apply NoDup_app; [exact Hl | repeat constructor; auto |].
  intros x Hx [H | []]. now subst x.
Qed.

Lemma empty_wf (workers : nat) : well_formed workers empty.
Proof. split; simpl; try constructor; try contradiction; lia. Qed.

Lemma enqueue_wf (workers : nat) (k : Key) (s : State) :
  well_formed workers s -> well_formed workers (enqueue k s).
Proof.
  intros [Hi Hq Hr Hw Hm Hb]. unfold enqueue.
  destruct (mem k (inflight s)) eqn:Ei.
  - destruct (mem k (rerun s)) eqn:Er; [split; auto|].
    apply mem_In in Ei. apply mem_not_In in Er.
    split; simpl; auto.
    + now apply NoDup_snoc.
    + intros x Hx. apply in_app_or in Hx. destruct Hx as [Hx | [Hx | []]]; [auto|now subst x].
  - destruct (mem k (queue s)) eqn:Eq; [split; auto|].
    apply mem_not_In in Ei. apply mem_not_In in Eq.
    split; simpl; auto.
    + now apply NoDup_snoc.
    + intros x Hx. apply in_app_or in Hx. destruct Hx as [Hx | [Hx | []]]; [auto|now subst x].
Qed.

Lemma pull_wf (workers : nat) (k : Key) (s s' : State) :
  well_formed workers s -> pull workers k s = Some s' -> well_formed workers s'.
Proof.
  intros [Hi Hq Hr Hw Hm Hb]. unfold pull.
  destruct (mem k (queue s)) eqn:Eq; [|discriminate].
  destruct (Nat.ltb (length (inflight s)) workers) eqn:El; [|discriminate].
  simpl. intros H. inversion H; subst s'; clear H.
  apply mem_In in Eq. apply Nat.ltb_lt in El.
  split; simpl; auto.
  - constructor; auto.
  - now apply remove1_NoDup.
  - intros x Hx [H | H].
    + subst x. exact (@remove1_gone _ _ Hq Hx).
    + apply remove1_In in Hx. exact (Hw _ Hx H).
Qed.

Lemma finish_wf (workers : nat) (k : Key) (res : Result) (err : option error) (s s' : State) :
  well_formed workers s -> finish k res err s = Some s' -> well_formed workers s'.
Proof.
  intros [Hi Hq Hr Hw Hm Hb]. unfold finish.
  destruct (mem k (inflight s)) eqn:Ei; [|discriminate].
  intros H. inversion H; subst s'; clear H. apply mem_In in Ei.
  split; simpl.
  - now apply remove1_NoDup.
  - destruct (mem k (rerun s)); [|exact Hq].
    apply NoDup_snoc; [exact Hq|]. intros H. exact (Hw _ H Ei).
  - now apply remove1_NoDup.
  - intros x Hx Hin. pose proof (@remove1_In _ _ _ Hin) as Hin'.
    destruct (mem k (rerun s)); [|exact (Hw _ Hx Hin')].
    apply in_app_or in Hx. destruct Hx as [Hx | [Hx | []]]; [exact (Hw _ Hx Hin')|].
    subst x. exact (@remove1_gone _ _ Hi Hin).
  - intros x Hx. pose proof (@remove1_In _ _ _ Hx) as Hx'.
    apply remove1_keeps; [auto|]. intros ->. exact (@remove1_gone _ _ Hr Hx).
  - pose proof (remove1_length k (inflight s)). lia.
Qed.

Lemma fire_wf (workers : nat) (k : Key) (d : Delay) (s s' : State) :
  well_formed workers s -> fire k d s = Some s' -> well_formed workers s'.
Proof.
  intros Hwf. unfold fire.
  destruct (existsb _ (timers s)); [|discriminate].
  intros H. inversion H; subst s'; clear H.
  apply enqueue_wf. destruct Hwf. split; auto.
Qed.

Lemma exec_wf (workers : nat) (ops : list Op) (s s' : State) :
  well_formed workers s -> exec workers ops s = Some s' -> well_formed workers s'.
Proof.
  revert s. induction ops as [|o ops IH]; intros s Hwf; simpl.
  - intros H. inversion H. now subst.
  - destruct (apply workers o s) as [s1|] eqn:Ea; [|discriminate].
    apply IH. destruct o; simpl in Ea.
    + inversion Ea. now apply enqueue_wf.
    + eapply pull_wf; eauto.
    + eapply finish_wf; eauto.
    + eapply fire_wf; eauto.
Qed.

(** Notifications for a key in flight leave one mark for a re-run. *)
Lemma notified_in_flight (workers : nat) (k : Key) (n : nat) (s : State) :
  In k (inflight s) ->
  exists s1,
    exec workers (notifications (S n) k) s = Some s1 /\
    inflight s1 = inflight s /\
    queue s1 = queue s /\
    timers s1 = timers s /\
    In k (rerun s1) /\
    (forall x, In x (rerun s1) -> x = k \/ In x (rerun s)).
Proof.
  intros Hin.
  assert (Hstep : forall s0, In k (inflight s0) ->
            inflight (enqueue k s0) = inflight s0 /\
            queue (enqueue k s0) = queue s0 /\
            timers (enqueue k s0) = timers s0 /\
            In k (rerun (enqueue k s0)) /\
            (forall x, In x (rerun (enqueue k s0)) -> x = k \/ In x (rerun s0))).
  { intros s0 H0. unfold enqueue. apply mem_In in H0. rewrite H0.
    destruct (mem k (rerun s0)) eqn:Er; simpl.
    - apply mem_In in Er. repeat split; auto.
    - repeat split.
      + apply in_or_app. right. now left.
      + intros x Hx. apply in_app_or in Hx. destruct Hx as [Hx | [Hx | []]]; auto. }
  revert s Hin. induction n as [|n IH]; intros s Hin.
  - exists (enqueue k s). simpl. split; [reflexivity|]. now apply Hstep.
  - destruct (Hstep s Hin) as (Hi & Hq & Ht & Hk & Hr).
    assert (Hin' : In k (inflight (enqueue k s))) by now rewrite Hi.
    destruct (IH _ Hin') as (s1 & He & Hi1 & Hq1 & Ht1 & Hk1 & Hr1).
    exists s1. split; [exact He|]. repeat split; try congruence.
    intros x Hx. destruct (Hr1 x Hx) as [H | H]; auto.
Qed.
End DispatcherFacts.

(** C5: in every state the dispatcher can reach, no key has two
    reconciles in flight, at most [workers] reconciles run, and a key waits
    at most once, in the queue or as a mark on its running reconcile; a
    key in flight cannot be started again, and however many notifications
    arrive for it meanwhile, they leave one mark, which puts the key in the
    queue once when the running reconcile returns. *)
Theorem no_overlapping_reconciles
    (workers : nat) (ops : list Dispatcher.Op) (s : Dispatcher.State) :
  Dispatcher.exec workers ops Dispatcher.empty = Some s ->
  NoDup (Dispatcher.inflight s) /\
  length (Dispatcher.inflight s) <= workers /\
  (forall k,
     count_occ Dispatcher.Key_eq_dec (Dispatcher.queue s) k
       + count_occ Dispatcher.Key_eq_dec (Dispatcher.rerun s) k <= 1) /\
  (forall k, In k (Dispatcher.inflight s) -> Dispatcher.pull workers k s = None) /\
  (forall k n,
     In k (Dispatcher.inflight s) ->
     exists s1,
       Dispatcher.exec workers (Dispatcher.notifications (S n) k) s = Some s1 /\
       Dispatcher.inflight s1 = Dispatcher.inflight s /\
       count_occ Dispatcher.Key_eq_dec (Dispatcher.rerun s1) k = 1 /\
       ~ In k (Dispatcher.queue s1) /\
       forall res err,
         exists s2,
           Dispatcher.finish k res err s1 = Some s2 /\
           count_occ Dispatcher.Key_eq_dec (Dispatcher.queue s2) k = 1 /\
           ~ In k (Dispatcher.inflight s2) /\
           ~ In k (Dispatcher.rerun s2)).
Proof.
  intros Hexec.
  pose proof (DispatcherFacts.exec_wf _ (DispatcherFacts.empty_wf workers) Hexec) as Hwf.
  destruct Hwf as [Hi Hq Hr Hw Hm Hb].
  split; [exact Hi|]. split; [exact Hb|]. split; [|split].
  - intros k.
    pose proof (proj1 (NoDup_count_occ Dispatcher.Key_eq_dec _) Hq k) as H1.
    pose proof (proj1 (NoDup_count_occ Dispatcher.Key_eq_dec _) Hr k) as H2.
    destruct (in_dec Dispatcher.Key_eq_dec k (Dispatcher.rerun s)) as [Hin | Hnin].
    + assert (Hnq : ~ In k (Dispatcher.queue s)) by (intros H; exact (Hw _ H (Hm _ Hin))).
      apply (count_occ_not_In Dispatcher.Key_eq_dec) in Hnq. lia.
    + apply (count_occ_not_In Dispatcher.Key_eq_dec) in Hnin. lia.
  - intros k Hin. unfold Dispatcher.pull.
    assert (Hnq : ~ In k (Dispatcher.queue s)) by (intros H; exact (Hw _ H Hin)).
    apply DispatcherFacts.mem_not_In in Hnq. now rewrite Hnq.
  - intros k n Hin.
    destruct (DispatcherFacts.notified_in_flight workers k n s Hin)
      as (s1 & He & Hi1 & Hq1 & Ht1 & Hk1 & Hr1).
    pose proof (DispatcherFacts.exec_wf _
                  (@Build_well_formed workers s Hi Hq Hr Hw Hm Hb) He) as Hwf1.
    destruct Hwf1 as [Hi' Hq' Hr' Hw' Hm' Hb'].
    assert (Hin1 : In k (Dispatcher.inflight s1)) by now rewrite Hi1.
    assert (Hnq1 : ~ In k (Dispatcher.queue s1)) by (intros H; exact (Hw' _ H Hin1)).
    exists s1. split; [exact He|]. split; [exact Hi1|]. split; [|split; [exact Hnq1|]].
    + pose proof (proj1 (NoDup_count_occ Dispatcher.Key_eq_dec _) Hr' k) as H1.
      apply (count_occ_In Dispatcher.Key_eq_dec) in Hk1. lia.
    + intros res err. unfold Dispatcher.finish.
      rewrite (proj2 (DispatcherFacts.mem_In _ _) Hin1).
      rewrite (proj2 (DispatcherFacts.mem_In _ _) Hk1).
      eexists. split; [reflexivity|]. simpl. split; [|split].
      * rewrite count_occ_app. simpl.
        destruct (Dispatcher.Key_eq_dec k k) as [_ | Hne]; [|congruence].
        apply (count_occ_not_In Dispatcher.Key_eq_dec) in Hnq1. lia.
      * now apply DispatcherFacts.remove1_gone.
      * now apply DispatcherFacts.remove1_gone.
Qed.

Lemma no_overlapping_reconciles_witness :
  let k := sample_request "c1" in
  NoDup (Dispatcher.inflight
           {| Dispatcher.queue := [];
              Dispatcher.inflight := [k];
              Dispatcher.rerun := [k];
              Dispatcher.timers := [];
              Dispatcher.failures := fun _ => 0%nat |}).
Proof.
  intros k.
  refine (proj1 (@no_overlapping_reconciles 2
                   [Dispatcher.Notify k; Dispatcher.Pull k;
                    Dispatcher.Notify k; Dispatcher.Notify k] _ _)).
  reflexivity.
Defined.

(** ** Worked runs *)

(** With every call succeeding, the sequential part gets through and
    spawns the provider goroutine. *)
Example setup_gets_through :
  snd (run_setup sample_flags (sample_env None))
    = Ok {| run_ctx := 1%nat; run_provider := Some (provider 1); run_mgr := manager 1 |} /\
  last2 (fst (fst (run_setup sample_flags (sample_env None))))
    = Some (ELog (setupLog_Info "Starting provider" []), EGo).
Proof. split; reflexivity. Qed.

(** A failing readyz registration: the health check was registered, the
    run ends on the error line, the exit code is 1. *)
Example readyz_registration_fails :
  let run := run_setup sample_flags (sample_env (Some ReadyCheck)) in
  snd run = Halt (Exit 1) /\
  In (EAddHealthzCheck (manager 1) "healthz" healthz_Ping) (fst (fst run)) /\
  last2 (fst (fst run))
    = Some (EAddReadyzCheck (manager 1) "readyz" healthz_Ping,
            ELog (setupLog_Error (errorString "boom") "unable to set up ready check" [])).
Proof.
  repeat split. simpl. repeat (first [left; reflexivity | right]).
Qed.

(** [mgr.Start] fails while the provider keeps running: exit code 1, by
    the main goroutine. *)
Example manager_start_fails :
  status (process sample_flags (sample_env (Some ManagerRun))
            [MainT; ProviderT; MainT; MainT; MainT; MainT])
    = Ended MainT (Exit 1).
Proof. reflexivity. Qed.

(** A clean shutdown: [mgr.Start] returns nil, [main] returns. *)
Example clean_shutdown :
  status (process sample_flags (sample_env None) [MainT; ProviderT; MainT; MainT; MainT])
    = Ended MainT (Exit 0).
Proof. reflexivity. Qed.

(** No run dereferences a nil config. *)
Lemma no_nil_deref (f : Flags) (env : Env) (sched : list Tid) (who : Tid) :
  status (process f env sched) <> Ended who NilDeref.
Proof.
  intros H. destruct (run_setup f env) as [[tr h] [r | s]] eqn:Hrun.
  - destruct (process_running f env sched Hrun) as [_ [_ _ _ _ Hs]].
    unfold status_ok in Hs. rewrite H in Hs. destruct who; exact Hs.
  - rewrite (@process_stopped f env tr h s sched Hrun) in H. simpl in H.
    inversion H; subst. destruct (setup_halts _ _ Hrun) as [Hd _]. discriminate Hd.
Qed.

(** The scenario of two notifications during a running reconcile: one
    more reconcile runs after the first returns, not two. *)
Example two_notifications_one_rerun :
  let k := sample_request "c1" in
  let ok := {| Requeue := false; RequeueAfter := 0 |} in
  let history := [Dispatcher.Notify k; Dispatcher.Pull k;
                  Dispatcher.Notify k; Dispatcher.Notify k;
                  Dispatcher.Finish k ok None; Dispatcher.Pull k;
                  Dispatcher.Finish k ok None] in
  (exists s, Dispatcher.exec 4 history Dispatcher.empty = Some s /\
             Dispatcher.queue s = [] /\ Dispatcher.inflight s = [] /\
             Dispatcher.rerun s = [] /\ Dispatcher.timers s = []) /\
  Dispatcher.exec 4 (history ++ [Dispatcher.Pull k]) Dispatcher.empty = None.
Proof.
  split; [eexists; repeat split | reflexivity].
Qed.

(** The scenario of a result asking for a requeue after 30 seconds: one
    timer for the key, with that delay. *)
Example requeue_after_schedules_one_timer :
  let k := sample_request "c1" in
  let res := snd (reconcileFunc (sample_env None) (manager 1) (client 7) 0%nat k) in
  exists s,
    Dispatcher.exec 4 [Dispatcher.Notify k; Dispatcher.Pull k;
                       Dispatcher.Finish k (fst res) (snd res)] Dispatcher.empty = Some s /\
    Dispatcher.timers s = [(k, Dispatcher.After 30)] /\
    Dispatcher.queue s = [] /\ Dispatcher.inflight s = [].
Proof. eexists. repeat split. Qed.

(* ================================================================== *)
(** * Further properties of [main] *)

(** ** The TLS block, whatever the flags *)

(** What the TLS block hands on, and what it gave the webhook server. *)
Lemma tls_options_result (f : Flags) (env : Env) (h : Heap) tr h' serving :
  tls_options f env h = (tr, h', Ok serving) ->
  let tlsOpts := if enableHTTP2 f then [] else [disableHTTP2] in
  webhook_TLSOpts (Options (fst serving))
    = tlsOpts ++ (if nonempty (webhookCertPath f)
                  then [useCertWatcher (watcher_for env (webhookCertPath f)
                                          (webhookCertName f) (webhookCertKey f))]
                  else []) /\
  metrics_TLSOpts (snd serving)
    = tlsOpts ++ (if nonempty (metricsCertPath f)
                  then [useCertWatcher (watcher_for env (metricsCertPath f)
                                          (metricsCertName f) (metricsCertKey f))]
                  else []) /\
  BindAddress (snd serving) = metricsAddr f /\
  SecureServing (snd serving) = secureMetrics f /\
  FilterProvider_ (snd serving)
    = (if secureMetrics f then Some WithAuthenticationAndAuthorization else None) /\
  In (EWebhookNewServer (Options (fst serving))) tr /\
  (forall o, In (EWebhookNewServer o) tr -> o = Options (fst serving)).
Proof.
  intros H. unfold tls_options in H.
  destruct (enableHTTP2 f); paths H; simpl.
  all: repeat split; try reflexivity; try tauto.
  all: intros o Hin; in_cases Hin; now inversion Hin.
Qed.

(** Running a server's options on a config. *)
Lemma apply_server_opts (http2 : bool) (w : option CertWatcher) (base : tls_Config) :
  apply_TLSOpts ((if http2 then [] else [disableHTTP2])
                   ++ match w with Some x => [useCertWatcher x] | None => [] end) base
  = ((if http2 then [] else [setupLog_Info "disabling http/2" []]),
     {| NextProtos := if http2 then NextProtos base else ["http/1.1"];
        GetCertificate := match w with Some x => Some x | None => GetCertificate base end;
        MinVersion := MinVersion base |}).
Proof. destruct http2, w, base; reflexivity. Qed.

Lemma apply_server_opts_cert (http2 : bool) (x : CertWatcher) (base : tls_Config) :
  apply_TLSOpts ((if http2 then [] else [disableHTTP2]) ++ [useCertWatcher x]) base
  = ((if http2 then [] else [setupLog_Info "disabling http/2" []]),
     {| NextProtos := if http2 then NextProtos base else ["http/1.1"];
        GetCertificate := Some x;
        MinVersion := MinVersion base |}).
Proof. exact (apply_server_opts http2 (Some x) base). Qed.

Lemma apply_server_opts_plain (http2 : bool) (base : tls_Config) :
  apply_TLSOpts ((if http2 then [] else [disableHTTP2]) ++ []) base
  = ((if http2 then [] else [setupLog_Info "disabling http/2" []]),
     {| NextProtos := if http2 then NextProtos base else ["http/1.1"];
        GetCertificate := GetCertificate base;
        MinVersion := MinVersion base |}).
Proof. exact (apply_server_opts http2 None base). Qed.

(** The certificate watchers the TLS block builds when it gets through. *)
Lemma tls_options_watchers (f : Flags) (env : Env) (h : Heap) tr h' serving certFile keyFile :
  tls_options f env h = (tr, h', Ok serving) ->
  In (ECertwatcherNew certFile keyFile) tr <->
  (nonempty (webhookCertPath f) = true /\
   certFile = filepath_Join env (webhookCertPath f) (webhookCertName f) /\
   keyFile = filepath_Join env (webhookCertPath f) (webhookCertKey f)) \/
  (nonempty (metricsCertPath f) = true /\
   certFile = filepath_Join env (metricsCertPath f) (metricsCertName f) /\
   keyFile = filepath_Join env (metricsCertPath f) (metricsCertKey f)).
Proof.
  intros H. unfold tls_options in H. paths H; simpl.
  all: split;
    [ intros Hin; in_cases Hin; inversion Hin; subst; auto
    | intros [(Hn & -> & ->) | (Hn & -> & ->)]; try discriminate Hn; auto 10 ].
Qed.

(** The one [mcmanager.New] call of the component block and its options. *)
Lemma components_manager_event (f : Flags) (env : Env) ws mo ctx c0 c1 tr h res cfg p o :
  components f env ws mo ctx 1%nat [c0; c1] = (tr, h, res) ->
  In (EManagerNew cfg p o) tr ->
  cfg = 1%nat /\
  virtualworkspace_New env c1 APIBinding clientgoscheme_Scheme = inl p /\
  o = {| opt_Scheme := clientgoscheme_Scheme;
         Metrics := mo;
         WebhookServer := ws;
         HealthProbeBindAddress := probeAddr f;
         LeaderElection := enableLeaderElection f;
         LeaderElectionID := "e3eac106.contrib.kcp.io" |} /\
  (forall e, In e tr -> forall c k, e <> ECertwatcherNew c k).
Proof.
  intros H Hin. unfold components in H. paths H; in_cases Hin.
  all: inversion Hin; subst; repeat split; try assumption.
  all: intros ev Hev cw kw ->; in_cases Hev.
Qed.

(** A run that has created the manager got through the TLS block; the
    manager's options hold what that block handed on. *)
Lemma manager_created (f : Flags) (env : Env) tr h res cfg p o :
  run_setup f env = (tr, h, res) ->
  In (EManagerNew cfg p o) tr ->
  exists t1 serving,
    tls_options f env [] = (t1, [], Ok serving) /\
    o = {| opt_Scheme := clientgoscheme_Scheme;
           Metrics := snd serving;
           WebhookServer := fst serving;
           HealthProbeBindAddress := probeAddr f;
           LeaderElection := enableLeaderElection f;
           LeaderElectionID := "e3eac106.contrib.kcp.io" |} /\
    (forall c k, In (ECertwatcherNew c k) tr <-> In (ECertwatcherNew c k) t1) /\
    (forall e, In e t1 -> In e tr).
Proof.
  intros Hrun Hin.
  destruct (late_event _ _ _ Hrun Hin eq_refl) as [t3 [Hr Hin3]].
  destruct Hr as (t1 & t2 & serving & c0 & Htls & _ & Hcomp & Htr & Hev1 & Hev2).
  destruct (@components_manager_event f env _ _ _ _ _ _ _ _ _ _ _ Hcomp Hin3)
    as (_ & _ & Ho & Hnone).
  exists t1, serving. split; [exact Htls|]. split; [exact Ho|].
  split; [|intros e He; subst tr; apply in_or_app; now left].
  intros c k. subst tr. split.
  - intros H. apply in_app_or in H. destruct H as [H | H]; [exact H|].
    apply in_app_or in H. destruct H as [H | H].
    + rewrite forallb_forall in Hev2. specialize (Hev2 _ H). discriminate Hev2.
    + destruct (Hnone _ H c k eq_refl).
  - intros H. apply in_or_app. now left.
Qed.

(** X1: the [--enable-http2] flag alone decides what the options of both
    servers do to the negotiable protocols: set, they leave [NextProtos]
    as it is and log nothing; unset, they make it [["http/1.1"]] and log
    "disabling http/2" once per config.  [MinVersion] is never touched. *)
Theorem http2_flag_decides_protocols
    (f : Flags) (env : Env) (tr : list Event) (h : Heap) (res : Res Running)
    (cfg : ConfigRef) (p : option Provider) (o : ctrl_Options) (base : tls_Config) :
  run_setup f env = (tr, h, res) ->
  In (EManagerNew cfg p o) tr ->
  let webhook := apply_TLSOpts (webhook_TLSOpts (Options (WebhookServer o))) base in
  let metrics := apply_TLSOpts (metrics_TLSOpts (Metrics o)) base in
  let protos := if enableHTTP2 f then NextProtos base else ["http/1.1"] in
  let lines := if enableHTTP2 f then [] else [setupLog_Info "disabling http/2" []] in
  NextProtos (snd webhook) = protos /\
  NextProtos (snd metrics) = protos /\
  fst webhook = lines /\
  fst metrics = lines /\
  MinVersion (snd webhook) = MinVersion base /\
  MinVersion (snd metrics) = MinVersion base.
Proof.
  intros Hrun Hin.
  destruct (manager_created _ _ _ _ _ Hrun Hin) as (t1 & serving & Htls & Ho & _).
  destruct (tls_options_result _ _ _ Htls) as (Hw & Hm & _).
  subst o. simpl. rewrite Hw, Hm.
  destruct (nonempty (webhookCertPath f)), (nonempty (metricsCertPath f));
    rewrite ?apply_server_opts_cert, ?apply_server_opts_plain; repeat split.
Qed.

Lemma http2_flag_decides_protocols_witness :
  let base := {| NextProtos := ["h2"; "http/1.1"]; GetCertificate := None; MinVersion := 771 |} in
  exists cfg p o,
    In (EManagerNew cfg p o) (fst (fst (run_setup sample_flags (sample_env None)))) /\
    NextProtos (snd (apply_TLSOpts (metrics_TLSOpts (Metrics o)) base)) = ["http/1.1"].
Proof.
  intros base.
  assert (Hin : exists cfg p o,
             In (EManagerNew cfg p o) (fst (fst (run_setup sample_flags (sample_env None)))))
    by (do 3 eexists; simpl; repeat (first [left; reflexivity | right])).
  destruct Hin as (cfg & p & o & Hin). exists cfg, p, o. split; [exact Hin|].
  exact (proj1 (proj2 (@http2_flag_decides_protocols sample_flags (sample_env None)
                         _ _ _ cfg p o base eq_refl Hin))).
Defined.

(** X2: each server gets its own certificate source.  The webhook
    server's options set [GetCertificate] to the watcher on the webhook
    certificate and key exactly when [--webhook-cert-path] is not empty,
    the metrics server's to the watcher on the metrics files exactly when
    [--metrics-cert-path] is not empty; otherwise they leave the field as
    it is.  Watchers are created for these files and for no others. *)
Theorem each_server_gets_its_own_certificates
    (f : Flags) (env : Env) (tr : list Event) (h : Heap) (res : Res Running)
    (cfg : ConfigRef) (p : option Provider) (o : ctrl_Options) :
  run_setup f env = (tr, h, res) ->
  In (EManagerNew cfg p o) tr ->
  (forall base,
     GetCertificate (snd (apply_TLSOpts (webhook_TLSOpts (Options (WebhookServer o))) base))
       = if nonempty (webhookCertPath f)
         then Some (watcher_for env (webhookCertPath f) (webhookCertName f) (webhookCertKey f))
         else GetCertificate base) /\
  (forall base,
     GetCertificate (snd (apply_TLSOpts (metrics_TLSOpts (Metrics o)) base))
       = if nonempty (metricsCertPath f)
         then Some (watcher_for env (metricsCertPath f) (metricsCertName f) (metricsCertKey f))
         else GetCertificate base) /\
  (forall certFile keyFile,
     In (ECertwatcherNew certFile keyFile) tr <->
     (webhookCertPath f <> "" /\
      {| certPath := certFile; keyPath := keyFile |}
        = watcher_for env (webhookCertPath f) (webhookCertName f) (webhookCertKey f)) \/
     (metricsCertPath f <> "" /\
      {| certPath := certFile; keyPath := keyFile |}
        = watcher_for env (metricsCertPath f) (metricsCertName f) (metricsCertKey f))).
Proof.
  intros Hrun Hin.
  destruct (manager_created _ _ _ _ _ Hrun Hin) as (t1 & serving & Htls & Ho & Hcw & _).
  destruct (tls_options_result _ _ _ Htls) as (Hw & Hm & _).
  subst o. simpl. rewrite Hw, Hm.
  split; [|split].
  - intros base. destruct (nonempty (webhookCertPath f));
      rewrite ?apply_server_opts_cert, ?apply_server_opts_plain; reflexivity.
  - intros base. destruct (nonempty (metricsCertPath f));
      rewrite ?apply_server_opts_cert, ?apply_server_opts_plain; reflexivity.
  - intros certFile keyFile. rewrite Hcw, (tls_options_watchers _ _ _ certFile keyFile Htls).
    rewrite <- !nonempty_spec. unfold watcher_for.
    split; intros [(Hn & H) | (Hn & H)].
    + left. destruct H as [-> ->]. auto.
    + right. destruct H as [-> ->]. auto.
    + left. inversion H. auto.
    + right. inversion H. auto.
Qed.

Lemma each_server_gets_its_own_certificates_witness :
  exists cfg p o,
    In (EManagerNew cfg p o) (fst (fst (run_setup sample_flags (sample_env None)))) /\
    forall base,
      GetCertificate (snd (apply_TLSOpts (metrics_TLSOpts (Metrics o)) base))
        = Some {| certPath := "/metrics/tls.crt"; keyPath := "/metrics/tls.key" |}.
Proof.
  assert (Hin : exists cfg p o,
             In (EManagerNew cfg p o) (fst (fst (run_setup sample_flags (sample_env None)))))
    by (do 3 eexists; simpl; repeat (first [left; reflexivity | right])).
  destruct Hin as (cfg & p & o & Hin). exists cfg, p, o. split; [exact Hin|].
  exact (proj1 (proj2 (@each_server_gets_its_own_certificates sample_flags (sample_env None)
                         _ _ _ cfg p o eq_refl Hin))).
Defined.

(** X3: the manager is configured from the flags: the metrics server
    binds to [--metrics-bind-address], serves securely as [--metrics-secure]
    says and is protected by the authentication and authorization filter
    exactly when it serves securely; the probes bind to
    [--health-probe-bind-address]; leader election is as [--leader-elect]
    says, under the fixed id. *)
Theorem manager_options_follow_flags
    (f : Flags) (env : Env) (tr : list Event) (h : Heap) (res : Res Running)
    (cfg : ConfigRef) (p : option Provider) (o : ctrl_Options) :
  run_setup f env = (tr, h, res) ->
  In (EManagerNew cfg p o) tr ->
  BindAddress (Metrics o) = metricsAddr f /\
  SecureServing (Metrics o) = secureMetrics f /\
  (FilterProvider_ (Metrics o) = Some WithAuthenticationAndAuthorization
     <-> secureMetrics f = true) /\
  HealthProbeBindAddress o = probeAddr f /\
  LeaderElection o = enableLeaderElection f /\
  LeaderElectionID o = "e3eac106.contrib.kcp.io" /\
  In (EWebhookNewServer (Options (WebhookServer o))) tr /\
  (forall o', In (EWebhookNewServer o') tr -> o' = Options (WebhookServer o)).
Proof.
  intros Hrun Hin.
  destruct (manager_created _ _ _ _ _ Hrun Hin) as (t1 & serving & Htls & Ho & _ & Hsub).
  destruct (tls_options_result _ _ _ Htls) as (_ & _ & Hb & Hs & Hf & Hws & Hone).
  subst o. simpl.
  split; [exact Hb|]. split; [exact Hs|]. split.
  { rewrite Hf. destruct (secureMetrics f); split; intros H; try reflexivity; discriminate H. }
  repeat split.
  - now apply Hsub.
  - intros o' Hin'.
    destruct (webhook_event_in_tls _ _ _ Hrun Hin') as (t1' & r1 & Htls' & Hin1).
    rewrite Htls in Htls'. inversion Htls'; subst. now apply Hone.
Qed.

Lemma manager_options_follow_flags_witness :
  exists cfg p o,
    In (EManagerNew cfg p o) (fst (fst (run_setup sample_flags (sample_env None)))) /\
    BindAddress (Metrics o) = ":8443" /\ SecureServing (Metrics o) = true.
Proof.
  assert (Hin : exists cfg p o,
             In (EManagerNew cfg p o) (fst (fst (run_setup sample_flags (sample_env None)))))
    by (do 3 eexists; simpl; repeat (first [left; reflexivity | right])).
  destruct Hin as (cfg & p & o & Hin). exists cfg, p, o. split; [exact Hin|].
  destruct (@manager_options_follow_flags sample_flags (sample_env None)
              _ _ _ cfg p o eq_refl Hin) as (H1 & H2 & _).
  split; assumption.
Defined.

(** ** The configs and who gets them *)

(** The component block on the heap that holds the loaded config and its
    copy: it writes neither, allocates at most one config, and uses them
    as follows. *)
Lemma components_configs (f : Flags) (env : Env) ws mo ctx c0 c1 tr h res :
  components f env ws mo ctx 1%nat [c0; c1] = (tr, h, res) ->
  let path := filepath_Clean env (providerKubeConfig f) in
  load h 0 = Some c0 /\
  load h 1 = Some c1 /\
  length h <= 3 /\
  (forall cfg obj s, In (EVirtualworkspaceNew cfg obj s) tr -> cfg = 1%nat) /\
  (forall p, In (EStat p) tr -> p = path) /\
  (forall m p, In (EBuildConfigFromFlags m p) tr ->
     m = "" /\ p = path /\ In (EStat path) tr /\ os_Stat env path = None) /\
  (forall config s, In (EClientNew config s) tr ->
     config = 2%nat /\
     In (EBuildConfigFromFlags "" path) tr /\
     exists c, BuildConfigFromFlags env "" path = inl c /\ load h 2 = Some c) /\
  (forall e, In e tr -> e <> EGetConfigOrDie).
Proof.
  intros H. unfold components in H. paths H; simpl.
  all: split; [reflexivity|]; split; [reflexivity|]; split; [lia|].
  all: split; [intros cfg obj s Hin; in_cases Hin; now inversion Hin|].
  all: split; [intros p' Hin; in_cases Hin; now inversion Hin|].
  all: split; [intros m' p' Hin; in_cases Hin; inversion Hin; subst;
               repeat split; auto; tauto|].
  all: split; [intros config s Hin; in_cases Hin; inversion Hin; subst;
               (split; [reflexivity|split; [tauto|]]);
               eexists; (split; [eassumption | reflexivity])|].
  all: intros ev Hev ->; in_cases Hev.
Qed.

(** X4: through the whole start-up the config loaded by
    [ctrl.GetConfigOrDie] is never written; the provider and the manager
    are both given the copy, which is the loaded config with [Host]
    replaced by [--server] when that flag is set, and the manager is given
    the provider that [virtualworkspace.New] returned for that config.  No
    more than three configs are ever allocated. *)
Theorem provider_and_manager_share_the_copy
    (f : Flags) (env : Env) (tr : list Event) (h : Heap) (res : Res Running)
    (c0 : rest_Config) :
  run_setup f env = (tr, h, res) ->
  In EGetConfigOrDie tr ->
  GetConfigOrDie env = Some c0 ->
  load h 0 = Some c0 /\
  load h 1 = Some (overridden f c0) /\
  length h <= 3 /\
  (forall cfg obj s, In (EVirtualworkspaceNew cfg obj s) tr -> cfg = 1%nat) /\
  (forall cfg p o,
     In (EManagerNew cfg p o) tr ->
     cfg = 1%nat /\
     virtualworkspace_New env (overridden f c0) APIBinding clientgoscheme_Scheme = inl p).
Proof.
  intros Hrun Hin Hcfg0. destruct (setup_inv _ _ Hrun).
  - destruct (tls_options_frame _ _ _ Htls) as [_ Hev].
    rewrite forallb_forall in Hev. specialize (Hev _ Hin). discriminate Hev.
  - congruence.
  - rewrite Hcfg in Hcfg0. inversion Hcfg0; subst c1. clear Hcfg0.
    destruct (@components_configs f env _ _ _ _ _ _ _ _ Hcomp)
      as (H0 & H1 & Hlen & Hvw & _).
    split; [exact H0|]. split; [exact H1|]. split; [exact Hlen|].
    assert (Hlate : forall e, In e tr -> is_early_event e = false -> In e t3).
    { intros e He Hearly. destruct (late_event _ _ _ Hrun He Hearly) as [t3' [Hr Hin3]].
      destruct Hr as (t1' & t2' & serving' & c0' & Htls' & Hcfg' & Hcomp' & _).
      rewrite Htls in Htls'. inversion Htls'; subst serving'.
      rewrite Hcfg in Hcfg'. inversion Hcfg'; subst c0'.
      rewrite Hcomp in Hcomp'. inversion Hcomp'. now subst. }
    split.
    + intros cfg obj s He. exact (Hvw _ _ _ (Hlate _ He eq_refl)).
    + intros cfg p o He.
      destruct (@components_manager_event f env _ _ _ _ _ _ _ _ _ _ _ Hcomp
                  (Hlate _ He eq_refl)) as (Hc & Hp & _).
      auto.
Qed.

Lemma provider_and_manager_share_the_copy_witness :
  let run := run_setup sample_flags (sample_env None) in
  load (snd (fst run)) 0 = Some sample_config /\
  load (snd (fst run)) 1 = Some (set_Host sample_config "https://override:443").
Proof.
  intros run.
  destruct (@provider_and_manager_share_the_copy sample_flags (sample_env None)
              _ _ _ sample_config eq_refl) as (H0 & H1 & _).
  - simpl. repeat (first [left; reflexivity | right]).
  - reflexivity.
  - split; [exact H0 | exact H1].
Defined.

(** X5: the client of the provider cluster is built from its own config
    object, which holds exactly what [clientcmd.BuildConfigFromFlags]
    returned for the empty master URL and the cleaned
    [--provider-kubeconfig] path, the same path [os.Stat] had accepted;
    the [--server] override does not reach it. *)
Theorem bridge_client_config_is_the_kubeconfig
    (f : Flags) (env : Env) (tr : list Event) (h : Heap) (res : Res Running)
    (config : ConfigRef) (scheme : SchemeRef) :
  run_setup f env = (tr, h, res) ->
  In (EClientNew config scheme) tr ->
  let path := filepath_Clean env (providerKubeConfig f) in
  config <> 0%nat /\ config <> 1%nat /\
  (exists c, BuildConfigFromFlags env "" path = inl c /\ load h config = Some c) /\
  os_Stat env path = None /\
  (forall p, In (EStat p) tr <-> p = path) /\
  (forall m p, In (EBuildConfigFromFlags m p) tr <-> m = "" /\ p = path).
Proof.
  intros Hrun Hin path.
  destruct (late_event _ _ _ Hrun Hin eq_refl) as [t3 [Hr Hin3]].
  destruct Hr as (t1 & t2 & serving & c0 & Htls & Hcfg & Hcomp & Htr & Hev1 & Hev2).
  destruct (@components_configs f env _ _ _ _ _ _ _ _ Hcomp)
    as (_ & _ & _ & _ & Hstat & Hbuild & Hclient & _).
  destruct (Hclient _ _ Hin3) as (-> & Hb & c & Hc & Hl).
  destruct (Hbuild _ _ Hb) as (_ & _ & Hs & Hok).
  assert (Hlate : forall e, In e tr -> is_early_event e = false -> In e t3).
  { intros e He Hearly. subst tr. rewrite app_assoc in He.
    apply in_app_or in He. destruct He as [He | He]; [|exact He].
    pose proof (early_events _ _ Hev1 Hev2) as Hall.
    rewrite forallb_forall in Hall. rewrite (Hall e He) in Hearly. discriminate. }
  assert (Hsub : forall e, In e t3 -> In e tr).
  { intros e He. subst tr. do 2 (apply in_or_app; right). exact He. }
  split; [discriminate|]. split; [discriminate|].
  split; [exists c; auto|]. split; [exact Hok|]. split.
  - intros p. split.
    + intros He. exact (Hstat _ (Hlate _ He eq_refl)).
    + intros ->. now apply Hsub.
  - intros m p. split.
    + intros He. destruct (Hbuild _ _ (Hlate _ He eq_refl)) as (-> & -> & _). auto.
    + intros [-> ->]. now apply Hsub.
Qed.

Lemma bridge_client_config_is_the_kubeconfig_witness :
  exists c,
    BuildConfigFromFlags (sample_env None) "" "/etc/provider.kubeconfig" = inl c /\
    load (snd (fst (run_setup sample_flags (sample_env None)))) 2 = Some c /\
    Host c = "/etc/provider.kubeconfig".
Proof.
  destruct (@bridge_client_config_is_the_kubeconfig sample_flags (sample_env None)
              _ _ _ 2%nat clientgoscheme_Scheme eq_refl)
    as (_ & _ & (c & Hc & Hl) & _).
  - simpl. repeat (first [left; reflexivity | right]).
  - exists c. repeat split; try assumption.
    simpl in Hc. inversion Hc. reflexivity.
Defined.

(** ** The remaining fatal paths *)

(** In the TLS block a failed [certwatcher.New] is followed by its error
    line and [os.Exit(1)]. *)
Lemma tls_options_watcher_fails (f : Flags) (env : Env) (h : Heap) tr h' res
    certFile keyFile err :
  tls_options f env h = (tr, h', res) ->
  In (ECertwatcherNew certFile keyFile) tr ->
  certwatcher_New env certFile keyFile = Some err ->
  res = Halt (Exit 1) /\
  exists sub kvs,
    (sub = WebhookCertWatcher \/ sub = MetricsCertWatcher) /\
    last2 tr = Some (ECertwatcherNew certFile keyFile,
                     ELog (setupLog_Error err (fatal_message sub) kvs)).
Proof.
  intros H Hin Ho. unfold tls_options in H. paths H; in_cases Hin.
  all: inversion Hin; subst certFile keyFile; try congruence.
  all: match goal with
       | H1 : certwatcher_New _ ?a ?b = Some ?e, H2 : certwatcher_New _ ?a ?b = Some ?e' |- _ =>
           tryif constr_eq e e' then fail
           else (assert (e = e') by congruence; subst e)
       end.
  all: split; [reflexivity|].
  all: first [ exists WebhookCertWatcher; eexists; split; [now left | reflexivity]
             | exists MetricsCertWatcher; eexists; split; [now right | reflexivity] ].
Qed.

(** The component block builds no certificate watcher. *)
Lemma components_no_watcher (f : Flags) (env : Env) ws mo ctx c0 c1 tr h res certFile keyFile :
  components f env ws mo ctx 1%nat [c0; c1] = (tr, h, res) ->
  ~ In (ECertwatcherNew certFile keyFile) tr.
Proof.
  intros H Hin. unfold components in H. paths H; in_cases Hin.
Qed.

(** X6: a certificate watcher that cannot be initialized ends the process
    with exit code 1 right after its error line, before the discovery
    config is loaded: no config has been allocated and nothing but logging,
    watchers and the webhook server object has been touched. *)
Theorem certificate_watcher_failure_is_fatal
    (f : Flags) (env : Env) (tr : list Event) (h : Heap) (res : Res Running)
    (certFile keyFile : string) (err : error) :
  run_setup f env = (tr, h, res) ->
  In (ECertwatcherNew certFile keyFile) tr ->
  certwatcher_New env certFile keyFile = Some err ->
  res = Halt (Exit 1) /\
  (exists sub kvs,
     (sub = WebhookCertWatcher \/ sub = MetricsCertWatcher) /\
     last2 tr = Some (ECertwatcherNew certFile keyFile,
                      ELog (setupLog_Error err (fatal_message sub) kvs))) /\
  h = [] /\
  forallb is_tls_event tr = true /\
  ~ In EGetConfigOrDie tr /\
  forall sched,
    status (process f env sched) = Ended MainT (Exit 1) /\
    map snd (trace (process f env sched)) = tr.
Proof.
  intros Hrun Hin Ho.
  assert (Hcase : exists s, tls_options f env [] = (tr, [], Halt s) /\ res = Halt s /\ h = []).
  { destruct (setup_inv _ _ Hrun).
    - exists s. auto.
    - exfalso. subst tr. apply in_app_or in Hin. destruct Hin as [Hin | Hin].
      + destruct (tls_options_watcher_fails _ _ _ _ _ Htls Hin Ho) as [H _]. discriminate H.
      + in_cases Hin.
    - exfalso. subst tr. apply in_app_or in Hin. destruct Hin as [Hin | Hin].
      + destruct (tls_options_watcher_fails _ _ _ _ _ Htls Hin Ho) as [H _]. discriminate H.
      + apply in_app_or in Hin. destruct Hin as [Hin | Hin].
        * rewrite discovery_config_fresh, Hcfg in Hdisc. inversion Hdisc. subst t2.
          destruct (nonempty (server f)); in_cases Hin.
        * exact (@components_no_watcher f env _ _ _ _ _ _ _ _ _ _ Hcomp Hin). }
  destruct Hcase as (s & Htls & -> & ->).
  destruct (tls_options_watcher_fails _ _ _ _ _ Htls Hin Ho) as [Hres Hlast].
  destruct (tls_options_frame _ _ _ Htls) as [_ Hev].
  inversion Hres; subst s.
  split; [reflexivity|]. split; [exact Hlast|]. split; [reflexivity|]. split; [exact Hev|].
  split.
  - intros H. rewrite forallb_forall in Hev. specialize (Hev _ H). discriminate Hev.
  - intros sched. exact (stopped_process f env sched Hrun).
Qed.

Lemma certificate_watcher_failure_is_fatal_witness :
  let run := run_setup sample_flags (sample_env (Some MetricsCertWatcher)) in
  snd run = Halt (Exit 1) /\ snd (fst run) = [].
Proof.
  intros run.
  destruct (@certificate_watcher_failure_is_fatal sample_flags
              (sample_env (Some MetricsCertWatcher)) _ _ _
              "/metrics/tls.crt" "/metrics/tls.key" (errorString "boom") eq_refl)
    as (H1 & _ & H2 & _).
  - simpl. repeat (first [left; reflexivity | right]).
  - reflexivity.
  - split; [exact H1 | exact H2].
Defined.

(** X7: when [mcmanager.New] or the registration of the controller fails,
    the next two things [main] does are that step's error line and
    [os.Exit(1)]: no health check is registered, no provider goroutine is
    started, [mgr.Start] is never called, and after a failed
    [mcmanager.New] no reconcile function is registered. *)
Theorem manager_failure_is_fatal
    (f : Flags) (env : Env) (tr : list Event) (h : Heap) (res : Res Running)
    (sub : Subsystem) (err : error) :
  run_setup f env = (tr, h, res) ->
  ManagerFailure env tr h sub err ->
  res = Halt (Exit 1) /\
  (exists call kvs,
     last2 tr = Some (call, ELog (setupLog_Error err (fatal_message sub) kvs)) /\
     attempts call sub = true) /\
  (forall m name check, ~ In (EAddHealthzCheck m name check) tr) /\
  (forall m name check, ~ In (EAddReadyzCheck m name check) tr) /\
  ~ In EGo tr /\
  (sub = ControllerManager -> forall m name kind fn, ~ In (EControllerComplete m name kind fn) tr) /\
  forall sched,
    status (process f env sched) = Ended MainT (Exit 1) /\
    map snd (trace (process f env sched)) = tr.
Proof.
  intros Hrun Hfail.
  assert (Hmain : res = Halt (Exit 1) /\
            (exists call kvs,
               last2 tr = Some (call, ELog (setupLog_Error err (fatal_message sub) kvs)) /\
               attempts call sub = true) /\
            (forall e, In e tr -> is_early_event e = false ->
               match e with
               | EAddHealthzCheck _ _ _ | EAddReadyzCheck _ _ _ | EGo => False
               | EControllerComplete _ _ _ _ => sub <> ControllerManager
               | _ => True
               end)).
  { destruct Hfail as [cfg p o c err Hin Hl Ho | m name kind fn err Hin Ho].
    - destruct (late_event _ _ _ Hrun Hin eq_refl) as [t3 [Hr Hin3]].
      destruct Hr as (t1 & t2 & serving & c0 & _ & _ & Hcomp & Htr & Hev).
      unfold components in Hcomp. paths Hcomp; in_cases Hin3.
      all: inversion Hin3; subst cfg p o; simpl in Hl; inversion Hl; subst c;
        try congruence.
      assert (e = err) by congruence. subst e.
      split; [reflexivity|]. split.
      + do 2 eexists. split; [last2_of_components | reflexivity].
      + intros e He Hearly.
        rewrite app_assoc in He. apply in_app_or in He. destruct He as [He | He].
        * pose proof (early_events _ _ (proj1 Hev) (proj2 Hev)) as Hall.
          rewrite forallb_forall in Hall. rewrite (Hall e He) in Hearly. discriminate.
        * in_cases He; subst e; exact I.
    - destruct (late_event _ _ _ Hrun Hin eq_refl) as [t3 [Hr Hin3]].
      destruct Hr as (t1 & t2 & serving & c0 & _ & _ & Hcomp & Htr & Hev).
      unfold components in Hcomp. paths Hcomp; in_cases Hin3.
      all: inversion Hin3; subst m name kind; try congruence.
      assert (e = err) by congruence. subst e.
      split; [reflexivity|]. split.
      + do 2 eexists. split; [last2_of_components | reflexivity].
      + intros e He Hearly.
        rewrite app_assoc in He. apply in_app_or in He. destruct He as [He | He].
        * pose proof (early_events _ _ (proj1 Hev) (proj2 Hev)) as Hall.
          rewrite forallb_forall in Hall. rewrite (Hall e He) in Hearly. discriminate.
        * in_cases He; subst e; try exact I. discriminate. }
  destruct Hmain as (Hres & Hlast & Hnone).
  split; [exact Hres|]. split; [exact Hlast|].
  split; [intros m name check Hin; exact (Hnone _ Hin eq_refl)|].
  split; [intros m name check Hin; exact (Hnone _ Hin eq_refl)|].
  split; [intros Hin; exact (Hnone _ Hin eq_refl)|].
  split; [intros Hs m name kind fn Hin; exact (Hnone _ Hin eq_refl Hs)|].
  intros sched. subst res. exact (stopped_process f env sched Hrun).
Qed.

Lemma manager_failure_is_fatal_witness :
  snd (run_setup sample_flags (sample_env (Some ApplicationController))) = Halt (Exit 1).
Proof.
  refine (proj1 (@manager_failure_is_fatal sample_flags
                   (sample_env (Some ApplicationController)) _ _ _
                   ApplicationController (errorString "boom") eq_refl _)).
  eapply CompleteFails with (m := manager 1) (name := "kcp-applications-controller")
                            (kind := Application).
  - simpl. repeat (first [left; reflexivity | right]).
  - reflexivity.
Defined.

(** ** The two threads, once start-up is through *)

(** The provider goroutine exists exactly when the provider is not nil. *)
Lemma goroutine_iff_provider (f : Flags) (env : Env) (r : Running) (sched : list Tid)
    (p : Proc) :
  (go_pc p = GAbsent <-> run_provider r = None) ->
  (go_pc (run f env r sched p) = GAbsent <-> run_provider r = None).
Proof.
  revert p. induction sched as [|t sched IH]; intros p H; [exact H|].
  simpl. apply IH. unfold step. destruct (status p); [|exact H]. destruct t.
  - unfold main_step. destruct (main_pc p); try destruct (mgr_Start env); exact H.
  - unfold provider_step.
    destruct (go_pc p) eqn:Eg; try destruct (provider_Run env); unfold advance; simpl;
      try (rewrite Eg; exact H).
    all: split; intros H'; [discriminate H' | apply H in H'; discriminate H'].
Qed.

Lemma spawned_goroutine (r : Running) (t0 : list Event) :
  go_pc (spawned r t0) = GAbsent <-> run_provider r = None.
Proof.
  unfold spawned. simpl. destruct (run_provider r); split; intros H; try reflexivity;
    discriminate H.
Qed.

(** The sequential part calls neither [mgr.Start] nor [provider.Run]. *)
Lemma setup_makes_no_blocking_call (f : Flags) (env : Env) tr h res (e : Event) :
  run_setup f env = (tr, h, res) ->
  In e tr ->
  is_start_call e = false /\ is_run_call e = false.
Proof.
  intros Hrun Hin.
  destruct (is_start_call e || is_run_call e) eqn:E.
  - exfalso.
    assert (He : is_early_event e = false) by (destruct e; try discriminate E; reflexivity).
    destruct (late_event _ _ _ Hrun Hin He) as [t3 [Hr Hin3]].
    destruct Hr as (t1 & t2 & serving & c0 & _ & _ & Hcomp & _).
    unfold components in Hcomp. paths Hcomp; in_cases Hin3; subst e; discriminate E.
  - apply orb_false_elim in E. exact E.
Qed.

(** What a run that gets through leaves for the two threads. *)
Lemma setup_ok_running (f : Flags) (env : Env) tr h r :
  run_setup f env = (tr, h, Ok r) ->
  run_ctx r = SetupSignalHandler env /\
  (run_provider r = None <-> ~ In EGo tr) /\
  (forall pr, run_provider r = Some pr ->
     last2 tr = Some (ELog (setupLog_Info "Starting provider" []), EGo)) /\
  (run_provider r = None ->
     ~ In (ELog (setupLog_Info "Starting provider" [])) tr).
Proof.
  intros Hrun.
  destruct (setup_cases _ _ Hrun) as [(_ & _ & s & Hs & _) | [t3 Hr]]; [discriminate Hs|].
  destruct Hr as (t1 & t2 & serving & c0 & Htls & _ & Hcomp & Htr & Hev1 & Hev2).
  assert (Hearly : forall e, In e (t1 ++ t2 ++ t3) -> is_early_event e = false -> In e t3).
  { intros e He Hn. rewrite app_assoc in He.
    apply in_app_or in He. destruct He as [He | He]; [|exact He].
    pose proof (early_events _ _ Hev1 Hev2) as Hall.
    rewrite forallb_forall in Hall. rewrite (Hall e He) in Hn. discriminate. }
  assert (Hlog : forall e, In e t1 -> e <> ELog (setupLog_Info "Starting provider" [])).
  { intros e He ->. unfold tls_options in Htls. paths Htls; in_cases He; discriminate He. }
  assert (Hlog2 : forall e, In e t2 -> e <> ELog (setupLog_Info "Starting provider" [])).
  { intros e He ->. rewrite forallb_forall in Hev2. specialize (Hev2 _ He). discriminate. }
  unfold components in Hcomp. paths Hcomp; simpl.
  all: split; [reflexivity|]; split; [|split].
  all: try (split; [discriminate | intros Hn; exfalso; apply Hn;
                    do 2 (apply in_or_app; right); simpl; tauto]).
  all: try (split; [intros _ Hn; apply Hearly in Hn; [in_cases Hn | reflexivity]
                   | reflexivity]).
  all: try (intros pr Hpr; inversion Hpr; last2_of_components).
  all: try discriminate.
  all: intros _ Hn; apply in_app_or in Hn; destruct Hn as [Hn | Hn];
    [exact (Hlog _ Hn eq_refl)|];
    apply in_app_or in Hn; destruct Hn as [Hn | Hn];
    [exact (Hlog2 _ Hn eq_refl) | in_cases Hn; discriminate Hn].
Qed.

(** ** [main] as a whole *)

Lemma settle_trace (todo : list Event) (res : Res Running) (p : Proc) :
  trace (snd (settle todo res p)) = trace p.
Proof. destruct todo, res; reflexivity. Qed.

(** Where [settle] leaves [main], [done] being what it has made of [tr]. *)
Lemma settle_ok (f : Flags) (env : Env) tr h res (done todo : list Event) (p : Proc)
    (hd : option nat) (sg : bool) :
  run_setup f env = (tr, h, res) ->
  tr = done ++ todo ->
  main_pc p = MStopped ->
  go_pc p = GAbsent ->
  trace p = map (pair MainT) done ->
  status p = Alive ->
  phase_ok f env tr res
    {| phase := fst (settle todo res p); proc := snd (settle todo res p);
       handler := hd; signalled := sg |}.
Proof.
  intros Hrun Htr Hm Hg Ht Hs. unfold phase_ok.
  destruct todo as [|e rest], res as [r | s]; simpl.
  - rewrite app_nil_r in Htr. subst done.
    split; [reflexivity|]. split.
    + split; simpl.
      * exact I.
      * destruct (run_provider r); exact I.
      * rewrite Ht, thread_events_own, app_nil_r. reflexivity.
      * rewrite Ht, thread_events_other by reflexivity. now destruct (run_provider r).
      * exact I.
    + destruct (run_provider r); split; intros H; try reflexivity; discriminate H.
  - repeat split; auto; eauto.
  - repeat split; auto; try discriminate; eauto.
  - repeat split; auto; try discriminate; eauto.
Qed.

Lemma boot_inv (f : Flags) (env : Env) tr h res :
  run_setup f env = (tr, h, res) -> WInv f env tr res (boot f env).
Proof.
  intros Hrun. unfold boot. rewrite Hrun.
  destruct (settle tr res _) as [ph p] eqn:E. split.
  - split; simpl; [intros H; now elim H | discriminate].
  - pose proof (@settle_ok f env tr h res [] tr
                  {| main_pc := MStopped; go_pc := GAbsent; trace := []; status := Alive |}
                  None false Hrun eq_refl eq_refl eq_refl eq_refl eq_refl) as H.
    rewrite E in H. exact H.
Qed.

Lemma step_extends (f : Flags) (env : Env) (r : Running) (t : Tid) (p : Proc) :
  exists one, trace (step f env r t p) = trace p ++ one.
Proof. exact (run_extends f env r [t] p). Qed.

Lemma tick_inv (f : Flags) (env : Env) tr h res (k : Tick) (w : World) :
  run_setup f env = (tr, h, res) ->
  WInv f env tr res w ->
  WInv f env tr res (tick f env k w).
Proof.
  intros Hrun Hw. pose proof Hw as [[Hh1 Hh2] Hp]. unfold tick.
  destruct (signalled w) eqn:Esg; [exact Hw|].
  destruct (status (proc w)) eqn:Est; [|exact Hw].
  destruct k as [t|].
  - unfold phase_ok in Hp. destruct (phase w) as [todo res'|r] eqn:Eph.
    + destruct Hp as (-> & Hm & Hg & Hnil & (done & Htr & Htrace) & Hst).
      destruct t; [|exact Hw].
      unfold sequential_step. destruct todo as [|e rest].
      * destruct (Hnil eq_refl) as [s ->]. split.
        -- split; simpl; [rewrite app_nil_r; exact Hh1 | try rewrite Esg; discriminate].
        -- unfold phase_ok. simpl. try rewrite Eph.
           repeat split; auto; eauto.
           rewrite app_nil_r in Htr. exists done. rewrite !app_nil_r. auto.
      * pose proof (@settle_ok f env tr h res (done ++ [e]) rest
                      (advance (proc w) MainT [e] MStopped GAbsent Alive)
                      (if installs_handler e then Some 0%nat else handler w) (signalled w) Hrun)
          as Hok.
        pose proof (settle_trace rest res (advance (proc w) MainT [e] MStopped GAbsent Alive))
          as Hst'.
        destruct (settle rest res _) as [ph p'] eqn:Eset. simpl in Hok, Hst'.
        split.
        -- split; simpl; [|try rewrite Esg; discriminate].
           rewrite Hst'. intros Hn. apply in_or_app.
           destruct e; simpl in Hn; try (left; exact (Hh1 Hn)).
           right. now left.
        -- apply Hok; try reflexivity.
           ++ rewrite Htr, <- app_assoc. reflexivity.
           ++ rewrite Htrace, map_app. reflexivity.
    + destruct Hp as (-> & Hinv & Hgo). split.
      * split; simpl; [|try rewrite Esg; discriminate].
        intros Hn. destruct (step_extends f env r t (proc w)) as [one ->].
        apply in_or_app. left. exact (Hh1 Hn).
      * unfold phase_ok. simpl. try rewrite Eph. split; [reflexivity|]. split.
        -- now apply step_inv.
        -- exact (goroutine_iff_provider f env r [t] (proc w) Hgo).
  - destruct (handler w) as [[|n]|] eqn:Eh; [| |exact Hw].
    + split; [split; simpl; [intros _; apply Hh1; discriminate | discriminate]|].
      unfold phase_ok in *. simpl. exact Hp.
    + split; [split; simpl; [exact Hh1 | eauto]|].
      unfold phase_ok in *. simpl. exact Hp.
Qed.

Lemma run_world_inv (f : Flags) (env : Env) tr h res (ticks : list Tick) :
  run_setup f env = (tr, h, res) -> WInv f env tr res (run_world f env ticks).
Proof.
  intros Hrun. unfold run_world.
  assert (H : forall w, WInv f env tr res w ->
                WInv f env tr res (fold_left (fun w k => tick f env k w) ticks w)).
  { induction ticks as [|k ticks IH]; intros w Hw; [exact Hw|].
    simpl. apply IH. eapply tick_inv; eauto. }
  apply H. eapply boot_inv; eauto.
Qed.

Lemma run_world_app (f : Flags) (env : Env) (a b : list Tick) :
  run_world f env (a ++ b) = fold_left (fun w k => tick f env k w) b (run_world f env a).
Proof. unfold run_world. apply fold_left_app. Qed.

(** A goroutine of [main.go] has ended the process: the state of the
    program at that point. *)
Lemma ended_by_goroutine (f : Flags) (env : Env) tr h res (ticks : list Tick)
    (who : Tid) (s : Stop) :
  run_setup f env = (tr, h, res) ->
  ending (run_world f env ticks) = ByGoroutine who s ->
  status (proc (run_world f env ticks)) = Ended who s /\
  ((res = Halt s /\ who = MainT /\
    trace (proc (run_world f env ticks)) = map (pair MainT) tr) \/
   (exists r, res = Ok r /\ Inv f env r tr (proc (run_world f env ticks)) /\
              (go_pc (proc (run_world f env ticks)) = GAbsent <-> run_provider r = None))).
Proof.
  intros Hrun He.
  destruct (@run_world_inv f env tr h res ticks Hrun) as [_ Hp].
  set (w := run_world f env ticks) in *.
  unfold ending in He. destruct (signalled w); [discriminate He|].
  destruct (status (proc w)) as [|who' s'] eqn:Est; inversion He; subst who' s'.
  split; [reflexivity|].
  unfold phase_ok in Hp. destruct (phase w) as [todo res'|r].
  - destruct Hp as (-> & _ & _ & _ & (done & Htr & Htrace) & [Ha | (-> & s' & -> & Hs)]);
      [congruence|].
    rewrite Est in Hs. inversion Hs; subst who s'.
    rewrite app_nil_r in Htr. subst done. left. auto.
  - destruct Hp as (-> & Hinv & Hgo). right. eauto.
Qed.

(** C7, as the code has it: when the process ends with a non-zero exit
    code, either [flag.Parse] has ended it with code 2 before anything was
    logged, or the goroutine of the signal handler has ended it with code
    1, or a goroutine of [main.go] has ended it with code 1, and then the
    last two things that goroutine did were the call that failed and an
    error-level line with the error as its cause and a message that tells
    which step failed: by [setupLog.Error] for the twelve [os.Exit(1)] of
    [main.go], by the library's logger inside [ctrl.GetConfigOrDie].  In the
    sequential part that goroutine is alone, and the line is the last
    event of the process. *)
Theorem fatal_exits_of_main_follow_error_line
    (cl : CommandLine) (env : Env) (ticks : list Tick) (c : Z) :
  exit_code (fst (program cl env ticks)) = Some c ->
  c <> 0%Z ->
  (cl = BadFlag /\ c = 2%Z /\ program cl env ticks = (ByFlagParse 2, [])) \/
  (c = 1%Z /\ fst (program cl env ticks) = BySignalHandler 1 /\
   In (MainT, ESetupSignalHandler) (snd (program cl env ticks))) \/
  (exists f who call l,
     cl = Parsed f /\ c = 1%Z /\
     fst (program cl env ticks) = ByGoroutine who (Exit 1) /\
     last2 (thread_events who (snd (program cl env ticks))) = Some (call, ELog l) /\
     FatalLine f env call l /\
     level l = Err /\ cause l <> None /\
     (forall call' l', FatalLine f env call' l' -> msg l' = msg l -> same_step call' call) /\
     (forall tr h s, run_setup f env = (tr, h, Halt s) ->
        who = MainT /\ map snd (snd (program cl env ticks)) = tr)).
Proof.
  intros Hc Hne. destruct cl as [f| |].
  - simpl in *.
    destruct (run_setup f env) as [[tr h] res] eqn:Hrun.
    destruct (ending (run_world f env ticks)) as [|c'|c'|who s] eqn:He;
      try discriminate Hc.
    + unfold ending in He.
      destruct (signalled (run_world f env ticks)); [discriminate He|].
      destruct (status (proc (run_world f env ticks))); discriminate He.
    + right; left. unfold ending in He.
      destruct (@run_world_inv f env tr h res ticks Hrun) as [[Hh1 Hh2] _].
      destruct (signalled (run_world f env ticks)) eqn:Esg.
      * inversion He; subst c'. simpl in Hc. inversion Hc; subst c.
        repeat split. apply Hh1. destruct (Hh2 eq_refl) as [n ->]. discriminate.
      * destruct (status (proc (run_world f env ticks))); discriminate He.
    + right; right.
      destruct (@ended_by_goroutine f env tr h res ticks who s Hrun He) as [Hst Hcase].
      assert (Hmain : c = 1%Z /\ s = Exit 1 /\
                exists call l,
                  last2 (thread_events who (trace (proc (run_world f env ticks))))
                    = Some (call, ELog l) /\
                  FatalLine f env call l).
      { destruct Hcase as [(-> & -> & Htrace) | (r & -> & Hinv & _)].
        - destruct (@setup_fatal f env tr h _ Hrun) as (-> & call & l & Hl & Hf).
          simpl in Hc. inversion Hc; subst c.
          split; [reflexivity|]. split; [reflexivity|].
          exists call, l. rewrite Htrace, thread_events_own. auto.
        - destruct s as [c'|]; simpl in Hc; inversion Hc; subst.
          + destruct (@thread_fatal f env r tr _ who _ Hinv Hst Hne) as [-> Hl]. auto.
          + destruct Hinv as [_ _ _ _ Hs]. unfold status_ok in Hs. rewrite Hst in Hs.
            destruct who; contradiction. }
      destruct Hmain as (-> & -> & call & l & Hl & Hf).
      exists f, who, call, l.
      destruct (@fatal_line_is_an_error f env call l Hf) as [Hlev Hcause].
      repeat split; auto.
      * intros call' l' Hf' Hm. exact (@fatal_line_identifies f env call call' l l' Hf Hf' Hm).
      * destruct Hcase as [(_ & Hw & _) | (r & Hr & _)]; [exact Hw|].
        rewrite Hrun in H. congruence.
      * destruct Hcase as [(_ & _ & Htrace) | (r & Hr & _)].
        -- rewrite Hrun in H. inversion H; subst.
           rewrite Htrace, map_map. simpl. apply map_id.
        -- rewrite Hrun in H. congruence.
  - left. simpl in Hc. inversion Hc. auto.
  - simpl in Hc. inversion Hc; subst c. now elim Hne.
Qed.

Lemma fatal_exits_of_main_follow_error_line_witness :
  let ticks := repeat (Step MainT) 19 ++ repeat (Step ProviderT) 4 in
  let run := program (Parsed sample_flags) (sample_env (Some ProviderRun)) ticks in
  exists call l,
    last2 (thread_events ProviderT (snd run)) = Some (call, ELog l) /\
    FatalLine sample_flags (sample_env (Some ProviderRun)) call l.
Proof.
  intros ticks run.
  destruct (@fatal_exits_of_main_follow_error_line (Parsed sample_flags)
              (sample_env (Some ProviderRun)) ticks 1 eq_refl)
    as [(H & _) | [(_ & H & _) | (f & who & call & l & Hcl & _ & Hwho & Hl & Hf & _)]].
  - discriminate.
  - discriminate H.
  - vm_compute in H. discriminate H.
  - inversion Hcl; subst f.
    assert (who = ProviderT) by (vm_compute in Hwho; congruence). subst who.
    exists call, l. split; assumption.
Defined.

(** The claim of C7 fails as stated.  A command line that does not parse
    ends the process with code 2 inside [flag.Parse], before anything is
    logged; two shutdown signals after the handler is installed end it with
    code 1 through the handler's goroutine, and no error line has been
    logged at all. *)
Lemma exits_without_an_error_line :
  let signals := repeat (Step MainT) 7 ++ [Signal; Signal] in
  let run := program (Parsed sample_flags) (sample_env None) signals in
  program BadFlag (sample_env None) [] = (ByFlagParse 2, []) /\
  exit_code (fst (program BadFlag (sample_env None) [])) = Some 2%Z /\
  fst run = BySignalHandler 1 /\
  exit_code (fst run) = Some 1%Z /\
  filter is_error_line (map snd (snd run)) = [].
Proof. repeat split. Qed.

(** Without a kubeconfig the process ends inside [ctrl.GetConfigOrDie],
    with exit code 1, right after the library's error line. *)
Example no_kubeconfig_is_fatal :
  let env := without_kubeconfig (sample_env None) in
  let run := program (Parsed sample_flags) env (repeat (Step MainT) 9) in
  fst run = ByGoroutine MainT (Exit 1) /\
  last2 (map snd (snd run))
    = Some (EGetConfigOrDie,
            ELog {| logger := "controller-runtime.client.config";
                    level := Err;
                    cause := Some (GetConfig_error env);
                    msg := "unable to get kubeconfig";
                    keysAndValues := [] |}).
Proof. split; reflexivity. Qed.

(** One shutdown signal does not end the process: it cancels the
    context, and [main] returns once [mgr.Start] has. *)
Example one_signal_is_a_clean_shutdown :
  fst (program (Parsed sample_flags) (sample_env None)
         (repeat (Step MainT) 21 ++ [Signal] ++ repeat (Step MainT) 2))
    = ByGoroutine MainT (Exit 0).
Proof. reflexivity. Qed.

(** ** The two threads in the program *)

(** How a thread can have ended the process, past the [go] statement. *)
Lemma thread_exit_cases (f : Flags) (env : Env) (r : Running) (tr : list Event) (p : Proc)
    (who : Tid) (s : Stop) :
  Inv f env r tr p ->
  (go_pc p = GAbsent <-> run_provider r = None) ->
  status p = Ended who s ->
  (who = MainT /\ s = Exit 0 /\ mgr_Start env = None /\
   In (EManagerStart (run_mgr r) (run_ctx r)) (thread_events MainT (trace p))) \/
  (who = MainT /\ s = Exit 1 /\ (exists e, mgr_Start env = Some e) /\
   In (EManagerStart (run_mgr r) (run_ctx r)) (thread_events MainT (trace p))) \/
  (who = ProviderT /\ s = Exit 1 /\ (exists e, provider_Run env = Some e) /\
   run_provider r <> None /\
   thread_events ProviderT (trace p)
     = [EProviderRun (run_ctx r) (run_mgr r);
        ELog {| logger := "setup"; level := Err; cause := provider_Run env;
                msg := "unable to run provider"; keysAndValues := [] |}]).
Proof.
  intros [Hm Hg Htm Htg Hs] Hgo Hst.
  unfold status_ok in Hs. rewrite Hst in Hs.
  destruct who, s as [c|]; try contradiction.
  - destruct Hs as [[-> Hpc] | [-> Hpc]].
    + right; left. rewrite Hpc in Hm, Htm. simpl in Hm, Htm.
      destruct (mgr_Start env) as [e|] eqn:E; [|contradiction].
      repeat split; eauto. rewrite Htm. apply in_or_app. right. simpl. tauto.
    + left. rewrite Hpc in Hm, Htm. simpl in Hm, Htm.
      repeat split; auto. rewrite Htm. apply in_or_app. right. simpl. tauto.
  - destruct Hs as [-> Hpc]. right; right.
    rewrite Hpc in Hg, Htg. simpl in Hg, Htg.
    destruct (provider_Run env) as [e|] eqn:E; [|contradiction].
    repeat split; eauto.
    intros Hnone. apply Hgo in Hnone. congruence.
Qed.

(** X8: once start-up is through, a goroutine of [main.go] ends the
    process in one of three ways: the main goroutine with code 0, by
    returning after [mgr.Start] returned nil; the main goroutine with code
    1, after [mgr.Start] returned an error; the provider goroutine with
    code 1, after [provider.Run] returned an error, which needs a provider
    that is not nil, and then all that goroutine has done is to call
    [provider.Run] and to log "unable to run provider" with that error.  In
    each case the call in question was made.  The exit of the signal
    handler's goroutine is no exit of [main.go] and is not spoken of. *)
Theorem goroutine_exit_is_attributed
    (f : Flags) (env : Env) (tr : list Event) (h : Heap) (r : Running)
    (ticks : list Tick) (who : Tid) (s : Stop) :
  run_setup f env = (tr, h, Ok r) ->
  fst (program (Parsed f) env ticks) = ByGoroutine who s ->
  let evs := snd (program (Parsed f) env ticks) in
  (who = MainT /\ s = Exit 0 /\ mgr_Start env = None /\
   In (EManagerStart (run_mgr r) (run_ctx r)) (thread_events MainT evs)) \/
  (who = MainT /\ s = Exit 1 /\ (exists e, mgr_Start env = Some e) /\
   In (EManagerStart (run_mgr r) (run_ctx r)) (thread_events MainT evs)) \/
  (who = ProviderT /\ s = Exit 1 /\ (exists e, provider_Run env = Some e) /\
   run_provider r <> None /\
   thread_events ProviderT evs
     = [EProviderRun (run_ctx r) (run_mgr r);
        ELog {| logger := "setup"; level := Err; cause := provider_Run env;
                msg := "unable to run provider"; keysAndValues := [] |}]).
Proof.
  intros Hrun He evs. simpl in He. unfold evs. simpl.
  destruct (@ended_by_goroutine f env tr h (Ok r) ticks who s Hrun He)
    as [Hst [(Hr & _) | (r' & Hr & Hinv & Hgo)]]; [discriminate Hr|].
  inversion Hr; subst r'.
  exact (@thread_exit_cases f env r tr _ who s Hinv Hgo Hst).
Qed.

Lemma goroutine_exit_is_attributed_witness :
  mgr_Start (sample_env None) = None.
Proof.
  destruct (@goroutine_exit_is_attributed sample_flags (sample_env None) _ _ _
              (repeat (Step MainT) 23) MainT (Exit 0) eq_refl eq_refl)
    as [(_ & _ & H & _) | [(_ & H & _) | (H & _)]].
  - exact H.
  - discriminate H.
  - discriminate H.
Defined.

(** With a nil provider the provider goroutine never does anything. *)
Lemma no_goroutine_in_program (f : Flags) (env : Env) tr h r (ticks : list Tick) :
  run_setup f env = (tr, h, Ok r) ->
  run_provider r = None ->
  thread_events ProviderT (trace (proc (run_world f env ticks))) = [] /\
  (forall ctx m, ~ In (EProviderRun ctx m) (map snd (trace (proc (run_world f env ticks))))) /\
  (forall s, ending (run_world f env ticks) <> ByGoroutine ProviderT s).
Proof.
  intros Hrun Hnone.
  destruct (@run_world_inv f env tr h (Ok r) ticks Hrun) as [_ Hp].
  set (w := run_world f env ticks) in *.
  assert (Hsetup : forall ctx m done todo, tr = done ++ todo -> ~ In (EProviderRun ctx m) done).
  { intros ctx m done todo -> Hin.
    assert (Hin' : In (EProviderRun ctx m) (done ++ todo)) by (apply in_or_app; now left).
    destruct (setup_makes_no_blocking_call _ _ _ Hrun Hin') as [_ H]. discriminate H. }
  unfold phase_ok in Hp. destruct (phase w) as [todo res'|r'].
  - destruct Hp as (-> & _ & _ & _ & (done & Htr & Htrace) & Hst).
    split; [|split].
    + rewrite Htrace. now apply thread_events_other.
    + intros ctx m Hin. rewrite Htrace, map_map in Hin. simpl in Hin. rewrite map_id in Hin.
      exact (Hsetup _ _ _ _ Htr Hin).
    + intros s He. unfold ending in He. destruct (signalled w); [discriminate He|].
      destruct Hst as [Ha | (_ & s' & Hs' & _)]; [rewrite Ha in He|]; discriminate.
  - destruct Hp as (Hr & [Hm Hg Htm Htg Hs] & Hgo). inversion Hr; subst r'.
    apply Hgo in Hnone. rewrite Hnone in Htg. simpl in Htg.
    split; [exact Htg|]. split.
    + intros ctx m Hin. apply in_map_iff in Hin. destruct Hin as [[t e] [He Hin]].
      simpl in He. subst e. apply in_thread_events in Hin. destruct t.
      * rewrite Htm in Hin. apply in_app_or in Hin. destruct Hin as [Hin | Hin].
        -- exact (Hsetup ctx m tr [] (eq_sym (app_nil_r tr)) Hin).
        -- destruct (main_pc (proc w)); simpl in Hin;
             try destruct (mgr_Start env); in_cases Hin.
      * rewrite Htg in Hin. destruct Hin.
    + intros s He. unfold ending in He. destruct (signalled w); [discriminate He|].
      destruct (status (proc w)) as [|who s'] eqn:Est; [discriminate He|].
      inversion He; subst who s'.
      unfold status_ok in Hs. rewrite Est in Hs. destruct s; try contradiction.
      destruct Hs as [_ Hpc]. congruence.
Qed.

(** X9: the provider goroutine is started exactly when
    [virtualworkspace.New] returned a provider that is not nil.  With a nil
    provider nothing announces or starts it, [provider.Run] is never
    called, and the provider goroutine never ends the process, whatever the
    schedule and the signals; with a provider the last two things the
    sequential part does are the "Starting provider" line and the [go]
    statement, and the first thing the goroutine does is to call
    [provider.Run] with the context and the manager of [main]. *)
Theorem nil_provider_starts_no_goroutine
    (f : Flags) (env : Env) (tr : list Event) (h : Heap) (r : Running) :
  run_setup f env = (tr, h, Ok r) ->
  (run_provider r = None <-> ~ In EGo tr) /\
  (run_provider r = None ->
     ~ In (ELog (setupLog_Info "Starting provider" [])) tr /\
     (forall sched,
        thread_events ProviderT (trace (process f env sched)) = [] /\
        (forall ctx m, ~ In (EProviderRun ctx m) (map snd (trace (process f env sched))))) /\
     (forall ticks,
        thread_events ProviderT (snd (program (Parsed f) env ticks)) = [] /\
        (forall ctx m, ~ In (EProviderRun ctx m) (map snd (snd (program (Parsed f) env ticks)))) /\
        (forall s, fst (program (Parsed f) env ticks) <> ByGoroutine ProviderT s))) /\
  (forall pr, run_provider r = Some pr ->
     last2 tr = Some (ELog (setupLog_Info "Starting provider" []), EGo) /\
     thread_events ProviderT
       (trace (process f env [ProviderT])) = [EProviderRun (run_ctx r) (run_mgr r)]).
Proof.
  intros Hrun.
  destruct (setup_ok_running _ _ Hrun) as (Hctx & Hgo & Hlast & Hnolog).
  split; [exact Hgo|]. split.
  - intros Hnone. split; [exact (Hnolog Hnone)|]. split.
    + intros sched.
      destruct (process_running f env sched Hrun) as [Hp [Hm Hg Htm Htg Hs]].
      pose proof (goroutine_iff_provider f env r sched (spawned r tr)
                    (spawned_goroutine r tr)) as Hiff.
      rewrite <- Hp in Hiff. apply Hiff in Hnone.
      rewrite Hnone in Htg. simpl in Htg.
      split; [exact Htg|].
      intros ctx m Hin. apply in_map_iff in Hin. destruct Hin as [[t e] [He Hin]].
      simpl in He. subst e. apply in_thread_events in Hin. destruct t.
      * rewrite Htm in Hin. apply in_app_or in Hin. destruct Hin as [Hin | Hin].
        -- destruct (setup_makes_no_blocking_call _ _ _ Hrun Hin) as [_ H]. discriminate H.
        -- destruct (main_pc (process f env sched)); simpl in Hin;
             try destruct (mgr_Start env); in_cases Hin.
      * rewrite Htg in Hin. destruct Hin.
    + intros ticks. simpl. exact (@no_goroutine_in_program f env tr h r ticks Hrun Hnone).
  - intros pr Hpr. split; [exact (Hlast _ Hpr)|].
    unfold process. rewrite Hrun. unfold run, spawned. simpl. unfold step. simpl.
    unfold provider_step. simpl. rewrite Hpr. simpl.
    rewrite thread_events_app, thread_events_other by reflexivity. reflexivity.
Qed.

Lemma nil_provider_starts_no_goroutine_witness :
  last2 (fst (fst (run_setup sample_flags (sample_env None))))
    = Some (ELog (setupLog_Info "Starting provider" []), EGo).
Proof.
  destruct (@nil_provider_starts_no_goroutine sample_flags (sample_env None) _ _ _ eq_refl)
    as (_ & _ & H).
  exact (proj1 (H (provider 1) eq_refl)).
Defined.

(** ** The provider's [Run], by the design document *)

Module DiscoveryProviderFacts.
Import DiscoveryProvider.

Lemma Run_snoc (hs : list Happening) (h : Happening) : Run (hs ++ [h]) = react h (Run hs).
Proof. unfold Run. now rewrite fold_left_app. Qed.

(** [Run] returns an error only when the discovery watch could not be
    established at startup. *)
Lemma error_only_at_startup (hs : list Happening) (e : error) :
  Run hs = Returned (Some e) ->
  exists pre post, hs = pre ++ ConnectFails e :: post /\ Run pre = Connecting.
Proof.
  induction hs as [|h hs IH] using rev_ind; [discriminate|].
  rewrite Run_snoc. destruct (Run hs) as [| |n|r] eqn:E.
  - destruct h; simpl; intros H; try discriminate H.
    inversion H; subst. exists hs, []. auto.
  - destruct h; discriminate.
  - destruct h; discriminate.
  - simpl. intros H. inversion H; subst r.
    destruct (IH eq_refl) as (pre & post & -> & Hpre).
    exists pre, (post ++ [h]). rewrite <- app_assoc. auto.
Qed.

(** [Run] returns nil only once the context is cancelled. *)
Lemma nil_only_after_cancel (hs : list Happening) :
  Run hs = Returned None -> In CtxCancelled hs.
Proof.
  induction hs as [|h hs IH] using rev_ind; [discriminate|].
  rewrite Run_snoc. intros H. apply in_or_app.
  destruct (Run hs) as [| |n|r] eqn:E.
  - destruct h; simpl in H; try discriminate H. right. now left.
  - destruct h; simpl in H; try discriminate H. right. now left.
  - destruct h; simpl in H; try discriminate H. right. now left.
  - simpl in H. inversion H; subst r. left. now apply IH.
Qed.

(** Cancelling the context makes [Run] return. *)
Lemma cancel_returns (hs : list Happening) :
  exists r, Run (hs ++ [CtxCancelled]) = Returned r.
Proof. rewrite Run_snoc. destruct (Run hs); simpl; eauto. Qed.

(** A transient failure of an established watch never makes [Run]
    return. *)
Lemma transient_failure_is_retried (hs : list Happening) (e : error) :
  Run hs = Watching \/ (exists n, Run hs = BackingOff n) ->
  exists n, Run (hs ++ [WatchFails e]) = BackingOff n.
Proof. rewrite Run_snoc. intros [-> | [n ->]]; simpl; eauto. Qed.

End DiscoveryProviderFacts.

(** C4, as the code has it.  By the design document, [Run] returns an
    error only when the discovery watch cannot be established at startup,
    returns nil only once the context is cancelled, returns when it is
    cancelled, and retries after a transient failure.  In [main.go], a
    failed construction of the provider ends the process with exit code 1,
    right after its error line.  Once [provider.Run] has returned a non-nil
    error, the process is alive, or it has ended with exit code 1 (through
    the provider goroutine, which then has called [provider.Run] and logged
    "unable to run provider" with that error and nothing else; through
    [main] after [mgr.Start] returned an error; or through the signal
    handler), or it has ended with exit code 0 because [mgr.Start] returned
    nil and [main] returned first.  While the process is alive, the two
    steps left to the provider goroutine, the error line and [os.Exit(1)],
    end it with exit code 1. *)
Theorem provider_failure_exits_unless_main_returned (f : Flags) (env : Env) :
  (forall tr h res err,
     run_setup f env = (tr, h, res) ->
     ProviderFailure env tr h err ->
     res = Halt (Exit 1) /\
     last2 tr = Some (EVirtualworkspaceNew 1%nat APIBinding clientgoscheme_Scheme,
                      ELog {| logger := "setup"; level := Err; cause := Some err;
                              msg := "unable to construct cluster provider";
                              keysAndValues := [] |}) /\
     forall sched, status (process f env sched) = Ended MainT (Exit 1)) /\
  (forall ticks,
     run_returned_error (proc (run_world f env ticks)) ->
     (exists err, provider_Run env = Some err) /\
     (ending (run_world f env ticks) = NotEnded \/
      (ending (run_world f env ticks) = ByGoroutine ProviderT (Exit 1) /\
       exists ctx m,
         thread_events ProviderT (trace (proc (run_world f env ticks)))
           = [EProviderRun ctx m;
              ELog {| logger := "setup"; level := Err; cause := provider_Run env;
                      msg := "unable to run provider"; keysAndValues := [] |}]) \/
      (ending (run_world f env ticks) = ByGoroutine MainT (Exit 1) /\
       exists e, mgr_Start env = Some e) \/
      ending (run_world f env ticks) = BySignalHandler 1 \/
      (ending (run_world f env ticks) = ByGoroutine MainT (Exit 0) /\
       mgr_Start env = None)) /\
     (ending (run_world f env ticks) = NotEnded ->
      ending (run_world f env (ticks ++ [Step ProviderT; Step ProviderT]))
        = ByGoroutine ProviderT (Exit 1))) /\
  (forall hs e,
     DiscoveryProvider.Run hs = DiscoveryProvider.Returned (Some e) ->
     exists pre post,
       hs = pre ++ DiscoveryProvider.ConnectFails e :: post /\
       DiscoveryProvider.Run pre = DiscoveryProvider.Connecting) /\
  (forall hs,
     DiscoveryProvider.Run hs = DiscoveryProvider.Returned None ->
     In DiscoveryProvider.CtxCancelled hs) /\
  (forall hs,
     exists r,
       DiscoveryProvider.Run (hs ++ [DiscoveryProvider.CtxCancelled])
         = DiscoveryProvider.Returned r) /\
  (forall hs e,
     DiscoveryProvider.Run hs = DiscoveryProvider.Watching \/
     (exists n, DiscoveryProvider.Run hs = DiscoveryProvider.BackingOff n) ->
     exists n,
       DiscoveryProvider.Run (hs ++ [DiscoveryProvider.WatchFails e])
         = DiscoveryProvider.BackingOff n).
Proof.
  split; [|split; [|split; [|split; [|split]]]].
  - intros tr h res err Hrun (cfg & obj & scheme & c & Hin & Hl & Ho).
    destruct (late_event _ _ _ Hrun Hin eq_refl) as [t3 [Hr Hin3]].
    destruct Hr as (t1 & t2 & serving & c0 & _ & _ & Hcomp & Htr & Hev).
    unfold components in Hcomp. paths Hcomp; in_cases Hin3.
    all: inversion Hin3; subst cfg obj scheme; simpl in Hl; inversion Hl; subst c;
      try congruence.
    assert (e = err) by congruence. subst e.
    split; [reflexivity|]. split.
    + last2_of_components.
    + intros sched. exact (proj1 (stopped_process f env sched Hrun)).
  - intros ticks Herr.
    destruct (run_setup f env) as [[tr h] res] eqn:Hrun.
    pose proof (@run_world_inv f env tr h res ticks Hrun) as [_ Hp].
    rewrite run_world_app.
    set (w := run_world f env ticks) in *.
    unfold phase_ok in Hp. destruct (phase w) as [todo res'|r] eqn:Eph.
    { destruct Hp as (_ & _ & Hg & _). unfold run_returned_error in Herr.
      rewrite Hg in Herr. contradiction. }
    destruct Hp as (-> & Hinv & Hgo).
    assert (Hrunerr : exists err, provider_Run env = Some err).
    { destruct Hinv as [_ Hg _ _ _]. unfold run_returned_error in Herr.
      destruct (go_pc (proc w)); try contradiction; simpl in Hg; eauto.
      destruct (provider_Run env); [eauto | now elim Hg]. }
    split; [exact Hrunerr|]. split.
    + unfold ending. destruct (signalled w); [auto|].
      destruct (status (proc w)) as [|who s] eqn:Est; [auto|].
      destruct (@thread_exit_cases f env r tr _ who s Hinv Hgo Est)
        as [(-> & -> & H & _) | [(-> & -> & H & _) | (-> & -> & _ & _ & H)]]; eauto 10.
    + intros Halive. unfold ending in Halive.
      destruct (signalled w) eqn:Esg; [discriminate Halive|].
      destruct (status (proc w)) eqn:Est; [|discriminate Halive].
      simpl. unfold tick. rewrite Esg, Est, Eph. simpl.
      unfold run_returned_error in Herr. unfold step. rewrite Est.
      unfold provider_step.
      destruct (go_pc (proc w)) eqn:Eg; try contradiction; reflexivity.
  - exact DiscoveryProviderFacts.error_only_at_startup.
  - exact DiscoveryProviderFacts.nil_only_after_cancel.
  - exact DiscoveryProviderFacts.cancel_returns.
  - exact DiscoveryProviderFacts.transient_failure_is_retried.
Qed.

Lemma provider_failure_exits_unless_main_returned_witness :
  ending (run_world sample_flags (sample_env (Some ProviderRun))
            ((repeat (Step MainT) 19 ++ [Step ProviderT; Step ProviderT])
               ++ [Step ProviderT; Step ProviderT]))
    = ByGoroutine ProviderT (Exit 1).
Proof.
  refine (proj2 (proj2 (proj1 (proj2 (@provider_failure_exits_unless_main_returned sample_flags
                                        (sample_env (Some ProviderRun))))
                          (repeat (Step MainT) 19 ++ [Step ProviderT; Step ProviderT]) _)) _).
  - exact I.
  - reflexivity.
Defined.

(** The same race in [program]: [provider.Run] has returned an error,
    [mgr.Start] returns nil and [main] returns first; the exit code is 0 and
    the provider goroutine has logged nothing. *)
Example main_returns_before_the_provider_exits :
  let run := program (Parsed sample_flags) (sample_env (Some ProviderRun))
               (repeat (Step MainT) 19 ++ [Step ProviderT; Step ProviderT]
                  ++ repeat (Step MainT) 4) in
  fst run = ByGoroutine MainT (Exit 0) /\
  thread_events ProviderT (snd run) = [EProviderRun 1%nat (manager 1)].
Proof. split; reflexivity. Qed.

(** ** [process] among the runs of the program *)

(** [main] steps through what is left of its sequential part. *)
Lemma sequential_replay (f : Flags) (env : Env) (res : Res Running) (todo : list Event) :
  forall (t : list (Tid * Event)) (hd : option nat),
  exists hd',
    fold_left (fun w k => tick f env k w) (repeat (Step MainT) (length todo))
      {| phase := fst (settle todo res
                         {| main_pc := MStopped; go_pc := GAbsent; trace := t; status := Alive |});
         proc := snd (settle todo res
                        {| main_pc := MStopped; go_pc := GAbsent; trace := t; status := Alive |});
         handler := hd;
         signalled := false |}
    = {| phase := fst (settle [] res
                         {| main_pc := MStopped; go_pc := GAbsent;
                            trace := t ++ map (pair MainT) todo; status := Alive |});
         proc := snd (settle [] res
                        {| main_pc := MStopped; go_pc := GAbsent;
                           trace := t ++ map (pair MainT) todo; status := Alive |});
         handler := hd';
         signalled := false |}.
Proof.
  induction todo as [|e rest IH]; intros t hd.
  - exists hd. simpl. rewrite app_nil_r. reflexivity.
  - destruct (IH (t ++ [(MainT, e)]) (if installs_handler e then Some 0%nat else hd))
      as [hd' Hrest].
    exists hd'. simpl map. rewrite <- app_assoc in Hrest. simpl app in Hrest.
    rewrite <- Hrest. simpl. unfold tick at 2. simpl. unfold advance. simpl.
    destruct (settle rest res _) as [ph p]. reflexivity.
Qed.

(** Past the [go] statement the ticks of the two threads are the steps
    of [run]. *)
Lemma threads_replay (f : Flags) (env : Env) (r : Running) (sched : list Tid) :
  forall (p : Proc) (hd : option nat),
    fold_left (fun w k => tick f env k w) (map Step sched)
      {| phase := Threads r; proc := p; handler := hd; signalled := false |}
    = {| phase := Threads r; proc := run f env r sched p; handler := hd; signalled := false |}.
Proof.
  induction sched as [|t sched IH]; intros p hd; [reflexivity|].
  simpl. rewrite <- IH. f_equal. unfold tick. simpl.
  destruct (status p) eqn:Est; [reflexivity|].
  unfold step. rewrite Est. reflexivity.
Qed.

(** Every state of [process] is a state of the program: the one reached
    when the command line parses, [main] runs through its sequential part
    undisturbed and no signal arrives. *)
Lemma process_is_a_run_of_program (f : Flags) (env : Env) (sched : list Tid) :
  exists ticks,
    ~ In Signal ticks /\
    proc (run_world f env ticks) = process f env sched /\
    signalled (run_world f env ticks) = false.
Proof.
  unfold run_world, boot, process.
  destruct (run_setup f env) as [[tr h] [r | s]] eqn:Hrun.
  - exists (repeat (Step MainT) (length tr) ++ map Step sched).
    split.
    { intros Hin. apply in_app_or in Hin. destruct Hin as [Hin | Hin].
      - apply repeat_spec in Hin. discriminate Hin.
      - apply in_map_iff in Hin. destruct Hin as [x [Hx _]]. discriminate Hx. }
    rewrite fold_left_app.
    destruct (@sequential_replay f env (Ok r) tr [] None) as [hd' Hseq].
    destruct (settle tr (Ok r) _) as [ph p] eqn:E. simpl in Hseq. rewrite Hseq.
    unfold enter_threads. simpl. rewrite threads_replay. simpl. auto.
  - exists (repeat (Step MainT) (length tr) ++ [Step MainT]).
    split.
    { intros Hin. apply in_app_or in Hin. destruct Hin as [Hin | Hin].
      - apply repeat_spec in Hin. discriminate Hin.
      - destruct Hin as [Hin | []]. discriminate Hin. }
    rewrite fold_left_app.
    destruct (@sequential_replay f env (Halt s) tr [] None) as [hd' Hseq].
    destruct (settle tr (Halt s) _) as [ph p] eqn:E. simpl in Hseq. rewrite Hseq.
    simpl. unfold tick. simpl. unfold advance. simpl. rewrite app_nil_r. auto.
Qed.

Lemma filter_none {A} (P : A -> bool) (l : list A) :
  (forall x, In x l -> P x = false) -> filter P l = [].
Proof.
  induction l as [|a l IH]; intros H; [reflexivity|]. simpl.
  rewrite (H a (or_introl eq_refl)). apply IH. intros x Hx. apply H. now right.
Qed.

Lemma filter_none_inv {A} (P : A -> bool) (l : list A) (x : A) :
  filter P l = [] -> In x l -> P x = false.
Proof.
  intros H Hin. destruct (P x) eqn:E; [|reflexivity].
  assert (Hf : In x (filter P l)) by (apply filter_In; auto).
  rewrite H in Hf. destruct Hf.
Qed.

(** Counting over the whole trace is counting thread by thread. *)
Lemma count_by_thread (P : Event -> bool) (tr : list (Tid * Event)) :
  length (filter P (map snd tr))
  = length (filter P (thread_events MainT tr)) + length (filter P (thread_events ProviderT tr)).
Proof.
  unfold thread_events. induction tr as [|[t e] tr IH]; [reflexivity|].
  simpl. destruct t; simpl; destruct (P e); simpl; lia.
Qed.

(** After the [go] statement the threads only log, start the manager and
    run the provider. *)
Lemma run_constructs_nothing (f : Flags) (env : Env) (r : Running) (sched : list Tid)
    (p : Proc) :
  exists rest,
    trace (run f env r sched p) = trace p ++ rest /\
    forallb (fun x => negb (is_construction (snd x))) rest = true.
Proof.
  revert p. induction sched as [|t sched IH]; intros p.
  - exists []. now rewrite app_nil_r.
  - simpl. destruct (IH (step f env r t p)) as [rest [Hr Hc]]. rewrite Hr.
    assert (Hs : exists one, trace (step f env r t p) = trace p ++ one /\
                             forallb (fun x => negb (is_construction (snd x))) one = true).
    { unfold step. destruct (status p); [|exists []; now rewrite app_nil_r].
      destruct t.
      - unfold main_step.
        destruct (main_pc p); try destruct (mgr_Start env); simpl.
        all: first [eexists; split; [reflexivity | reflexivity]
                   | exists []; now rewrite app_nil_r].
      - unfold provider_step.
        destruct (go_pc p); try destruct (provider_Run env); simpl.
        all: first [eexists; split; [reflexivity | reflexivity]
                   | exists []; now rewrite app_nil_r]. }
    destruct Hs as [one [Ho Hoc]]. exists (one ++ rest). split.
    + now rewrite Ho, <- app_assoc.
    + rewrite forallb_app, Hoc, Hc. reflexivity.
Qed.

(** X10: under every schedule [mgr.Start] is called at most once and
    [provider.Run] at most once, both on the manager [mcmanager.New]
    returned and with the context of [signals.SetupSignalHandler], and
    [provider.Run] only after the [go] statement; after that statement
    nothing is constructed or registered any more: the threads only log and
    make these two calls. *)
Theorem one_start_one_run_one_context
    (f : Flags) (env : Env) (tr : list Event) (h : Heap) (r : Running) (sched : list Tid) :
  run_setup f env = (tr, h, Ok r) ->
  let all := map snd (trace (process f env sched)) in
  length (filter is_start_call all) <= 1 /\
  length (filter is_run_call all) <= 1 /\
  (forall m ctx, In (EManagerStart m ctx) all ->
     m = run_mgr r /\ ctx = SetupSignalHandler env) /\
  (forall ctx m, In (EProviderRun ctx m) all ->
     m = run_mgr r /\ ctx = SetupSignalHandler env /\ In EGo tr) /\
  (exists rest,
     all = tr ++ rest /\
     forallb (fun e => negb (is_construction e)) rest = true).
Proof.
  intros Hrun all.
  destruct (process_running f env sched Hrun) as [Hp [Hm Hg Htm Htg Hs]].
  destruct (setup_ok_running _ _ Hrun) as (Hctx & Hgo & Hlast & _).
  assert (Hstart0 : filter is_start_call tr = []).
  { apply filter_none. intros e He.
    exact (proj1 (setup_makes_no_blocking_call _ _ _ Hrun He)). }
  assert (Hrun0 : filter is_run_call tr = []).
  { apply filter_none. intros e He.
    exact (proj2 (setup_makes_no_blocking_call _ _ _ Hrun He)). }
  pose proof (goroutine_iff_provider f env r sched (spawned r tr)
                (spawned_goroutine r tr)) as Hiff.
  rewrite <- Hp in Hiff.
  split; [|split; [|split; [|split]]].
  - unfold all. rewrite count_by_thread, Htm, Htg, filter_app, Hstart0. simpl.
    destruct (main_pc (process f env sched)), (go_pc (process f env sched)); simpl;
      try destruct (mgr_Start env); try destruct (provider_Run env); simpl; lia.
  - unfold all. rewrite count_by_thread, Htm, Htg, filter_app, Hrun0. simpl.
    destruct (main_pc (process f env sched)), (go_pc (process f env sched)); simpl;
      try destruct (mgr_Start env); try destruct (provider_Run env); simpl; lia.
  - intros m ctx Hin. rewrite <- Hctx.
    apply in_map_iff in Hin. destruct Hin as [[t e] [He Hin]]. simpl in He. subst e.
    apply in_thread_events in Hin. destruct t.
    + rewrite Htm in Hin. apply in_app_or in Hin. destruct Hin as [Hin | Hin].
      * pose proof (filter_none_inv _ _ _ Hstart0 Hin) as H. discriminate H.
      * destruct (main_pc (process f env sched)); simpl in Hin;
          try destruct (mgr_Start env); in_cases Hin; inversion Hin; auto.
    + rewrite Htg in Hin.
      destruct (go_pc (process f env sched)); simpl in Hin;
        try destruct (provider_Run env); in_cases Hin.
  - intros ctx m Hin. rewrite <- Hctx.
    apply in_map_iff in Hin. destruct Hin as [[t e] [He Hin]]. simpl in He. subst e.
    apply in_thread_events in Hin. destruct t.
    + rewrite Htm in Hin. apply in_app_or in Hin. destruct Hin as [Hin | Hin].
      * pose proof (filter_none_inv _ _ _ Hrun0 Hin) as H. discriminate H.
      * destruct (main_pc (process f env sched)); simpl in Hin;
          try destruct (mgr_Start env); in_cases Hin.
    + rewrite Htg in Hin.
      assert (Hspawned : In EGo tr).
      { destruct (run_provider r) as [pr|] eqn:Epr.
        - destruct (last2_inv _ (Hlast pr eq_refl)) as [pre ->].
          apply in_or_app. right. simpl. tauto.
        - exfalso. rewrite (proj2 Hiff eq_refl) in Hin. destruct Hin. }
      destruct (go_pc (process f env sched)); simpl in Hin;
        try destruct (provider_Run env); in_cases Hin; inversion Hin; auto.
  - destruct (run_constructs_nothing f env r sched (spawned r tr)) as [rest [Hr Hc]].
    rewrite <- Hp in Hr. simpl in Hr.
    exists (map snd rest). unfold all. rewrite Hr, map_app, map_map. simpl.
    rewrite map_id. split; [reflexivity|].
    rewrite forallb_forall in *. intros e He. apply in_map_iff in He.
    destruct He as [x [<- Hx]]. exact (Hc _ Hx).
Qed.

Lemma one_start_one_run_one_context_witness :
  length (filter is_start_call
            (map snd (trace (process sample_flags (sample_env None)
                               [MainT; MainT; ProviderT; MainT])))) <= 1.
Proof.
  exact (proj1 (@one_start_one_run_one_context sample_flags (sample_env None) _ _ _
                  [MainT; MainT; ProviderT; MainT] eq_refl)).
Defined.

(** ** [init] *)

(** X11: [init] returns without a panic exactly when none of the four
    registrations fails; it then has appended the four groups, in the order
    of the source, to what [clientgoscheme.Scheme] already held, so every
    type known before is still known; when it panics, it panics with the
    error of the first registration that failed, those before it having
    succeeded. *)
Theorem init_registers_in_order_or_panics (env : Env) (st : SchemeStore) :
  ((exists st', init env st = inl st') <-> (forall a, AddToScheme env a = None)) /\
  (forall st',
     init env st = inl st' ->
     st' clientgoscheme_Scheme = st clientgoscheme_Scheme ++ init_order /\
     (forall a, knows (st clientgoscheme_Scheme) a = true ->
                knows (st' clientgoscheme_Scheme) a = true)) /\
  (forall e,
     init env st = inr e ->
     exists before a after,
       init_order = before ++ a :: after /\
       AddToScheme env a = Some e /\
       forall b, In b before -> AddToScheme env b = None).
Proof.
  unfold init, Must_AddToScheme, init_order.
  destruct (AddToScheme env clientgo_core) as [e1|] eqn:E1.
  { split; [|split].
    - split; [intros [st' H]; discriminate H | intros H; rewrite H in E1; discriminate E1].
    - intros st' H. discriminate H.
    - intros e H. inversion H; subst e. exists [], clientgo_core. eexists.
      split; [reflexivity|]. split; [exact E1|]. intros b []. }
  destruct (AddToScheme env application_v1alpha1) as [e2|] eqn:E2.
  { split; [|split].
    - split; [intros [st' H]; discriminate H | intros H; rewrite H in E2; discriminate E2].
    - intros st' H. discriminate H.
    - intros e H. inversion H; subst e. exists [clientgo_core], application_v1alpha1. eexists.
      split; [reflexivity|]. split; [exact E2|]. intros b [<- | []]. exact E1. }
  destruct (AddToScheme env cnpg_v1) as [e3|] eqn:E3.
  { split; [|split].
    - split; [intros [st' H]; discriminate H | intros H; rewrite H in E3; discriminate E3].
    - intros st' H. discriminate H.
    - intros e H. inversion H; subst e.
      exists [clientgo_core; application_v1alpha1], cnpg_v1. eexists.
      split; [reflexivity|]. split; [exact E3|]. intros b [<- | [<- | []]]; assumption. }
  destruct (AddToScheme env kcp_apis_v1alpha1) as [e4|] eqn:E4.
  { split; [|split].
    - split; [intros [st' H]; discriminate H | intros H; rewrite H in E4; discriminate E4].
    - intros st' H. discriminate H.
    - intros e H. inversion H; subst e.
      exists [clientgo_core; application_v1alpha1; cnpg_v1], kcp_apis_v1alpha1. eexists.
      split; [reflexivity|]. split; [exact E4|].
      intros b [<- | [<- | [<- | []]]]; assumption. }
  split; [|split].
  - split; [|eauto]. intros _ a. destruct a; assumption.
  - intros st' H. inversion H; subst st'; clear H.
    assert (Hs : register kcp_apis_v1alpha1 clientgoscheme_Scheme
                   (register cnpg_v1 clientgoscheme_Scheme
                      (register application_v1alpha1 clientgoscheme_Scheme
                         (register clientgo_core clientgoscheme_Scheme st)))
                   clientgoscheme_Scheme
                 = st clientgoscheme_Scheme
                     ++ [clientgo_core; application_v1alpha1; cnpg_v1; kcp_apis_v1alpha1]).
    { unfold register. simpl. rewrite <- !app_assoc. reflexivity. }
    split; [exact Hs|].
    intros a Ha. rewrite Hs. unfold knows in *. rewrite existsb_app, Ha. reflexivity.
  - intros e H. discriminate H.
Qed.

(** ** Error lines *)

(** The TLS block logs an error only as the last thing before it stops. *)
Lemma tls_options_error_lines (f : Flags) (env : Env) (h : Heap) tr h' res :
  tls_options f env h = (tr, h', res) ->
  match res with
  | Ok _ => filter is_error_line tr = []
  | Halt _ =>
      exists pre e, tr = pre ++ [e] /\ is_error_line e = true /\ filter is_error_line pre = []
  end.
Proof.
  intros H. unfold tls_options in H. paths H.
  all: try reflexivity.
  all: match goal with
       | |- exists pre e, ?l = _ /\ _ => exists (removelast l), (last l EGo)
       end; repeat split.
Qed.

(** So does the component block. *)
Lemma components_error_lines (f : Flags) (env : Env) ws mo ctx c0 c1 tr h res :
  components f env ws mo ctx 1%nat [c0; c1] = (tr, h, res) ->
  match res with
  | Ok _ => filter is_error_line tr = []
  | Halt _ =>
      exists pre e, tr = pre ++ [e] /\ is_error_line e = true /\ filter is_error_line pre = []
  end.
Proof.
  intros H. unfold components in H. paths H.
  all: try reflexivity.
  all: match goal with
       | |- exists pre e, ?l = _ /\ _ => exists (removelast l), (last l EGo)
       end; repeat split.
Qed.

(** The sequential part logs an error only as the last thing before an
    [os.Exit(1)]. *)
Lemma setup_error_lines (f : Flags) (env : Env) tr h res :
  run_setup f env = (tr, h, res) ->
  match res with
  | Halt (Exit _) =>
      exists pre e, tr = pre ++ [e] /\ is_error_line e = true /\ filter is_error_line pre = []
  | _ => filter is_error_line tr = []
  end.
Proof.
  intros Hrun. destruct (setup_inv _ _ Hrun).
  - pose proof (tls_options_error_lines _ _ _ Htls) as H. simpl in H. subst res.
    destruct (tls_options_halts _ _ _ Htls) as [-> _]. exact H.
  - pose proof (tls_options_error_lines _ _ _ Htls) as H. simpl in H. subst.
    exists (t1 ++ [ESetupSignalHandler; EGetConfigOrDie]), (ELog (kubeconfig_error_line env)).
    split; [now rewrite <- app_assoc|]. split; [reflexivity|].
    rewrite filter_app, H. reflexivity.
  - pose proof (tls_options_error_lines _ _ _ Htls) as H1. simpl in H1.
    assert (H2 : filter is_error_line (ESetupSignalHandler :: t2) = []).
    { rewrite discovery_config_fresh, Hcfg in Hdisc. inversion Hdisc.
      destruct (nonempty (server f)); reflexivity. }
    pose proof (@components_error_lines f env _ _ _ _ _ _ _ _ Hcomp) as H3.
    subst tr. destruct res as [r | s].
    + rewrite !filter_app, H1, H2, H3. reflexivity.
    + destruct (components_halts _ _ _ _ _ _ _ Hcomp) as [-> _].
      destruct H3 as (pre & e & -> & He & Hpre).
      exists (t1 ++ (ESetupSignalHandler :: t2) ++ pre), e.
      split; [now rewrite <- !app_assoc|]. split; [exact He|].
      rewrite !filter_app, H1, H2, Hpre. reflexivity.
Qed.

(** X12: an error line is the last thing the thread that logs it does
    before [os.Exit(1)]: under every schedule, a thread that has logged an
    error has logged nothing after it and no error before it, and stands at
    its [os.Exit(1)] or has ended the process. *)
Theorem error_line_is_the_threads_last_word
    (f : Flags) (env : Env) (sched : list Tid) (who : Tid) (e : Event) :
  In e (thread_events who (trace (process f env sched))) ->
  is_error_line e = true ->
  let p := process f env sched in
  (exists pre,
     thread_events who (trace p) = pre ++ [e] /\ filter is_error_line pre = []) /\
  match who with
  | MainT =>
      main_pc p = MBeforeExit \/ (main_pc p = MStopped /\ status p = Ended MainT (Exit 1))
  | ProviderT => go_pc p = GBeforeExit
  end /\
  (status p = Alive ->
   status (process f env (sched ++ [who])) = Ended who (Exit 1)).
Proof.
  intros Hin He p.
  destruct (run_setup f env) as [[tr h] [r | s]] eqn:Hrun.
  - destruct (process_running f env sched Hrun) as [Hp [Hm Hg Htm Htg Hs]].
    fold p in Hp, Hm, Hg, Htm, Htg, Hs, Hin.
    pose proof (setup_error_lines _ _ Hrun) as Hnone. simpl in Hnone.
    assert (Hnext : forall t, process f env (sched ++ [t]) = step f env r t p).
    { intros t. unfold p, process. rewrite Hrun, run_app. reflexivity. }
    destruct who.
    + rewrite Htm in Hin. apply in_app_or in Hin. destruct Hin as [Hin | Hin].
      { rewrite (filter_none_inv _ _ _ Hnone Hin) in He. discriminate He. }
      destruct (main_pc p) eqn:Epc; simpl in Hin, Hm, Htm;
        try destruct (mgr_Start env) as [err|] eqn:Es; in_cases Hin;
        subst e; try discriminate He.
      split; [|split].
      * exists (tr ++ [starting_manager f; EManagerStart (run_mgr r) (run_ctx r)]).
        rewrite Htm, <- app_assoc. split; [reflexivity|].
        rewrite filter_app, Hnone. reflexivity.
      * now left.
      * intros Halive. rewrite Hnext. unfold step. rewrite Halive.
        unfold main_step. rewrite Epc. reflexivity.
    + rewrite Htg in Hin.
      destruct (go_pc p) eqn:Epc; simpl in Hin, Hg, Htg;
        try destruct (provider_Run env) as [err|] eqn:Es; in_cases Hin;
        subst e; try discriminate He.
      split; [|split].
      * exists [EProviderRun (run_ctx r) (run_mgr r)]. rewrite Htg. split; reflexivity.
      * reflexivity.
      * intros Halive. rewrite Hnext. unfold step. rewrite Halive.
        unfold provider_step. rewrite Epc. reflexivity.
  - assert (Hp : p = {| main_pc := MStopped; go_pc := GAbsent; trace := map (pair MainT) tr;
                        status := Ended MainT s |})
      by exact (@process_stopped f env tr h s sched Hrun).
    fold p in Hin. rewrite Hp in Hin |- *. simpl in Hin |- *.
    destruct who.
    2:{ rewrite thread_events_other in Hin by reflexivity. destruct Hin. }
    rewrite thread_events_own in Hin |- *.
    pose proof (setup_error_lines _ _ Hrun) as Hlines. simpl in Hlines.
    destruct s as [c|].
    + destruct Hlines as (pre & e' & -> & He' & Hpre).
      destruct (setup_halts _ _ Hrun) as [Hc _].
      inversion Hc; subst c.
      apply in_app_or in Hin. destruct Hin as [Hin | Hin].
      { rewrite (filter_none_inv _ _ _ Hpre Hin) in He. discriminate He. }
      destruct Hin as [<- | []].
      split; [exists pre; auto|]. split; [right; auto|]. intros H. discriminate H.
    + rewrite (filter_none_inv _ _ _ Hlines Hin) in He. discriminate He.
Qed.

Lemma error_line_is_the_threads_last_word_witness :
  go_pc (process sample_flags (sample_env (Some ProviderRun)) [ProviderT; ProviderT; ProviderT])
    = GBeforeExit.
Proof.
  refine (proj1 (proj2 (@error_line_is_the_threads_last_word sample_flags
                          (sample_env (Some ProviderRun))
                          [ProviderT; ProviderT; ProviderT] ProviderT
                          (ELog (setupLog_Error (errorString "boom") "unable to run provider" []))
                          _ eq_refl))).
  simpl. right. left. reflexivity.
Defined.

(** ** One manager *)

(** In the component block, whatever names a manager names the one
    [mcmanager.New] returned; so does the result. *)
Lemma components_manager (f : Flags) (env : Env) ws mo ctx c0 c1 tr h res :
  components f env ws mo ctx 1%nat [c0; c1] = (tr, h, res) ->
  (forall e m, In e tr -> manager_of e = Some m ->
     exists p o,
       In (EManagerNew 1%nat p o) tr /\ mcmanager_New env c1 p o = inl m) /\
  (forall r, res = Ok r ->
     exists p o,
       In (EManagerNew 1%nat p o) tr /\ mcmanager_New env c1 p o = inl (run_mgr r)) /\
  load h 1 = Some c1 /\
  length (filter (fun e => match e with EManagerNew _ _ _ => true | _ => false end) tr) <= 1.
Proof.
  intros H. unfold components in H. paths H.
  all: split; [intros ev m' Hin Hm; in_cases Hin; subst ev; simpl in Hm;
               try discriminate Hm; inversion Hm; subst m';
               do 2 eexists; (split; [|eassumption]); simpl; tauto|].
  all: split; [intros r' Hr; try discriminate Hr; inversion Hr; subst r'; simpl;
               do 2 eexists; (split; [|eassumption]); simpl; tauto|].
  all: split; [reflexivity | simpl; lia].
Qed.

(** X13: there is one manager.  Under every schedule, the registration of
    the controller, both health check registrations, [mgr.Start] and
    [provider.Run] all name the manager that the single [mcmanager.New]
    call of the run returned. *)
Theorem everything_is_on_the_created_manager
    (f : Flags) (env : Env) (tr : list Event) (h : Heap) (res : Res Running)
    (sched : list Tid) (e : Event) (m : Manager) :
  run_setup f env = (tr, h, res) ->
  In e (map snd (trace (process f env sched))) ->
  manager_of e = Some m ->
  created_by env tr h m.
Proof.
  intros Hrun Hin Hm.
  assert (Hsetup : (forall e' m', In e' tr -> manager_of e' = Some m' -> created_by env tr h m') /\
                   (forall r, res = Ok r -> created_by env tr h (run_mgr r))).
  { destruct (setup_cases _ _ Hrun) as [(Hev & _ & s & Hs & _) | [t3 Hr]].
    - split.
      + intros e' m' He' Hm'. rewrite forallb_forall in Hev. specialize (Hev _ He').
        destruct e'; try discriminate Hm'; discriminate Hev.
      + intros r Hr. congruence.
    - destruct Hr as (t1 & t2 & serving & c0 & Htls & _ & Hcomp & Htr & Hev1 & Hev2).
      destruct (@components_manager f env _ _ _ _ _ _ _ _ Hcomp) as (Hev & Hres & Hl & Hone).
      pose proof (early_events _ _ Hev1 Hev2) as Hall.
      assert (Hcount : forall p o, In (EManagerNew 1%nat p o) t3 ->
                length (filter (fun e => match e with EManagerNew _ _ _ => true | _ => false end)
                          tr) = 1).
      { intros p o Hp. subst tr. rewrite app_assoc, filter_app.
        rewrite (filter_none _ (t1 ++ t2)).
        - simpl.
          assert (Hpos : In (EManagerNew 1%nat p o)
                           (filter (fun e => match e with
                                             | EManagerNew _ _ _ => true | _ => false end) t3))
            by (apply filter_In; auto).
          destruct (filter _ t3); [destruct Hpos | simpl in *; lia].
        - intros x Hx. rewrite forallb_forall in Hall. specialize (Hall _ Hx).
          destruct x; try reflexivity; discriminate Hall. }
      assert (Hsub : forall x, In x t3 -> In x tr).
      { intros x Hx. subst tr. do 2 (apply in_or_app; right). exact Hx. }
      split.
      + intros e' m' He' Hm'.
        assert (He3 : In e' t3).
        { subst tr. rewrite app_assoc in He'. apply in_app_or in He'.
          destruct He' as [He' | He']; [|exact He'].
          rewrite forallb_forall in Hall. specialize (Hall _ He').
          destruct e'; try discriminate Hm'; discriminate Hall. }
        destruct (Hev _ _ He3 Hm') as (p & o & Hp & Hnew).
        exists 1%nat, p, o, (overridden f c0). repeat split; auto.
        exact (Hcount _ _ Hp).
      + intros r Hr. destruct (Hres _ Hr) as (p & o & Hp & Hnew).
        exists 1%nat, p, o, (overridden f c0). repeat split; auto.
        exact (Hcount _ _ Hp). }
  destruct Hsetup as [Hev Hres].
  destruct res as [r | s].
  - destruct (process_running f env sched Hrun) as [Hp [_ _ Htm Htg _]].
    apply in_map_iff in Hin. destruct Hin as [[t e'] [He Hin]]. simpl in He. subst e'.
    apply in_thread_events in Hin. destruct t.
    + rewrite Htm in Hin. apply in_app_or in Hin. destruct Hin as [Hin | Hin].
      * exact (Hev _ _ Hin Hm).
      * destruct (main_pc (process f env sched)); simpl in Hin;
          try destruct (mgr_Start env); in_cases Hin; subst e; simpl in Hm;
          try discriminate Hm; inversion Hm; subst m; exact (Hres r eq_refl).
    + rewrite Htg in Hin.
      destruct (go_pc (process f env sched)); simpl in Hin;
        try destruct (provider_Run env); in_cases Hin; subst e; simpl in Hm;
        try discriminate Hm; inversion Hm; subst m; exact (Hres r eq_refl).
  - destruct (stopped_process f env sched Hrun) as [_ Htr]. rewrite Htr in Hin.
    exact (Hev _ _ Hin Hm).
Qed.

Lemma everything_is_on_the_created_manager_witness :
  created_by (sample_env None)
    (fst (fst (run_setup sample_flags (sample_env None))))
    (snd (fst (run_setup sample_flags (sample_env None))))
    (manager 1).
Proof.
  refine (@everything_is_on_the_created_manager sample_flags (sample_env None) _ _ _
            [MainT; MainT] (EManagerStart (manager 1) 1%nat) (manager 1) eq_refl _ eq_refl).
  simpl. repeat (first [left; reflexivity | right]).
Defined.

Lemma init_registers_in_order_or_panics_witness :
  exists st',
    init (sample_env None) (fun _ => []) = inl st' /\
    st' clientgoscheme_Scheme = init_order.
Proof.
  destruct (proj2 (proj1 (@init_registers_in_order_or_panics (sample_env None) (fun _ => [])))
              (fun _ => eq_refl)) as [st' Hst].
  exists st'. split; [exact Hst|].
  exact (proj1 (proj1 (proj2 (@init_registers_in_order_or_panics (sample_env None)
                                (fun _ => []))) st' Hst)).
Defined.
